(** * AI-Chat-TOC: a shallow embedding of the site adapters and the panel UI

    The development follows the two source files of the extension:

    - [Chrome/main.js]: the four site adapters ([SITES.chatgpt], [SITES.gemini],
      [SITES.perplexity], [SITES.claude]) with their [getQueries] extractors;
    - the UI module: [PositionManager], [DragManager], and the [UI] class
      ([createTOC], [debouncedCreateTOC], [buildTOCStructure],
      [populateTOCList], the exports).

    Modelling conventions.

    - A JavaScript string is a [string]; every character stands for one UTF-16
      code unit in the range 0..255 (Latin-1).  On that range
      [String.prototype.trim], the regular expression class [\s] and
      [toLowerCase] act unit by unit, which is how they are written below.
    - Pixel coordinates and time stamps are integers ([Z]); on integers below
      2^53 the double arithmetic of the source is exact.
    - The host page is a forest of DOM nodes: the children of [<body>].  An
      element handle remembers where the element sits in that forest, so that
      [parentElement] and [previousElementSibling] can be answered.
    - CSS selectors are given as syntax trees; each selector constant quotes
      the selector text of the source it stands for. *)

From Stdlib Require Import ZArith Lia Ascii.
From stdpp Require Import gmap strings list pretty.

Open Scope Z_scope.

(** ** JavaScript strings *)

Module JS.

(** Code units matched by [\s] and stripped by [trim]: TAB, LF, VT, FF, CR,
    SPACE and NBSP (the members of the ECMAScript WhiteSpace and
    LineTerminator productions below 256). *)
Definition isWhiteSpace (c : ascii) : bool :=
  match c with
  | "009" | "010" | "011" | "012" | "013" | " " | "160" => true
  | _ => false
  end%char.

Fixpoint trimStart (s : string) : string :=
  match s with
  | EmptyString => EmptyString
  | String c r => if isWhiteSpace c then trimStart r else s
  end.

Fixpoint trimEnd (s : string) : string :=
  match s with
  | EmptyString => EmptyString
  | String c r =>
      match trimEnd r with
      | EmptyString => if isWhiteSpace c then EmptyString else String c EmptyString
      | r' => String c r'
      end
  end.

(** [s.trim()] *)
Definition trim (s : string) : string := trimEnd (trimStart s).

(** [s.replace(/\s+/g, " ")]: a left-to-right scan; [inRun] tells that the
    previous unit belonged to the whitespace run being replaced. *)
Fixpoint replaceWsFrom (inRun : bool) (s : string) : string :=
  match s with
  | EmptyString => EmptyString
  | String c r =>
      if isWhiteSpace c
      then if inRun then replaceWsFrom true r
           else String " "%char (replaceWsFrom true r)
      else String c (replaceWsFrom false r)
  end.

Definition replaceWs (s : string) : string := replaceWsFrom false s.

(** [toLowerCase] on one Latin-1 code unit: A..Z, and U+00C0..U+00DE
    without the multiplication sign U+00D7. *)
Definition lowerUnit (c : ascii) : ascii :=
  let n := nat_of_ascii c in
  if ((65 <=? n) && (n <=? 90))%nat then ascii_of_nat (n + 32)
  else if ((192 <=? n) && (n <=? 222) && negb (n =? 215))%nat then ascii_of_nat (n + 32)
  else c.

Fixpoint toLowerCase (s : string) : string :=
  match s with
  | EmptyString => EmptyString
  | String c r => String (lowerUnit c) (toLowerCase r)
  end.

(** [s.startsWith(p)] *)
Definition startsWith (p s : string) : bool := String.prefix p s.

(** [s.substring(0, n)] for a non-negative integer [n]. *)
Fixpoint substring0 (n : nat) (s : string) : string :=
  match n, s with
  | O, _ => EmptyString
  | _, EmptyString => EmptyString
  | S n', String c r => String c (substring0 n' r)
  end.

(** [parts.join(sep)] *)
Fixpoint join (sep : string) (parts : list string) : string :=
  match parts with
  | [] => EmptyString
  | [p] => p
  | p :: rest => p +:+ sep +:+ join sep rest
  end.

(** [s.split(sep)[0]] for a one-unit separator: the part before its first
    occurrence, or all of [s]. *)
Fixpoint splitHead (sep : ascii) (s : string) : string :=
  match s with
  | EmptyString => EmptyString
  | String c r => if Ascii.eqb c sep then EmptyString else String c (splitHead sep r)
  end.

(** A string is truthy when it is not empty. *)
Definition truthy (s : string) : bool :=
  match s with EmptyString => false | _ => true end.

(** Number to string conversion of a non-negative integer, as in a
    template literal. *)
Definition ofNat (n : nat) : string := pretty n.

(** *** Predicates on texts *)

(** Empty, or whitespace only. *)
Fixpoint allWhiteSpace (s : string) : bool :=
  match s with
  | EmptyString => true
  | String c r => isWhiteSpace c && allWhiteSpace r
  end.

Definition startsWithWs (s : string) : bool :=
  match s with
  | EmptyString => false
  | String c _ => isWhiteSpace c
  end.

Fixpoint endsWithWs (s : string) : bool :=
  match s with
  | EmptyString => false
  | String c EmptyString => isWhiteSpace c
  | String _ r => endsWithWs r
  end.

(** Both ends trimmed. *)
Definition isTrimmed (s : string) : bool :=
  negb (startsWithWs s) && negb (endsWithWs s).

(** Runs of whitespace collapsed: every whitespace unit is a space that is
    not followed by another whitespace unit. *)
Fixpoint isCollapsed (s : string) : bool :=
  match s with
  | EmptyString => true
  | String c r =>
      (if isWhiteSpace c then Ascii.eqb c " " && negb (startsWithWs r) else true)
      && isCollapsed r
  end.

(** Whitespace-normalized: collapsed and trimmed. *)
Definition isNormalized (s : string) : bool := isCollapsed s && isTrimmed s.

End JS.

(** ** Constants of the UI module ([window.TOC.CONSTANTS]) *)

Module CONSTANTS.
Definition TOC_CONTAINER : string := "toc-extension".
Definition TOC_TOGGLE_BTN : string := "toc-toggle-btn".
Definition SEARCH_INPUT : string := "toc-search-input".
Definition SEARCH_CLEAR : string := "toc-search-clear".
Definition TOC_HEADER : string := "toc-header".
Definition TOC_HEADER_CONTENT : string := "toc-header-content".
Definition TOC_DRAG_HANDLE : string := "toc-drag-handle".
Definition TOC_SEARCH_CONTAINER : string := "toc-search-container".
Definition COLLAPSED : string := "collapsed".
Definition PADDING : Z := 10.
Definition MAX_QUERY_LENGTH : nat := 70.
Definition TRUNCATE_SUFFIX : string := "...".
Definition COLLAPSE_BREAKPOINT : Z := 1024.
End CONSTANTS.

(** ** PositionManager *)

(** The part of [window] the position code reads. *)
Record viewport := { innerWidth : Z; innerHeight : Z }.

Record point := { px : Z; py : Z }.

(** A value kept in [localStorage], standing for its JSON text
    ([JSON.stringify] on write, [JSON.parse] on read). *)
Inductive json :=
| JBool (b : bool)
| JPoint (x y : Z).

Module PositionManager.

Definition collapsedKey (storageKey : string) : string := storageKey +:+ "-collapsed".

Definition savePosition (storageKey : string) (x y : Z) (localStorage : gmap string json)
    : gmap string json :=
  <[storageKey := JPoint x y]> localStorage.

Definition getSavedPosition (storageKey : string) (localStorage : gmap string json)
    : option json :=
  localStorage !! storageKey.

Definition saveCollapsedState (storageKey : string) (isCollapsed : bool)
    (localStorage : gmap string json) : gmap string json :=
  <[collapsedKey storageKey := JBool isCollapsed]> localStorage.

(** [saved ? JSON.parse(saved) : false], read as a condition: a stored
    object is truthy. *)
Definition getCollapsedState (storageKey : string) (localStorage : gmap string json) : bool :=
  match localStorage !! collapsedKey storageKey with
  | Some (JBool b) => b
  | Some (JPoint _ _) => true
  | None => false
  end.

(** [constrainToViewport(x, y, elementWidth, elementHeight)] *)
Definition constrainToViewport (win : viewport) (x y elementWidth elementHeight : Z) : point :=
  let padding := CONSTANTS.PADDING in
  let minX := padding in
  let minY := padding in
  let maxX := innerWidth win - elementWidth - padding in
  let maxY := innerHeight win - elementHeight - padding in
  {| px := Z.max minX (Z.min x maxX);
     py := Z.max minY (Z.min y maxY) |}.

End PositionManager.

(** ** The host page: DOM nodes, element handles and selectors *)

Module DOM.

#[warnings="-register-all"] Inductive node :=
| Text (data : string)
| Elem (tag : string) (attrs : gmap string string) (children : list node).

(** The children of [<body>], in document order. *)
Definition forest := list node.

(** Tag and attributes: what a selector looks at. *)
Definition einfo : Type := string * gmap string string.

(** [node.textContent]: the text of all descendants, in document order. *)
Fixpoint textContent (n : node) : string :=
  match n with
  | Text s => s
  | Elem _ _ cs =>
      (fix go (l : list node) : string :=
         match l with
         | [] => EmptyString
         | c :: r => textContent c +:+ go r
         end) cs
  end.

Fixpoint textContents (l : list node) : string :=
  match l with
  | [] => EmptyString
  | c :: r => textContent c +:+ textContents r
  end.

(** An element handle: the element together with its position in the page.
    [e_parent] is the path of the parent element from [<body>] (child
    indices, outermost first), [e_index] the element's index among the
    child nodes of its parent, [e_prev] its previous element sibling and
    [e_ancestors] its ancestors, nearest first. *)
Record Element := {
  e_parent : list nat;
  e_index : nat;
  e_tag : string;
  e_attrs : gmap string string;
  e_children : list node;
  e_prev : option einfo;
  e_ancestors : list einfo
}.

Definition e_path (e : Element) : list nat := e_parent e ++ [e_index e].
Definition e_info (e : Element) : einfo := (e_tag e, e_attrs e).
Definition e_node (e : Element) : node := Elem (e_tag e) (e_attrs e) (e_children e).

(** [el.textContent] *)
Definition elementText (e : Element) : string := textContents (e_children e).

Definition nextPrev (prev : option einfo) (n : node) : option einfo :=
  match n with
  | Elem t a _ => Some (t, a)
  | Text _ => prev
  end.

(** All elements below a node list, in document order (pre-order). *)
Fixpoint walkNode (parent : list nat) (anc : list einfo) (idx : nat)
    (prev : option einfo) (n : node) {struct n} : list Element :=
  match n with
  | Text _ => []
  | Elem t a cs =>
      {| e_parent := parent; e_index := idx; e_tag := t; e_attrs := a;
         e_children := cs; e_prev := prev; e_ancestors := anc |}
      :: (fix walkKids (i : nat) (p : option einfo) (l : list node) {struct l} : list Element :=
            match l with
            | [] => []
            | c :: r =>
                walkNode (parent ++ [idx]) ((t, a) :: anc) i p c
                ++ walkKids (S i) (nextPrev p c) r
            end) 0%nat None cs
  end.

Fixpoint walk (parent : list nat) (anc : list einfo) (idx : nat)
    (prev : option einfo) (l : list node) : list Element :=
  match l with
  | [] => []
  | c :: r => walkNode parent anc idx prev c ++ walk parent anc (S idx) (nextPrev prev c) r
  end.

Definition elements (doc : forest) : list Element := walk [] [] 0%nat None doc.

(** The descendants of an element. *)
Definition descendants (e : Element) : list Element :=
  walk (e_path e) (e_info e :: e_ancestors e) 0%nat None (e_children e).

(** *** Selectors *)

Definition isAsciiSpace (c : ascii) : bool :=
  match c with
  | "009" | "010" | "012" | "013" | " " => true
  | _ => false
  end%char.

(** The tokens of a [class] attribute. *)
Fixpoint tokensFrom (cur : string) (s : string) : list string :=
  match s with
  | EmptyString => if JS.truthy cur then [cur] else []
  | String c r =>
      if isAsciiSpace c
      then if JS.truthy cur then cur :: tokensFrom EmptyString r
           else tokensFrom EmptyString r
      else tokensFrom (cur +:+ String c EmptyString) r
  end.

Definition classTokens (a : gmap string string) : list string :=
  match a !! "class" with
  | Some v => tokensFrom EmptyString v
  | None => []
  end.

(** [el.classList.contains(c)] *)
Definition hasClass (c : string) (a : gmap string string) : bool :=
  bool_decide (c ∈ classTokens a).

Fixpoint includes (v s : string) : bool :=
  String.prefix v s ||
  match s with
  | EmptyString => false
  | String _ r => includes v r
  end.

Inductive simple :=
| STag (t : string)            (* t *)
| SClass (c : string)          (* .c *)
| SAttrEq (a v : string)       (* [a="v"] *)
| SAttrSub (a v : string).     (* [a*="v"] *)

(** A compound selector is a conjunction of simple ones; a complex
    selector is a chain of compounds separated by descendant combinators,
    outermost first; a selector list is a comma-separated alternative. *)
Definition compound := list simple.
Definition complex := list compound.
Definition selector := list complex.

Definition matchesSimple (i : einfo) (s : simple) : bool :=
  match s with
  | STag t => bool_decide (i.1 = t)
  | SClass c => hasClass c i.2
  | SAttrEq a v => bool_decide (i.2 !! a = Some v)
  | SAttrSub a v =>
      match i.2 !! a with
      | Some w => JS.truthy v && includes v w
      | None => false
      end
  end.

Definition matchesCompound (i : einfo) (c : compound) : bool :=
  forallb (matchesSimple i) c.

(** The outer compounds of a chain, innermost first, against the
    ancestors, nearest first. *)
Fixpoint matchesUp (outer : list compound) (anc : list einfo) : bool :=
  match outer, anc with
  | [], _ => true
  | _ :: _, [] => false
  | c :: outer', a :: anc' =>
      if matchesCompound a c then matchesUp outer' anc' else matchesUp outer anc'
  end.

Definition matchesComplex (e : Element) (x : complex) : bool :=
  match rev x with
  | [] => false
  | c :: outer => matchesCompound (e_info e) c && matchesUp outer (e_ancestors e)
  end.

(** [el.matches(sel)] *)
Definition matches (sel : selector) (e : Element) : bool :=
  existsb (matchesComplex e) sel.

(** [document.querySelectorAll(sel)] *)
Definition querySelectorAll (doc : forest) (sel : selector) : list Element :=
  List.filter (matches sel) (elements doc).

(** [el.querySelectorAll(sel)] *)
Definition querySelectorAllIn (e : Element) (sel : selector) : list Element :=
  List.filter (matches sel) (descendants e).

Definition hasId (id : string) (e : Element) : bool :=
  bool_decide (e_attrs e !! "id" = Some id).

(** [document.getElementById(id)] *)
Definition getElementById (doc : forest) (id : string) : option Element :=
  head (List.filter (hasId id) (elements doc)).

(** *** Reading a built subtree *)

Definition childNodes (n : node) : list node :=
  match n with
  | Elem _ _ cs => cs
  | Text _ => []
  end.

Definition tagName (n : node) : string :=
  match n with
  | Elem t _ _ => t
  | Text _ => EmptyString
  end.

Definition getAttribute (k : string) (n : node) : option string :=
  match n with
  | Elem _ a _ => a !! k
  | Text _ => None
  end.

Definition childrenByTag (t : string) (n : node) : list node :=
  List.filter (fun c => bool_decide (tagName c = t)) (childNodes n).

Definition childrenByClass (c : string) (n : node) : list node :=
  List.filter (fun d => match d with Elem _ a _ => hasClass c a | Text _ => false end)
    (childNodes n).

(** Tag and attributes of all elements of a forest, in document order. *)
Fixpoint infoNode (n : node) : list einfo :=
  match n with
  | Text _ => []
  | Elem t a cs =>
      (t, a) :: (fix go (l : list node) : list einfo :=
                   match l with
                   | [] => []
                   | c :: r => infoNode c ++ go r
                   end) cs
  end.

Fixpoint infos (l : list node) : list einfo :=
  match l with
  | [] => []
  | c :: r => infoNode c ++ infos r
  end.

Definition infoHasId (id : string) (i : einfo) : bool :=
  bool_decide (i.2 !! "id" = Some id).

(** The number of elements that carry the id. *)
Definition countId (id : string) (l : list node) : nat :=
  length (List.filter (infoHasId id) (infos l)).

(** *** Mutation *)

Definition onChildren (f : list node -> list node) (n : node) : node :=
  match n with
  | Elem t a cs => Elem t a (f cs)
  | Text _ => n
  end.

(** [el.remove()] for the element at path [p]. *)
Fixpoint removeAt (p : list nat) (l : list node) : list node :=
  match p with
  | [] => l
  | i :: p' =>
      match p' with
      | [] => delete i l
      | _ :: _ => alter (onChildren (removeAt p')) i l
      end
  end.

Definition setAttr (k v : string) (n : node) : node :=
  match n with
  | Elem t a cs => Elem t (<[k := v]> a) cs
  | Text _ => n
  end.

(** [el.setAttribute(k, v)] (or [el.id = v] for [k = "id"]) for the element
    at path [p]. *)
Fixpoint setAttrAt (p : list nat) (k v : string) (l : list node) : list node :=
  match p with
  | [] => l
  | i :: p' =>
      match p' with
      | [] => alter (setAttr k v) i l
      | _ :: _ => alter (onChildren (setAttrAt p' k v)) i l
      end
  end.

(** [el.classList.add(c)] on the attributes of an element: the token set
    is serialised back with single spaces. *)
Definition classListAdd (c : string) (a : gmap string string) : gmap string string :=
  let toks := classTokens a in
  <["class" := JS.join " " (if bool_decide (c ∈ toks) then toks else toks ++ [c])]> a.

End DOM.

(** ** Site adapters ([SITES] in main.js) *)

(** One extracted query: [{ text, element }]. *)
Record query := { text : string; element : DOM.Element }.

(** [arr.forEach(x => { ...; if (c) out.push(v) })]: every element pushes at
    most one value. *)
Definition forEachPush {A B : Type} (f : A -> option B) (l : list A) : list B :=
  fold_left (fun acc x => match f x with Some y => acc ++ [y] | None => acc end) l [].

Module SITES.
Import DOM.

(** The [Set] driven filters of the Gemini and Claude adapters:
    [seen.has(key)] rejects, otherwise [seen.add(key)] and keep. *)
Fixpoint filterSeen (key : query -> string) (seen : gset string) (l : list query) : list query :=
  match l with
  | [] => []
  | q :: r =>
      if bool_decide (key q ∈ seen) then filterSeen key seen r
      else q :: filterSeen key ({[ key q ]} ∪ seen) r
  end.

Module chatgpt.
Definition name : string := "ChatGPT".
Definition storageKey : string := "chatgpt-toc-position".
(** [div[data-message-author-role="user"]] *)
Definition userMessage : selector :=
  [[[STag "div"; SAttrEq "data-message-author-role" "user"]]].

Definition getQueries (doc : forest) : list query :=
  let queryElements := querySelectorAll doc userMessage in
  forEachPush (fun el =>
    let text := JS.trim (elementText el) in
    if JS.truthy text then Some {| text := text; element := el |} else None)
    queryElements.
End chatgpt.

Module gemini.
Definition name : string := "Gemini".
Definition storageKey : string := "gemini-toc-position".
(** [.query-text-line, .user-message, .query] *)
Definition userMessage : selector :=
  [[[SClass "query-text-line"]]; [[SClass "user-message"]]; [[SClass "query"]]].
(** [.user-message, .query] *)
Definition containerSelector : selector :=
  [[[SClass "user-message"]]; [[SClass "query"]]].
(** [.query-text-line] *)
Definition lineSelector : selector := [[[SClass "query-text-line"]]].

Definition normalize (s : string) : string := JS.trim (JS.replaceWs s).

Definition isLine (el : Element) : bool := hasClass "query-text-line" (e_attrs el).

(** [prev && prev.parentElement === el.parentElement &&
    prev.classList.contains("query-text-line")]; a previous sibling always
    has the same parent. *)
Definition prevIsLine (el : Element) : bool :=
  match e_prev el with
  | Some i => hasClass "query-text-line" i.2
  | None => false
  end.

(** The branch taken when containers exist. *)
Definition containerGroups (containers : list Element) : list query :=
  forEachPush (fun container =>
    let lineNodes := querySelectorAllIn container lineSelector in
    let text :=
      match lineNodes with
      | _ :: _ => normalize (JS.join " " (map elementText lineNodes))
      | [] => normalize (elementText container)
      end in
    if JS.truthy text then Some {| text := text; element := container |} else None)
    containers.

(** The inner [while] of the other branch: starting at [nodes[j]], collect
    the texts of the line nodes that share the parent of [el]; returns the
    parts and the nodes from the final [j] on. *)
Fixpoint collectRun (el : Element) (parts : list string) (rest : list Element)
    : list string * list Element :=
  match rest with
  | n :: rest' =>
      if isLine n && bool_decide (e_parent n = e_parent el)
      then collectRun el (parts ++ [elementText n]) rest'
      else (parts, rest)
  | [] => (parts, rest)
  end.

(** The [for] loop over [nodes]; [rest] holds [nodes[i..]].  Each iteration
    consumes at least one node, so [length nodes] iterations suffice. *)
Fixpoint lineLoop (fuel : nat) (rest : list Element) (groups : list query) : list query :=
  match fuel, rest with
  | S fuel', el :: rest' =>
      if isLine el then
        if prevIsLine el then lineLoop fuel' rest' groups
        else
          let '(parts, rest'') := collectRun el [elementText el] rest' in
          let text := normalize (JS.join " " parts) in
          lineLoop fuel' rest''
            (if JS.truthy text then groups ++ [{| text := text; element := el |}] else groups)
      else
        let text := normalize (elementText el) in
        lineLoop fuel' rest'
          (if JS.truthy text then groups ++ [{| text := text; element := el |}] else groups)
  | _, _ => groups
  end.

Definition groupsOf (doc : forest) : list query :=
  let containers := querySelectorAll doc containerSelector in
  match containers with
  | _ :: _ => containerGroups containers
  | [] =>
      let nodes := querySelectorAll doc userMessage in
      lineLoop (length nodes) nodes []
  end.

Definition greeting : string := "hello,".

(** The final [groups.filter(...)] with its [seen] set. *)
Fixpoint finalFilter (seen : gset string) (groups : list query) : list query :=
  match groups with
  | [] => []
  | g :: r =>
      let lower := JS.toLowerCase (text g) in
      if JS.startsWith greeting lower then finalFilter seen r
      else if bool_decide (lower ∈ seen) then finalFilter seen r
      else g :: finalFilter ({[ lower ]} ∪ seen) r
  end.

Definition getQueries (doc : forest) : list query :=
  finalFilter ∅ (groupsOf doc).

(** *** Pages made of message blocks

    A message block is a parent element whose children are the line nodes
    of one message; the parent is either a container ([.user-message]) or a
    plain [<div>]. *)
Definition lineAttrs : gmap string string := {[ "class" := "query-text-line" ]}.
Definition lineNode (t : string) : node := Elem "p" lineAttrs [Text t].
Definition containerAttrs : gmap string string := {[ "class" := "user-message" ]}.
Definition containerBlock (ts : list string) : node :=
  Elem "div" containerAttrs (map lineNode ts).




End gemini.

Module perplexity.
Definition name : string := "Perplexity".
Definition storageKey : string := "perplexity-toc-position".
(** [h1.group\/query, div.group\/query, .flex.flex-col.gap-1.pb-2] *)
Definition primary : selector :=
  [[[STag "h1"; SClass "group/query"]]; [[STag "div"; SClass "group/query"]];
   [[SClass "flex"; SClass "flex-col"; SClass "gap-1"; SClass "pb-2"]]].
(** [[class*="pb-2"] .font-sans.text-textMain] *)
Definition secondary : selector :=
  [[[SAttrSub "class" "pb-2"]; [SClass "font-sans"; SClass "text-textMain"]]].

Definition extract (els : list Element) : list query :=
  List.filter (fun q => JS.truthy (text q))
    (map (fun el => {| text := JS.trim (elementText el); element := el |}) els).

Definition getQueries (doc : forest) : list query :=
  let queries := extract (querySelectorAll doc primary) in
  match queries with
  | [] => extract (querySelectorAll doc secondary)
  | _ :: _ => queries
  end.
End perplexity.

Module claude.
Definition name : string := "Claude".
Definition storageKey : string := "claude-toc-position".
(** [[data-testid="user-message"]], [.human-message],
    [[class*="human"] [class*="message"]], [.prose[class*="human"]] *)
Definition selectors : list selector :=
  [ [[[SAttrEq "data-testid" "user-message"]]];
    [[[SClass "human-message"]]];
    [[[SAttrSub "class" "human"]; [SAttrSub "class" "message"]]];
    [[[SClass "prose"; SAttrSub "class" "human"]]] ].

Definition extract (els : list Element) : list query :=
  List.filter (fun q => JS.truthy (text q) && (0 <? String.length (text q))%nat)
    (map (fun el => {| text := JS.trim (elementText el); element := el |}) els).

(** The [for (const selector of selectors)] loop with its [break]. *)
Fixpoint selectorLoop (doc : forest) (sels : list selector) (queries : list query) : list query :=
  match sels with
  | [] => queries
  | selector :: sels' =>
      match querySelectorAll doc selector with
      | [] => selectorLoop doc sels' queries
      | (_ :: _) as elements =>
          let queries' := extract elements in
          match queries' with
          | [] => selectorLoop doc sels' queries'
          | _ :: _ => queries'
          end
      end
  end.

Definition candidates (doc : forest) : list query := selectorLoop doc selectors [].

Definition key (q : query) : string := JS.substring0 100 (text q).

Definition getQueries (doc : forest) : list query :=
  filterSeen key ∅ (candidates doc).
End claude.

End SITES.

(** What the texts of extracted queries are expected to satisfy: not empty,
    not whitespace only, and trimmed at both ends; for the normalizing
    extractor also with whitespace runs collapsed. *)
Definition keptText (s : string) : Prop :=
  JS.truthy s = true /\ JS.allWhiteSpace s = false /\ JS.isTrimmed s = true.

Definition keptNormalized (s : string) : Prop :=
  keptText s /\ JS.isNormalized s = true.



(** ** DragManager: collapse and expand *)

Module DragManager.

(** What the style sheet (not part of the modelled sources) and the layout
    engine decide: the size of the panel box with and without the
    [collapsed] class. *)
Record layout := {
  boxWidth : bool -> Z;
  boxHeight : bool -> Z
}.

(** The panel element as the drag code sees it.  [left] and [top] are the
    origin of its bounding box, which [applyPosition] pins with
    [position: fixed; left; top] (all [!important]).  A number written to
    [dataset] is stored through its string form, which [parseFloat] reads
    back unchanged. *)
Record panel := {
  classList : list string;
  dataset : gmap string Z;
  left : Z;
  top : Z
}.

Record rect := { r_left : Z; r_top : Z; r_width : Z; r_height : Z }.

Definition isCollapsed (el : panel) : bool :=
  bool_decide (CONSTANTS.COLLAPSED ∈ classList el).

Definition getBoundingClientRect (css : layout) (el : panel) : rect :=
  {| r_left := left el; r_top := top el;
     r_width := boxWidth css (isCollapsed el);
     r_height := boxHeight css (isCollapsed el) |}.

Definition offsetHeight (css : layout) (el : panel) : Z := boxHeight css (isCollapsed el).

(** [positionManager.applyPosition(element, x, y)] *)
Definition applyPosition (x y : Z) (el : panel) : panel :=
  {| classList := classList el; dataset := dataset el; left := x; top := y |}.

Definition classAdd (c : string) (el : panel) : panel :=
  {| classList := if bool_decide (c ∈ classList el) then classList el else classList el ++ [c];
     dataset := dataset el; left := left el; top := top el |}.

Definition classRemove (c : string) (el : panel) : panel :=
  {| classList := List.filter (fun d => negb (bool_decide (d = c))) (classList el);
     dataset := dataset el; left := left el; top := top el |}.

Definition setData (k : string) (v : Z) (el : panel) : panel :=
  {| classList := classList el; dataset := <[k := v]> (dataset el);
     left := left el; top := top el |}.

(** [parseFloat(this.element.dataset.expandedWidth) || 300]: a missing
    entry parses to NaN, and NaN and 0 are falsy. *)
Definition rememberedWidth (el : panel) : Z :=
  match dataset el !! "expandedWidth" with
  | Some w => if w =? 0 then 300 else w
  | None => 300
  end.

(** [toggleCollapse(isExpanding)] on the element and [localStorage]. *)
Definition toggleCollapse (css : layout) (win : viewport) (storageKey : string)
    (isExpanding : bool) (st : panel * gmap string json) : panel * gmap string json :=
  let '(el, localStorage) := st in
  let rect := getBoundingClientRect css el in
  let currentX := r_left rect in
  let currentY := r_top rect in
  let collapsedSize := 48 in
  if negb isExpanding then
    let expandedWidth := r_width rect in
    let el1 := setData "expandedWidth" expandedWidth el in
    let newX := currentX + expandedWidth - collapsedSize in
    let el2 := classAdd CONSTANTS.COLLAPSED el1 in
    let el3 := applyPosition newX currentY el2 in
    (el3,
     PositionManager.saveCollapsedState storageKey true
       (PositionManager.savePosition storageKey newX currentY localStorage))
  else
    let expandedWidth := rememberedWidth el in
    let newX := currentX - (expandedWidth - collapsedSize) in
    let el1 := classRemove CONSTANTS.COLLAPSED el in
    let constrained :=
      PositionManager.constrainToViewport win newX currentY expandedWidth (offsetHeight css el1) in
    let el2 := applyPosition (px constrained) (py constrained) el1 in
    (el2,
     PositionManager.saveCollapsedState storageKey false
       (PositionManager.savePosition storageKey (px constrained) (py constrained) localStorage)).

End DragManager.

(** ** The UI class *)

(** A site configuration, as far as the UI class reads it. *)
Record siteConfig := {
  name : string;
  themeClass : string;
  storageKey : string;
  pageLoad : Z;
  promptSubmission : Z;
  getQueries : DOM.forest -> list query
}.

Definition chatgptConfig : siteConfig :=
  {| name := SITES.chatgpt.name; themeClass := "theme-chatgpt";
     storageKey := SITES.chatgpt.storageKey; pageLoad := 2000; promptSubmission := 500;
     getQueries := SITES.chatgpt.getQueries |}.

Definition geminiConfig : siteConfig :=
  {| name := SITES.gemini.name; themeClass := "theme-gemini";
     storageKey := SITES.gemini.storageKey; pageLoad := 1500; promptSubmission := 500;
     getQueries := SITES.gemini.getQueries |}.

Definition perplexityConfig : siteConfig :=
  {| name := SITES.perplexity.name; themeClass := "theme-perplexity";
     storageKey := SITES.perplexity.storageKey; pageLoad := 2000; promptSubmission := 200;
     getQueries := SITES.perplexity.getQueries |}.

Definition claudeConfig : siteConfig :=
  {| name := SITES.claude.name; themeClass := "theme-claude";
     storageKey := SITES.claude.storageKey; pageLoad := 2000; promptSubmission := 500;
     getQueries := SITES.claude.getQueries |}.

(** An entry of [questions]: the UI accepts plain strings as well as
    [{ text, element }] objects. *)
Inductive item :=
| ItemString (s : string)
| ItemQuery (q : query).

Module UI.
Import DOM.

(** [typeof item === "string" ? item : item.text] *)
Definition questionText (it : item) : string :=
  match it with
  | ItemString s => s
  | ItemQuery q => text q
  end.

(** [typeof item === "string" ? null : item.element] *)
Definition questionElement (it : item) : option Element :=
  match it with
  | ItemString _ => None
  | ItemQuery q => Some (element q)
  end.

Definition nl : string := String "010"%char EmptyString.

(** *** Building the panel *)

Definition shortText (questionText : string) : string :=
  if (CONSTANTS.MAX_QUERY_LENGTH <? String.length questionText)%nat
  then JS.substring0 (CONSTANTS.MAX_QUERY_LENGTH - 3) questionText +:+ CONSTANTS.TRUNCATE_SUFFIX
  else questionText.

Definition questionId (index : nat) : string := "toc-question-" +:+ JS.ofNat index.

(** The [<li>] built for one entry. *)
Definition listItem (index : nat) (it : item) : node :=
  let link :=
    Elem "a"
      (<["title" := questionText it]>
         (<["data-num" := JS.ofNat (index + 1)]>
            {[ "href" := "#" +:+ questionId index ]}))
      [Text (shortText (questionText it))] in
  let copyBtn :=
    Elem "button" (<["title" := "Copy query"]> {[ "class" := "toc-copy-btn" ]}) [] in
  Elem "li" {[ "data-toc-num" := JS.ofNat (index + 1) ]} [link; copyBtn].

(** [if (element) element.id = questionId] *)
Definition assignId (index : nat) (it : item) (doc : forest) : forest :=
  match questionElement it with
  | Some el => setAttrAt (e_path el) "id" (questionId index) doc
  | None => doc
  end.

(** [populateTOCList]: the [forEach] from entry [index] on.  It appends one
    row per entry and gives the source element of the entry its anchor id;
    the result is the rows and the page after these writes. *)
Fixpoint populateFrom (index : nat) (questions : list item) (doc : forest)
    : list node * forest :=
  match questions with
  | [] => ([], doc)
  | it :: rest =>
      let doc1 := assignId index it doc in
      let '(rows, doc2) := populateFrom (S index) rest doc1 in
      (listItem index it :: rows, doc2)
  end.

Definition populateTOCList (questions : list item) (doc : forest) : list node * forest :=
  populateFrom 0 questions doc.

Definition tocHeader : node :=
  let dragHandle :=
    Elem "div" (<["title" := "Drag to move"]> {[ "class" := CONSTANTS.TOC_DRAG_HANDLE ]}) [] in
  let title := Elem "h2" ∅ [Text "Table of Contents"] in
  let headerContent :=
    Elem "div" {[ "class" := CONSTANTS.TOC_HEADER_CONTENT ]} [dragHandle; title] in
  let exportBtn :=
    Elem "button" (<["title" := "Export queries"]> {[ "id" := "toc-export-btn" ]}) [] in
  let toggleBtn :=
    Elem "button"
      (<["title" := "Toggle Table of Contents"]> {[ "id" := CONSTANTS.TOC_TOGGLE_BTN ]}) [] in
  let headerButtons := Elem "div" {[ "class" := "toc-header-buttons" ]} [exportBtn; toggleBtn] in
  Elem "div" {[ "class" := CONSTANTS.TOC_HEADER ]} [headerContent; headerButtons].

Definition searchContainer : node :=
  let searchInput :=
    Elem "input"
      (<["placeholder" := "Search queries..."]>
         (<["id" := CONSTANTS.SEARCH_INPUT]> {[ "type" := "text" ]})) [] in
  let searchClear :=
    Elem "div" (<["title" := "Clear search"]> {[ "id" := CONSTANTS.SEARCH_CLEAR ]})
      [Text (String "215"%char EmptyString)] in
  Elem "div" {[ "class" := CONSTANTS.TOC_SEARCH_CONTAINER ]} [searchInput; searchClear].

Definition tocFooter (count : nat) : node :=
  let tocCount :=
    Elem "span" {[ "class" := "toc-count" ]} [Text (JS.ofNat count +:+ " queries")] in
  Elem "div" {[ "class" := "toc-footer" ]} [tocCount].

(** [buildTOCStructure(questions)]: the panel and the page after the writes
    of [populateTOCList]. *)
Definition buildTOCStructure (config : siteConfig) (questions : list item) (doc : forest)
    : node * forest :=
  let '(rows, doc1) := populateTOCList questions doc in
  let tocList := Elem "ul" ∅ rows in
  (Elem "div"
     (classListAdd (themeClass config) {[ "id" := CONSTANTS.TOC_CONTAINER ]})
     [tocHeader; searchContainer; tocList; tocFooter (length questions)],
   doc1).

(** [setupTOCFunctionality]: the search and drag managers attach their
    listeners; of their work the panel itself shows the inline style that
    [DragManager.init] gives the header and the [collapsed] class that
    [restoreCollapsedState] restores. *)
Definition setupTOCFunctionality (config : siteConfig) (localStorage : gmap string json)
    (tocContainer : node) : node :=
  let dragged :=
    onChildren
      (setAttrAt [0%nat] "style" "cursor: move; user-select: none; touch-action: none;")
      tocContainer in
  if PositionManager.getCollapsedState (storageKey config) localStorage
  then match dragged with
       | Elem t a cs => Elem t (classListAdd CONSTANTS.COLLAPSED a) cs
       | Text _ => dragged
       end
  else dragged.

(** *** Reading the panel *)

(** The rows of the panel: the children of its [<ul>]. *)
Definition panelRows (tocContainer : node) : list node :=
  flat_map childNodes (childrenByTag "ul" tocContainer).

(** The link of a row, its text and its [title]. *)
Definition rowLink (row : node) : option node := head (childrenByTag "a" row).
Definition rowText (row : node) : option string := textContent <$> rowLink row.
Definition rowTitle (row : node) : option string := rowLink row ≫= getAttribute "title".

(** The text of the panel footer. *)
Definition footerText (tocContainer : node) : option string :=
  textContent <$> head (childrenByClass "toc-footer" tocContainer).

(** The panels present in a page. *)
Definition panels (doc : forest) : list Element :=
  List.filter (hasId CONSTANTS.TOC_CONTAINER) (elements doc).

(** *** The page session *)

Inductive callback :=
| CreateTOC            (* () => this.createTOC() *)
| InitialCreate.       (* the callback of delayedCreateTOC *)

(** A timer handle is a positive integer, so it is always truthy. *)
Record timer := { t_id : positive; t_due : Z; t_cb : callback }.

Inductive logEntry :=
| LogInitial             (* [TOC] Initial create for ... *)
| LogSkipping            (* [TOC] Skipping - too soon since last create *)
| LogNoQuestions         (* [TOC] No questions found, not creating TOC *)
| LogCreated (n : nat).  (* [TOC] Created with n items *)

Inductive frameCallback :=
| ApplyInitialPosition.

(** The fields of the UI object together with the parts of the browser it
    works on. *)
Record state := {
  createTimer : option positive;
  lastCreateTime : Z;
  now : Z;                               (* Date.now() *)
  document : forest;
  localStorage : gmap string json;
  timers : list timer;                   (* pending setTimeout calls *)
  nextTimerId : positive;
  frames : list frameCallback;           (* pending requestAnimationFrame calls *)
  console : list logEntry
}.

Definition setCreateTimer (v : option positive) (s : state) : state :=
  {| createTimer := v; lastCreateTime := lastCreateTime s; now := now s;
     document := document s; localStorage := localStorage s; timers := timers s;
     nextTimerId := nextTimerId s; frames := frames s; console := console s |}.

Definition setLastCreateTime (v : Z) (s : state) : state :=
  {| createTimer := createTimer s; lastCreateTime := v; now := now s;
     document := document s; localStorage := localStorage s; timers := timers s;
     nextTimerId := nextTimerId s; frames := frames s; console := console s |}.

Definition setNow (v : Z) (s : state) : state :=
  {| createTimer := createTimer s; lastCreateTime := lastCreateTime s; now := v;
     document := document s; localStorage := localStorage s; timers := timers s;
     nextTimerId := nextTimerId s; frames := frames s; console := console s |}.

Definition setDocument (v : forest) (s : state) : state :=
  {| createTimer := createTimer s; lastCreateTime := lastCreateTime s; now := now s;
     document := v; localStorage := localStorage s; timers := timers s;
     nextTimerId := nextTimerId s; frames := frames s; console := console s |}.

Definition setTimers (v : list timer) (s : state) : state :=
  {| createTimer := createTimer s; lastCreateTime := lastCreateTime s; now := now s;
     document := document s; localStorage := localStorage s; timers := v;
     nextTimerId := nextTimerId s; frames := frames s; console := console s |}.

Definition log (e : logEntry) (s : state) : state :=
  {| createTimer := createTimer s; lastCreateTime := lastCreateTime s; now := now s;
     document := document s; localStorage := localStorage s; timers := timers s;
     nextTimerId := nextTimerId s; frames := frames s; console := console s ++ [e] |}.

Definition requestAnimationFrame (f : frameCallback) (s : state) : state :=
  {| createTimer := createTimer s; lastCreateTime := lastCreateTime s; now := now s;
     document := document s; localStorage := localStorage s; timers := timers s;
     nextTimerId := nextTimerId s; frames := frames s ++ [f]; console := console s |}.

(** [setTimeout(cb, delay)]: returns the new timer's id. *)
Definition setTimeout (cb : callback) (delay : Z) (s : state) : positive * state :=
  let id := nextTimerId s in
  (id,
   {| createTimer := createTimer s; lastCreateTime := lastCreateTime s; now := now s;
      document := document s; localStorage := localStorage s;
      timers := timers s ++ [{| t_id := id; t_due := now s + delay; t_cb := cb |}];
      nextTimerId := Pos.succ id; frames := frames s; console := console s |}).

(** [clearTimeout(id)] *)
Definition clearTimeout (id : positive) (s : state) : state :=
  setTimers (List.filter (fun tm => negb (t_id tm =? id)%positive) (timers s)) s.

(** [removeExistingTOC()] *)
Definition removeExistingTOC (doc : forest) : forest :=
  match getElementById doc CONSTANTS.TOC_CONTAINER with
  | Some existingTOC => removeAt (e_path existingTOC) doc
  | None => doc
  end.

(** [createTOC()] *)
Definition createTOC (config : siteConfig) (s : state) : state :=
  if now s - lastCreateTime s <? 1000 then log LogSkipping s
  else
    let s1 := setLastCreateTime (now s) s in
    let doc1 := removeExistingTOC (document s1) in
    let s2 := setDocument doc1 s1 in
    let questions := getQueries config doc1 in
    match questions with
    | [] => log LogNoQuestions s2
    | _ :: _ =>
        let '(built, doc2) := buildTOCStructure config (map ItemQuery questions) doc1 in
        let tocContainer := setupTOCFunctionality config (localStorage s2) built in
        let s3 := requestAnimationFrame ApplyInitialPosition s2 in
        log (LogCreated (length questions)) (setDocument (doc2 ++ [tocContainer]) s3)
    end.

(** [debouncedCreateTOC()] *)
Definition debouncedCreateTOC (s : state) : state :=
  let s1 :=
    match createTimer s with
    | Some id => clearTimeout id s
    | None => s
    end in
  let '(id, s2) := setTimeout CreateTOC 300 s1 in
  setCreateTimer (Some id) s2.

(** [delayedCreateTOC()] *)
Definition delayedCreateTOC (config : siteConfig) (s : state) : state :=
  (setTimeout InitialCreate (pageLoad config) s).2.

Definition runCallback (config : siteConfig) (cb : callback) (s : state) : state :=
  match cb with
  | CreateTOC => createTOC config s
  | InitialCreate => createTOC config (log LogInitial s)
  end.

(** *** The event loop *)

(** The pending timer that fires next: the least due time, the earlier
    [setTimeout] call first among equals. *)
Fixpoint nextTimer (l : list timer) : option timer :=
  match l with
  | [] => None
  | tm :: r =>
      match nextTimer r with
      | Some tm' => if t_due tm' <? t_due tm then Some tm' else Some tm
      | None => Some tm
      end
  end.

(** A timer fires at its due time. *)
Definition fire (config : siteConfig) (tm : timer) (s : state) : state :=
  runCallback config (t_cb tm) (setNow (Z.max (now s) (t_due tm)) (clearTimeout (t_id tm) s)).

(** Fire, in order, the timers due up to [t]. *)
Fixpoint runTimers (fuel : nat) (config : siteConfig) (t : Z) (s : state) : state :=
  match fuel with
  | O => s
  | S fuel' =>
      match nextTimer (timers s) with
      | Some tm => if t_due tm <=? t then runTimers fuel' config t (fire config tm s) else s
      | None => s
      end
  end.

(** Time passes until [t]; no callback of this model schedules a timer, so
    the number of pending timers bounds the number that fire. *)
Definition advanceTo (config : siteConfig) (t : Z) (s : state) : state :=
  setNow (Z.max (now s) t) (runTimers (length (timers s)) config t s).

(** The monitor asks for a rebuild at time [t]. *)
Definition requestAt (config : siteConfig) (t : Z) (s : state) : state :=
  debouncedCreateTOC (advanceTo config t s).

(** The fields the constructor sets, on a page [doc] at time [t]. *)
Definition constructed (doc : forest) (t : Z) : state :=
  {| createTimer := None; lastCreateTime := 0; now := t; document := doc;
     localStorage := ∅; timers := []; nextTimerId := 1%positive; frames := [];
     console := [] |}.

(** A burst of monitor requests at the given times. *)
Definition requestsAt (config : siteConfig) (ts : list Z) (s : state) : state :=
  fold_left (fun st t => requestAt config t st) ts s.

(** Reading the console: every call of [createTOC] writes one entry; it
    ran the rebuild unless the entry is the skipping one. *)
Definition isInvocation (e : logEntry) : bool :=
  match e with
  | LogInitial => false
  | _ => true
  end.

Definition isExecution (e : logEntry) : bool :=
  match e with
  | LogNoQuestions | LogCreated _ => true
  | _ => false
  end.

Definition invocations (s : state) : nat := length (List.filter isInvocation (console s)).
Definition executions (s : state) : nat := length (List.filter isExecution (console s)).

(** Requests that follow each other within the debounce window: each one
    comes before the timer of the previous one is due. *)
Fixpoint withinWindow (t : Z) (ts : list Z) : Prop :=
  match ts with
  | [] => True
  | t' :: r => t <= t' < t + 300 /\ withinWindow t' r
  end.

(** The debounce timer set by a request at time [t] is the one pending
    timer. *)
Definition armed (s : state) (t : Z) : Prop :=
  exists id,
    timers s = [{| t_id := id; t_due := t + 300; t_cb := CreateTOC |}] /\
    createTimer s = Some id /\ now s = t.

(** *** Exports *)

(** [`${i + 1}. ${...}`] *)
Definition numbered (i : nat) (q : item) : string :=
  JS.ofNat (i + 1) +:+ ". " +:+ questionText q.

(** The text handed to [copyToClipboard] by [exportAsText]. *)
Definition exportAsText (questions : list item) : string :=
  JS.join nl (imap numbered questions).

(** What [new Date()] renders to at the time of the export. *)
Record date := { toLocaleDateString : string; toISOString : string }.

(** The [forEach] of the Markdown exports: [md += `${i + 1}. ${...}\n`]. *)
Definition appendLines (md : string) (questions : list item) : string :=
  fold_left (fun acc line => acc +:+ line +:+ nl) (imap numbered questions) md.

(** The text handed to [copyToClipboard] by [exportAsMarkdown]. *)
Definition exportAsMarkdown (config : siteConfig) (today : date) (questions : list item) : string :=
  let siteName := name config in
  let date := toLocaleDateString today in
  let md := "# " +:+ siteName +:+ " Conversation Summary" +:+ nl in
  let md := md +:+ "_Exported on " +:+ date +:+ "_" +:+ nl +:+ nl in
  let md := md +:+ "## Queries (" +:+ JS.ofNat (length questions) +:+ ")" +:+ nl +:+ nl in
  appendLines md questions.

Record download := { content : string; filename : string; mimeType : string }.

(** [downloadAsFile(questions, format)]: the blob content, the file name and
    the MIME type. *)
Definition downloadAsFile (config : siteConfig) (today : date) (questions : list item)
    (format : string) : download :=
  let siteName := name config in
  let date := JS.splitHead "T"%char (toISOString today) in
  if bool_decide (format = "md") then
    let content := "# " +:+ siteName +:+ " Conversation Summary" +:+ nl in
    let content := content +:+ "_Exported on " +:+ date +:+ "_" +:+ nl +:+ nl in
    let content :=
      content +:+ "## Queries (" +:+ JS.ofNat (length questions) +:+ ")" +:+ nl +:+ nl in
    {| content := appendLines content questions;
       filename := JS.toLowerCase siteName +:+ "-queries-" +:+ date +:+ ".md";
       mimeType := "text/markdown" |}
  else
    {| content := JS.join nl (imap numbered questions);
       filename := JS.toLowerCase siteName +:+ "-queries-" +:+ date +:+ ".txt";
       mimeType := "text/plain" |}.

(** The Markdown document as the export format describes it: header,
    subline with a date, blank line, query count, blank line, then one
    numbered line per query; every line ends with a newline. *)
Definition unlines (ls : list string) : string :=
  fold_right (fun l acc => l +:+ nl +:+ acc) EmptyString ls.

Definition markdownDocument (siteName dateText : string) (texts : list string) : string :=
  unlines
    ([ "# " +:+ siteName +:+ " Conversation Summary";
       "_Exported on " +:+ dateText +:+ "_";
       EmptyString;
       "## Queries (" +:+ JS.ofNat (length texts) +:+ ")";
       EmptyString ]
     ++ imap (fun i t => JS.ofNat (i + 1) +:+ ". " +:+ t) texts).

End UI.

(** ** Proof automation *)

(** Decide the comparisons of string constants left in the goal. *)
Ltac decide_constants :=
  repeat match goal with
  | |- context [bool_decide (?a = ?b)] =>
      let r := eval vm_compute in (bool_decide (a = b)) in
      match r with
      | true => idtac
      | false => idtac
      end;
      change (bool_decide (a = b)) with r
  end.


(** * Further parts of the UI module and of the adapters *)

(** ** DragManager: the gesture handlers *)

Module DragEvents.
Import DragManager.

(** [e.clientX], [e.clientY] and whether [e.target] lies in the toggle
    button ([e.target.closest("#toc-toggle-btn")]). *)
Record mouseEvent := { clientX : Z; clientY : Z; onToggleBtn : bool }.

(** A touch event: the client coordinates of [e.touches] and where the
    target lies. *)
Record touchEvent := {
  touches : list (Z * Z);
  touchOnToggleBtn : bool;
  touchOnExportBtn : bool
}.

(** The fields of the DragManager object.  [mouseListening] and
    [touchListening] tell whether the document-level move and release
    listeners are attached, [dragStyles] whether [applyDragStyles] is in
    effect. *)
Record manager := {
  isDragging : bool;
  hasMoved : bool;
  isClickOnToggle : bool;
  startX : Z;
  startY : Z;
  startElementX : Z;
  startElementY : Z;
  mouseListening : bool;
  touchListening : bool;
  dragStyles : bool
}.

(** The object after its constructor. *)
Definition constructed : manager :=
  {| isDragging := false; hasMoved := false; isClickOnToggle := false;
     startX := 0; startY := 0; startElementX := 0; startElementY := 0;
     mouseListening := false; touchListening := false; dragStyles := false |}.

(** The manager, its element and [localStorage]. *)
Record world := { mgr : manager; el : panel; storage : gmap string json }.

Definition offsetWidth (css : layout) (p : panel) : Z := boxWidth css (isCollapsed p).

Section Handlers.
Variable css : layout.
Variable win : viewport.
Variable storageKey : string.

Definition collapseOrExpand (isExpanding : bool) (w : world) : world :=
  let '(p, ls) := toggleCollapse css win storageKey isExpanding (el w, storage w) in
  {| mgr := mgr w; el := p; storage := ls |}.

(** The common part of [startDrag] and [touchStart] once the gesture is
    accepted as a drag. *)
Definition beginDrag (isToggleBtn : bool) (x y : Z) (mouse : bool) (w : world) : world :=
  let rect := getBoundingClientRect css (el w) in
  let m := mgr w in
  {| mgr := {| isDragging := true; hasMoved := false; isClickOnToggle := isToggleBtn;
               startX := x; startY := y;
               startElementX := r_left rect; startElementY := r_top rect;
               mouseListening := if mouse then true else mouseListening m;
               touchListening := if mouse then touchListening m else true;
               dragStyles := true |};
     el := applyPosition (r_left rect) (r_top rect) (el w);
     storage := storage w |}.

(** [startDrag(e)] *)
Definition startDrag (e : mouseEvent) (w : world) : world :=
  let isToggleBtn := onToggleBtn e in
  if isToggleBtn && negb (isCollapsed (el w)) then collapseOrExpand false w
  else beginDrag isToggleBtn (clientX e) (clientY e) true w.

(** The common part of [drag] and [touchDrag]: the pointer is at (x, y),
    [threshold] is 3 for the mouse and 5 for a touch. *)
Definition moveTo (threshold : Z) (x y : Z) (w : world) : world :=
  let m := mgr w in
  let deltaX := x - startX m in
  let deltaY := y - startY m in
  if negb (hasMoved m) && (Z.abs deltaX <? threshold) && (Z.abs deltaY <? threshold) then w
  else
    let newX := startElementX m + deltaX in
    let newY := startElementY m + deltaY in
    let constrained :=
      PositionManager.constrainToViewport win newX newY
        (offsetWidth css (el w)) (offsetHeight css (el w)) in
    {| mgr := {| isDragging := isDragging m; hasMoved := true;
                 isClickOnToggle := isClickOnToggle m;
                 startX := startX m; startY := startY m;
                 startElementX := startElementX m; startElementY := startElementY m;
                 mouseListening := mouseListening m; touchListening := touchListening m;
                 dragStyles := dragStyles m |};
       el := applyPosition (px constrained) (py constrained) (el w);
       storage := storage w |}.

(** [drag(e)] *)
Definition drag (e : mouseEvent) (w : world) : world :=
  if negb (isDragging (mgr w)) then w else moveTo 3 (clientX e) (clientY e) w.

(** The common part of [stopDrag] and [touchEnd]. *)
Definition endDrag (mouse : bool) (w : world) : world :=
  let m := mgr w in
  let rect := getBoundingClientRect css (el w) in
  let saved := PositionManager.savePosition storageKey (r_left rect) (r_top rect) (storage w) in
  let '(p, ls) :=
    if negb (hasMoved m) && isClickOnToggle m
    then toggleCollapse css win storageKey true (el w, saved)
    else (el w, saved) in
  {| mgr := {| isDragging := false; hasMoved := hasMoved m;
               isClickOnToggle := isClickOnToggle m;
               startX := startX m; startY := startY m;
               startElementX := startElementX m; startElementY := startElementY m;
               mouseListening := if mouse then false else mouseListening m;
               touchListening := if mouse then touchListening m else false;
               dragStyles := false |};
     el := p; storage := ls |}.

(** [stopDrag(e)] *)
Definition stopDrag (w : world) : world :=
  if negb (isDragging (mgr w)) then w else endDrag true w.

(** [touchStart(e)] *)
Definition touchStart (e : touchEvent) (w : world) : world :=
  let isToggleBtn := touchOnToggleBtn e in
  if touchOnExportBtn e then w
  else if isToggleBtn && negb (isCollapsed (el w)) then collapseOrExpand false w
  else
    match touches e with
    | [touch] => beginDrag isToggleBtn touch.1 touch.2 false w
    | _ => w
    end.

(** [touchDrag(e)] *)
Definition touchDrag (e : touchEvent) (w : world) : world :=
  if negb (isDragging (mgr w)) then w
  else
    match touches e with
    | [touch] => moveTo 5 touch.1 touch.2 w
    | _ => w
    end.

(** [touchEnd(e)] *)
Definition touchEnd (w : world) : world :=
  if negb (isDragging (mgr w)) then w else endDrag false w.

(** What the browser delivers: presses on the panel header, and moves and
    releases anywhere, which reach the manager through the document
    listeners while these are attached. *)
Inductive event :=
| MouseDown (e : mouseEvent)
| MouseMove (e : mouseEvent)
| MouseUp
| TouchStart (e : touchEvent)
| TouchMove (e : touchEvent)
| TouchEnd.

Definition dispatch (w : world) (ev : event) : world :=
  match ev with
  | MouseDown e => startDrag e w
  | MouseMove e => if mouseListening (mgr w) then drag e w else w
  | MouseUp => if mouseListening (mgr w) then stopDrag w else w
  | TouchStart e => touchStart e w
  | TouchMove e => if touchListening (mgr w) then touchDrag e w else w
  | TouchEnd => if touchListening (mgr w) then touchEnd w else w
  end.

Definition gesture (evs : list event) (w : world) : world := fold_left dispatch evs w.

End Handlers.

(** The pointer at (x, y) is at least [threshold] away, in one of the two
    directions, from where the press was. *)
Definition overThreshold (threshold : Z) (m : manager) (x y : Z) : bool :=
  negb ((Z.abs (x - startX m) <? threshold) && (Z.abs (y - startY m) <? threshold)).

Definition withHasMoved (b : bool) (m : manager) : manager :=
  {| isDragging := isDragging m; hasMoved := b; isClickOnToggle := isClickOnToggle m;
     startX := startX m; startY := startY m;
     startElementX := startElementX m; startElementY := startElementY m;
     mouseListening := mouseListening m; touchListening := touchListening m;
     dragStyles := dragStyles m |}.

(** Where the element is put when the pointer is at (x, y). *)
Definition followed (css : layout) (win : viewport) (m : manager) (p : panel) (x y : Z) : point :=
  PositionManager.constrainToViewport win
    (startElementX m + (x - startX m)) (startElementY m + (y - startY m))
    (offsetWidth css p) (offsetHeight css p).

(** A touch event with one finger at [pt], targeting neither button. *)
Definition oneFinger (pt : Z * Z) : touchEvent :=
  {| touches := [pt]; touchOnToggleBtn := false; touchOnExportBtn := false |}.

(** The element lies inside the padded viewport. *)
Definition insideViewport (css : layout) (win : viewport) (p : panel) : Prop :=
  CONSTANTS.PADDING <= left p <= innerWidth win - offsetWidth css p - CONSTANTS.PADDING /\
  CONSTANTS.PADDING <= top p <= innerHeight win - offsetHeight css p - CONSTANTS.PADDING.

(** The element leaves room for the padding on both sides. *)
Definition fitsViewport (css : layout) (win : viewport) (p : panel) : Prop :=
  offsetWidth css p < innerWidth win - 2 * CONSTANTS.PADDING /\
  offsetHeight css p < innerHeight win - 2 * CONSTANTS.PADDING.

End DragEvents.

(** ** UI: placing the panel *)

Module Placement.
Import DragManager.

Section Placing.
Variable css : layout.
Variable win : viewport.
Variable storageKey : string.

(** [handleWindowResize()]; [tocContainer] is what
    [document.getElementById] finds. *)
Definition handleWindowResize (tocContainer : option panel) (localStorage : gmap string json)
    : option panel * gmap string json :=
  match tocContainer with
  | None => (None, localStorage)
  | Some p =>
      let rect := getBoundingClientRect css p in
      let constrained :=
        PositionManager.constrainToViewport win (r_left rect) (r_top rect)
          (DragEvents.offsetWidth css p) (offsetHeight css p) in
      if negb (px constrained =? r_left rect) || negb (py constrained =? r_top rect)
      then (Some (applyPosition (px constrained) (py constrained) p),
            PositionManager.savePosition storageKey (px constrained) (py constrained)
              localStorage)
      else (Some p, localStorage)
  end.

(** [x || d] on a number. *)
Definition orDefault (x d : Z) : Z := if x =? 0 then d else x.

(** The animation-frame callback of [applyInitialPosition(tocContainer)].
    A stored [true] under the position key has no [x] and [y]; the model
    has no value for the resulting NaN and gives [None] there. *)
Definition applyInitialPosition (p : panel) (localStorage : gmap string json)
    : option (panel * gmap string json) :=
  let savedPosition := PositionManager.getSavedPosition storageKey localStorage in
  let width := orDefault (DragEvents.offsetWidth css p) 300 in
  let height := orDefault (offsetHeight css p) 400 in
  let place (x y : Z) :=
    Some (applyPosition x y p, PositionManager.savePosition storageKey x y localStorage) in
  match savedPosition with
  | Some (JPoint sx sy) =>
      let constrained := PositionManager.constrainToViewport win sx sy width height in
      place (px constrained) (py constrained)
  | Some (JBool true) => None
  | Some (JBool false) | None => place (innerWidth win - width - 40) 60
  end.

End Placing.
End Placement.

(** ** SearchManager *)

Module SearchManager.
Import DOM.

(** The elements of a subtree, the root first, in document order. *)
Fixpoint elementsOf (n : node) : list node :=
  match n with
  | Text _ => []
  | Elem _ _ cs =>
      n :: (fix go (l : list node) : list node :=
              match l with
              | [] => []
              | c :: r => elementsOf c ++ go r
              end) cs
  end.

(** [item.querySelector(tag)]: the first descendant with that tag. *)
Definition querySelectorTag (t : string) (item : node) : option node :=
  head (List.filter (fun d => bool_decide (tagName d = t))
          (flat_map elementsOf (childNodes item))).

(** A tracked row: the [<li>] and its [style.display], if set. *)
Record row := { li : node; display : option string }.

(** The manager with its input box ([value], focus) and its clear button
    ([style.display]). *)
Record state := {
  value : string;
  allListItems : list row;
  clearDisplay : option string;
  focused : bool
}.

(** [new SearchManager(searchInput, searchClear)] on a fresh input. *)
Definition constructed : state :=
  {| value := EmptyString; allListItems := []; clearDisplay := None; focused := false |}.

(** [addListItems(items)] *)
Definition addListItems (items : list node) (s : state) : state :=
  {| value := value s;
     allListItems := allListItems s ++ map (fun n => {| li := n; display := None |}) items;
     clearDisplay := clearDisplay s; focused := focused s |}.

(** The [forEach] of [updateSearchResults].  A row without a link makes
    [item.querySelector("a").textContent] throw: the loop stops there and
    the flag is [false]. *)
Fixpoint showMatching (searchTerm : string) (items : list row) : list row * bool :=
  match items with
  | [] => ([], true)
  | item :: rest =>
      match querySelectorTag "a" (li item) with
      | None => (item :: rest, false)
      | Some a =>
          let text := JS.toLowerCase (textContent a) in
          let shouldShow := bool_decide (searchTerm = EmptyString) || includes searchTerm text in
          let '(rest', ok) := showMatching searchTerm rest in
          ({| li := li item; display := Some (if shouldShow then "block" else "none") |}
           :: rest', ok)
      end
  end.

(** [updateSearchResults()] *)
Definition updateSearchResults (s : state) : state * bool :=
  let searchTerm := JS.trim (JS.toLowerCase (value s)) in
  let '(items, ok) := showMatching searchTerm (allListItems s) in
  ({| value := value s; allListItems := items; clearDisplay := clearDisplay s;
      focused := focused s |}, ok).

(** [updateClearButtonVisibility()] *)
Definition updateClearButtonVisibility (s : state) : state :=
  {| value := value s; allListItems := allListItems s;
     clearDisplay := Some (if JS.truthy (value s) then "flex" else "none");
     focused := focused s |}.

(** [handleSearchInput()]; an exception in the first call leaves the second
    undone. *)
Definition handleSearchInput (s : state) : state * bool :=
  let '(s1, ok) := updateSearchResults s in
  if ok then (updateClearButtonVisibility s1, true) else (s1, false).

(** The user edits the box to hold [v]: the [input] event. *)
Definition input (v : string) (s : state) : state * bool :=
  handleSearchInput
    {| value := v; allListItems := allListItems s; clearDisplay := clearDisplay s;
       focused := focused s |}.

(** [clearSearch()] *)
Definition clearSearch (s : state) : state * bool :=
  let s0 := {| value := EmptyString; allListItems := allListItems s;
               clearDisplay := clearDisplay s; focused := focused s |} in
  let '(s1, ok) := updateSearchResults s0 in
  if ok then
    let s2 := updateClearButtonVisibility s1 in
    ({| value := value s2; allListItems := allListItems s2; clearDisplay := clearDisplay s2;
        focused := true |}, true)
  else (s1, false).

(** [reset()] *)
Definition reset (s : state) : state :=
  {| value := value s; allListItems := []; clearDisplay := clearDisplay s;
     focused := focused s |}.

(** [setupSearchFunctionality(tocContainer)]: a new manager over the
    [<li>] elements of the panel. *)
Definition setup (tocContainer : node) : state :=
  addListItems
    (List.filter (fun d => bool_decide (tagName d = "li"))
       (flat_map elementsOf (childNodes tocContainer)))
    constructed.

(** The term occurs in the text. *)
Definition occursIn (term s : string) : Prop := exists a b, s = a +:+ term +:+ b.

End SearchManager.

(** What [updateSearchResults] decides for the displayed text of a row. *)
Definition shown (term text : string) : Prop :=
  term = EmptyString \/ SearchManager.occursIn term (JS.toLowerCase text).

(** The row has a link. *)
Definition hasLink (r : SearchManager.row) : bool :=
  bool_decide (SearchManager.querySelectorTag "a" (SearchManager.li r) <> None).

(** ** The listeners of the UI object *)

Module Session.
Import DOM UI.

(** [handleDocumentClick(event)]; [onSendButton] says whether
    [event.target.closest(sendButton)] finds an element.  Every site
    configuration names a send button and a prompt input. *)
Definition handleDocumentClick (config : siteConfig) (onSendButton : bool) (s : state) : state :=
  if onSendButton then (setTimeout CreateTOC (promptSubmission config) s).2 else s.

(** [handleKeyDown(event)]; [inPrompt] says whether
    [document.activeElement.matches(promptInput)]. *)
Definition handleKeyDown (config : siteConfig) (key : string) (inPrompt : bool) (s : state)
    : state :=
  if bool_decide (key = "Enter") && inPrompt
  then (setTimeout CreateTOC (promptSubmission config) s).2
  else s.

(** What happens to the UI object after its construction. *)
Inductive event :=
| Load                                     (* window "load" or "pageshow" *)
| Update                                   (* the monitor calls onUpdate *)
| Click (onSendButton : bool)              (* document "click" *)
| KeyDown (key : string) (inPrompt : bool) (* document "keydown" *)
| PageChange (doc : forest)                (* the host page rewrites the document *)
| Tick (t : Z).                            (* time passes until [t] *)

Definition step (config : siteConfig) (s : state) (ev : event) : state :=
  match ev with
  | Load => delayedCreateTOC config s
  | Update => debouncedCreateTOC s
  | Click onSendButton => handleDocumentClick config onSendButton s
  | KeyDown key inPrompt => handleKeyDown config key inPrompt s
  | PageChange doc => setDocument doc s
  | Tick t => advanceTo config t s
  end.

Definition run (config : siteConfig) (evs : list event) (s : state) : state :=
  fold_left (step config) evs s.

(** [init()], after the constructor's assignments: the listeners and the
    monitor are installed and the first rebuild is scheduled. *)
Definition init (config : siteConfig) (doc : forest) (t : Z) : state :=
  delayedCreateTOC config (constructed doc t).

(** The host page does not itself hold more than one element with the
    panel's id. *)
Definition pageKeepsOnePanel (ev : event) : Prop :=
  match ev with
  | PageChange doc => (length (panels doc) <= 1)%nat
  | _ => True
  end.

End Session.

(** ** The layout of the exports *)

(** The three header lines of the Markdown exports, with the blank lines
    after them. *)
Definition markdownHeader (siteName dateText : string) (count : nat) : string :=
  "# " +:+ siteName +:+ " Conversation Summary" +:+ UI.nl
  +:+ "_Exported on " +:+ dateText +:+ "_" +:+ UI.nl +:+ UI.nl
  +:+ "## Queries (" +:+ JS.ofNat count +:+ ")" +:+ UI.nl +:+ UI.nl.

(** From [s] to [s'] every rebuild has moved the time of the last rebuild
    by at least the cooldown, that time is not in the future, and the clock
    has not gone back. *)
Definition paced (s s' : UI.state) : Prop :=
  1000 * (Z.of_nat (UI.executions s') - Z.of_nat (UI.executions s))
    <= UI.lastCreateTime s' - UI.lastCreateTime s /\
  UI.lastCreateTime s' <= UI.now s' /\
  UI.now s <= UI.now s'.

(** ** Performance utilities ([TOC_PERF] in main.js) *)

Module TOC_PERF.

(** The closure of [throttle(func, limit)]: the flag and the time at which
    the pending [setTimeout(() => inThrottle = false, limit)] is due. *)
Record throttled := { inThrottle : bool; resetDue : option Z }.

Definition fresh : throttled := {| inThrottle := false; resetDue := None |}.

(** Time passes until [t]: a reset timer that is due fires. *)
Definition elapse (t : Z) (th : throttled) : throttled :=
  match resetDue th with
  | Some due => if due <=? t then {| inThrottle := false; resetDue := None |} else th
  | None => th
  end.

(** The wrapper is called at time [t]; the flag says whether [func] ran. *)
Definition call (limit t : Z) (th : throttled) : throttled * bool :=
  let th := elapse t th in
  if inThrottle th then (th, false)
  else ({| inThrottle := true; resetDue := Some (t + limit) |}, true).

(** The times, among the call times [ts], at which [func] ran. *)
Fixpoint runs (limit : Z) (ts : list Z) (th : throttled) : list Z :=
  match ts with
  | [] => []
  | t :: rest =>
      let '(th', ran) := call limit t th in
      if ran then t :: runs limit rest th' else runs limit rest th'
  end.

(** [isTabVisible()] *)
Definition isTabVisible (hidden : bool) : bool := negb hidden.

End TOC_PERF.

(** Call times in the order of the calls. *)
Fixpoint ascending (ts : list Z) : Prop :=
  match ts with
  | [] => True
  | t :: rest => Forall (fun t' => t <= t') rest /\ ascending rest
  end.

(** Each time is at least [gap] after the one before. *)
Fixpoint spaced (gap : Z) (ts : list Z) : Prop :=
  match ts with
  | [] => True
  | t :: rest =>
      match rest with
      | [] => True
      | t' :: _ => t + gap <= t'
      end /\ spaced gap rest
  end.

(** ** The monitors of the site adapters ([setupMonitor] in main.js) *)

Module Monitor.
Import DOM UI.

(** [lastUrl] and [lastQueryCount] of an adapter. *)
Record counters := { lastUrl : string; lastQueryCount : nat }.

(** The first assignments of [setupMonitor]. *)
Definition setup (href : string) : counters := {| lastUrl := href; lastQueryCount := 0 |}.

Definition setLastQueryCount (n : nat) (m : counters) : counters :=
  {| lastUrl := lastUrl m; lastQueryCount := n |}.

(** The URL check that runs under the throttle; the flag says whether it
    called [setTimeout(onUpdate, chatChange)]. *)
Definition urlCheck (hidden : bool) (href : string) (m : counters) : counters * bool :=
  if negb (TOC_PERF.isTabVisible hidden) then (m, false)
  else if negb (bool_decide (href = lastUrl m))
       then ({| lastUrl := href; lastQueryCount := 0 |}, true)
       else (m, false).

(** The [popstate] listener of the ChatGPT adapter. *)
Definition popstate (m : counters) : counters * bool := (setLastQueryCount 0 m, true).

(** [document.getElementById("toc-extension")] as a condition. *)
Definition tocExists (s : state) : bool :=
  match getElementById (document s) "toc-extension" with
  | Some _ => true
  | None => false
  end.

(** The callback that the UI hands to [setupMonitor]. *)
Definition onUpdate (s : state) : state := debouncedCreateTOC s.

(** The periodic checks ([setInterval]) of the four adapters. *)
Definition chatgptCheck (hidden : bool) (m : counters) (s : state) : counters * state :=
  if negb (TOC_PERF.isTabVisible hidden) then (m, s)
  else
    let tocExists := tocExists s in
    let currentQueries := length (SITES.chatgpt.getQueries (document s)) in
    let s1 := if negb tocExists && (0 <? currentQueries)%nat then onUpdate s else s in
    if tocExists && negb (currentQueries =? lastQueryCount m)%nat && (0 <? currentQueries)%nat
    then (setLastQueryCount currentQueries m, onUpdate s1)
    else (m, s1).

Definition geminiCheck (hidden : bool) (m : counters) (s : state) : counters * state :=
  if negb (TOC_PERF.isTabVisible hidden) then (m, s)
  else
    let tocExists := tocExists s in
    let currentQueries := length (SITES.gemini.getQueries (document s)) in
    if negb tocExists && (0 <? currentQueries)%nat
    then (setLastQueryCount currentQueries m, onUpdate s)
    else if negb (currentQueries =? lastQueryCount m)%nat
    then
      let m1 := setLastQueryCount currentQueries m in
      if (0 <? currentQueries)%nat then (m1, onUpdate s)
      else
        match getElementById (document s) "toc-extension" with
        | Some toc => (m1, setDocument (removeAt (e_path toc) (document s)) s)
        | None => (m1, s)
        end
    else (m, s).

Definition perplexityCheck (hidden : bool) (m : counters) (s : state) : counters * state :=
  if negb (TOC_PERF.isTabVisible hidden) then (m, s)
  else
    let tocExists := tocExists s in
    let currentQueries := length (SITES.perplexity.getQueries (document s)) in
    let s1 := if negb tocExists && (1 <? currentQueries)%nat then onUpdate s else s in
    if negb (currentQueries =? lastQueryCount m)%nat && (1 <? currentQueries)%nat
    then (setLastQueryCount currentQueries m, onUpdate s1)
    else (m, s1).

Definition claudeCheck (hidden : bool) (m : counters) (s : state) : counters * state :=
  if negb (TOC_PERF.isTabVisible hidden) then (m, s)
  else
    let tocExists := tocExists s in
    let currentQueries := length (SITES.claude.getQueries (document s)) in
    if negb tocExists && (0 <? currentQueries)%nat
    then (setLastQueryCount currentQueries m, onUpdate s)
    else if negb (currentQueries =? lastQueryCount m)%nat && (0 <? currentQueries)%nat
    then (setLastQueryCount currentQueries m, onUpdate s)
    else (m, s).

(** The four adapters with their configuration and periodic check. *)
Inductive site := ChatGPT | Gemini | Perplexity | Claude.

Definition config (st : site) : siteConfig :=
  match st with
  | ChatGPT => chatgptConfig
  | Gemini => geminiConfig
  | Perplexity => perplexityConfig
  | Claude => claudeConfig
  end.

Definition periodicCheck (st : site) : bool -> counters -> state -> counters * state :=
  match st with
  | ChatGPT => chatgptCheck
  | Gemini => geminiCheck
  | Perplexity => perplexityCheck
  | Claude => claudeCheck
  end.

(** The number of queries a conversation must exceed before the periodic
    check asks for a panel. *)
Definition threshold (st : site) : nat :=
  match st with
  | Perplexity => 1
  | _ => 0
  end.

Definition queryCount (st : site) (s : state) : nat :=
  length (getQueries (config st) (document s)).

End Monitor.

(** ** The anchors of the rows *)

Module Anchors.
Import DOM UI.

(** The click handler of the link of row [index]: the element that
    [document.getElementById(questionId)] finds, which is then scrolled
    into view. *)
Definition scrollTarget (doc : forest) (index : nat) : option Element :=
  getElementById doc (questionId index).

(** The place of the source element of an entry. *)
Definition itemPath (it : item) : option (list nat) := e_path <$> questionElement it.

(** The place and the id of an element. *)
Definition anchor (e : Element) : list nat * option string := (e_path e, e_attrs e !! "id").

(** The id [v] written to the element at [p]. *)
Definition reanchor (p : list nat) (v : string) (a : list nat * option string)
    : list nat * option string :=
  if bool_decide (a.1 = p) then (a.1, Some v) else a.

(** The ids written by [populateTOCList] from entry [index] on, as they
    reach one element. *)
Fixpoint stamp (index : nat) (questions : list item) (a : list nat * option string)
    : list nat * option string :=
  match questions with
  | [] => a
  | it :: rest =>
      stamp (S index) rest
        match itemPath it with
        | Some p => reanchor p (questionId index) a
        | None => a
        end
  end.

End Anchors.

(** What the extracted queries are to the page: elements of the page in
    document order, none of them twice, each with its trimmed text. *)
Definition fromPage (doc : DOM.forest) (queries : list query) : Prop :=
  sublist (map element queries) (DOM.elements doc) /\
  List.NoDup (map (fun q => DOM.e_path (element q)) queries) /\
  Forall (fun q => text q = JS.trim (DOM.elementText (element q))) queries.

(** ** The router (the closing function of main.js) *)

Module Router.

(** [SITES[key].host] *)
Definition host (st : Monitor.site) : string :=
  match st with
  | Monitor.ChatGPT => "chatgpt.com"
  | Monitor.Gemini => "gemini.google.com"
  | Monitor.Perplexity => "perplexity.ai"
  | Monitor.Claude => "claude.ai"
  end.

(** The keys of [SITES], in the order of [for (const key in SITES)]. *)
Definition sites : list Monitor.site :=
  [Monitor.ChatGPT; Monitor.Gemini; Monitor.Perplexity; Monitor.Claude].

(** The loop with its [break]: the first adapter whose host occurs in
    [location.host]. *)
Fixpoint firstMatch (locationHost : string) (keys : list Monitor.site) : option Monitor.site :=
  match keys with
  | [] => None
  | key :: rest =>
      if DOM.includes (host key) locationHost then Some key
      else firstMatch locationHost rest
  end.

Definition activeAdapter (locationHost : string) : option Monitor.site :=
  firstMatch locationHost sites.

End Router.

(** * Properties *)

(** C1. For every input point and every viewport [W] x [H]: when the element
    leaves room for the padding on both sides ([w < W - 2*10], [h < H - 2*10])
    the constrained point lies in [[10, W-w-10]] x [[10, H-h-10]]; on an axis
    where the viewport is smaller than the element plus twice the padding the
    coordinate is pinned to the padding. *)
Theorem constrainToViewport_bounds (win : viewport) (x y w h : Z) :
  let p := PositionManager.constrainToViewport win x y w h in
  let W := innerWidth win in
  let H := innerHeight win in
  let padding := CONSTANTS.PADDING in
  (w < W - 2 * padding -> padding <= px p <= W - w - padding) /\
  (h < H - 2 * padding -> padding <= py p <= H - h - padding) /\
  (W < w + 2 * padding -> px p = padding) /\
  (H < h + 2 * padding -> py p = padding).
Proof.
  unfold PositionManager.constrainToViewport, CONSTANTS.PADDING; simpl.
  repeat split; lia.
Qed.

Lemma constrainToViewport_bounds_witness :
  (10 <= px (PositionManager.constrainToViewport
               {| innerWidth := 1280; innerHeight := 720 |} 5000 (-40) 300 400) <= 970) /\
  py (PositionManager.constrainToViewport
        {| innerWidth := 1280; innerHeight := 300 |} 5000 200 300 400) = 10.
Proof.
  split.
  - apply (constrainToViewport_bounds {| innerWidth := 1280; innerHeight := 720 |}
             5000 (-40) 300 400).
    vm_compute. reflexivity.
  - apply (constrainToViewport_bounds {| innerWidth := 1280; innerHeight := 300 |}
             5000 200 300 400).
    vm_compute. reflexivity.
Defined.

(** ** The string functions on small inputs *)

Example trim_example :
  JS.trim (String "009"%char "  sort a list " +:+ UI.nl) = "sort a list".
Proof. reflexivity. Qed.

Example replaceWs_example :
  JS.replaceWs ("a " +:+ UI.nl +:+ String "009"%char " b  c") = "a b c".
Proof. reflexivity. Qed.

Example toLowerCase_example : JS.toLowerCase "Hello, World" = "hello, world".
Proof. reflexivity. Qed.

Example join_example : JS.join " " ["a"; "b"; "c"] = "a b c".
Proof. reflexivity. Qed.

Example splitHead_example : JS.splitHead "T"%char "2026-11-02T09:30:00.000Z" = "2026-11-02".
Proof. reflexivity. Qed.

Example classTokens_example :
  DOM.classTokens {[ "class" := " flex  flex-col gap-1 pb-2" ]} = ["flex"; "flex-col"; "gap-1"; "pb-2"].
Proof. reflexivity. Qed.

Example shortText_example :
  UI.shortText "0123456789012345678901234567890123456789012345678901234567890123456789X"
  = "0123456789012345678901234567890123456789012345678901234567890123456...".
Proof. reflexivity. Qed.

(** ** Strings *)

Section StringFacts.
Import JS.

Lemma append_cons (c : ascii) (a b : string) : String c a +:+ b = String c (a +:+ b).
Proof. reflexivity. Qed.

Lemma append_nil_l (s : string) : EmptyString +:+ s = s.
Proof. reflexivity. Qed.

Lemma append_nil_r (s : string) : s +:+ EmptyString = s.
Proof. induction s as [|c s IH]; [reflexivity|]. by rewrite append_cons, IH. Qed.

Lemma append_assoc (a b c : string) : (a +:+ b) +:+ c = a +:+ (b +:+ c).
Proof. induction a as [|x a IH]; [reflexivity|]. by rewrite !append_cons, IH. Qed.

Lemma length_append (a b : string) :
  String.length (a +:+ b) = (String.length a + String.length b)%nat.
Proof.
  induction a as [|x a IH]; [reflexivity|].
  rewrite append_cons. simpl. by rewrite IH.
Qed.

Lemma length_substring0 (n : nat) (s : string) :
  String.length (substring0 n s) = Nat.min n (String.length s).
Proof.
  revert s; induction n as [|n IH]; intros [|c s]; simpl; try reflexivity.
  by rewrite IH.
Qed.

Lemma substring0_all (n : nat) (s : string) :
  (String.length s <= n)%nat -> substring0 n s = s.
Proof.
  revert s; induction n as [|n IH]; intros [|c s] H; simpl in *; try reflexivity; try lia.
  rewrite IH; [reflexivity | lia].
Qed.

End StringFacts.

(** ** The panel list *)

Section PanelList.
Import DOM UI.

Lemma populateFrom_cons (index : nat) (it : item) (rest : list item) (doc : forest) :
  populateFrom index (it :: rest) doc =
  (listItem index it :: (populateFrom (S index) rest (assignId index it doc)).1,
   (populateFrom (S index) rest (assignId index it doc)).2).
Proof.
  simpl. by destruct (populateFrom (S index) rest _) as [rows doc2].
Qed.

Lemma populateFrom_rows (questions : list item) (index : nat) (doc : forest) :
  (populateFrom index questions doc).1 = imap (fun k it => listItem (index + k) it) questions.
Proof.
  revert index doc; induction questions as [|it rest IH]; intros index doc; [reflexivity|].
  rewrite populateFrom_cons. cbn [fst imap]. rewrite Nat.add_0_r, IH. f_equal.
  apply imap_ext; intros k x _. simpl. f_equal. lia.
Qed.

Lemma populateFrom_length (questions : list item) (index : nat) (doc : forest) :
  length (populateFrom index questions doc).1 = length questions.
Proof. by rewrite populateFrom_rows, length_imap. Qed.

Lemma rowText_listItem (index : nat) (it : item) :
  rowText (listItem index it) = Some (shortText (questionText it)).
Proof.
  unfold rowText, rowLink, listItem, childrenByTag. cbn [childNodes List.filter tagName].
  rewrite bool_decide_eq_true_2 by reflexivity. cbn. by rewrite append_nil_r.
Qed.

Lemma rowTitle_listItem (index : nat) (it : item) :
  rowTitle (listItem index it) = Some (questionText it).
Proof.
  unfold rowTitle, rowLink, listItem, childrenByTag. cbn [childNodes List.filter tagName].
  rewrite bool_decide_eq_true_2 by reflexivity. cbn. by rewrite lookup_insert_eq.
Qed.

Lemma panelRows_build (config : siteConfig) (questions : list item) (doc : forest) :
  panelRows (buildTOCStructure config questions doc).1 = (populateTOCList questions doc).1.
Proof.
  unfold buildTOCStructure. destruct (populateTOCList questions doc) as [rows doc1].
  unfold panelRows, childrenByTag.
  cbn [fst childNodes List.filter tagName tocHeader searchContainer tocFooter].
  decide_constants. cbn. by rewrite app_nil_r.
Qed.

Lemma map_imap_const {A B C : Type} (f : nat -> A -> B) (g : B -> C) (h : A -> C) (l : list A) :
  (forall i x, g (f i x) = h x) -> map g (imap f l) = map h l.
Proof.
  intros H. revert f H; induction l as [|x l IH]; intros f H; [reflexivity|].
  simpl. rewrite H. f_equal. apply IH. intros i y; apply H.
Qed.

Lemma shortText_length (t : string) : (String.length (shortText t) <= 70)%nat.
Proof.
  unfold shortText, CONSTANTS.MAX_QUERY_LENGTH, CONSTANTS.TRUNCATE_SUFFIX.
  destruct (70 <? String.length t)%nat eqn:E.
  - rewrite length_append, length_substring0.
    change (String.length "...") with 3%nat. change (70 - 3)%nat with 67%nat. lia.
  - apply Nat.ltb_ge in E. exact E.
Qed.

End PanelList.

(** C10. Every row of the panel list shows the query text itself when it
    has at most 70 characters and otherwise its first 67 characters followed
    by "..."; the [title] of the row link always holds the full text.  The
    rows are those of the built panel, one per entry, in order. *)
Theorem row_text_truncation (config : siteConfig) (questions : list item) (doc : DOM.forest) :
  let rows := UI.panelRows (UI.buildTOCStructure config questions doc).1 in
  let displayed (t : string) :=
    if decide (String.length t <= 70)%nat then t else JS.substring0 67 t +:+ "..." in
  map UI.rowText rows = map (fun it => Some (displayed (UI.questionText it))) questions /\
  map UI.rowTitle rows = map (fun it => Some (UI.questionText it)) questions.
Proof.
  simpl. rewrite panelRows_build. unfold UI.populateTOCList. rewrite populateFrom_rows.
  split.
  - apply map_imap_const. intros i it. rewrite rowText_listItem. f_equal.
    unfold UI.shortText, CONSTANTS.MAX_QUERY_LENGTH, CONSTANTS.TRUNCATE_SUFFIX.
    destruct (decide (String.length (UI.questionText it) <= 70)%nat) as [H|H].
    + apply Nat.ltb_ge in H. simpl in *. by rewrite H.
    + apply Nat.nle_gt, Nat.ltb_lt in H. simpl in *. by rewrite H.
  - apply map_imap_const. intros i it. apply rowTitle_listItem.
Qed.

(** ** Exports *)

Section Exports.
Import UI.

Lemma fold_left_lines (ls : list string) (md : string) :
  fold_left (fun acc line => acc +:+ line +:+ nl) ls md = md +:+ unlines ls.
Proof.
  revert md; induction ls as [|l ls IH]; intros md; simpl.
  - by rewrite append_nil_r.
  - rewrite IH. by rewrite !append_assoc.
Qed.

Lemma numbered_texts (questions : list item) :
  imap numbered questions =
  imap (fun i t => JS.ofNat (i + 1) +:+ ". " +:+ t) (map questionText questions).
Proof. by rewrite imap_fmap. Qed.

Lemma markdown_layout (siteName dateText : string) (questions : list item) :
  appendLines
    ((("# " +:+ siteName +:+ " Conversation Summary" +:+ nl)
      +:+ "_Exported on " +:+ dateText +:+ "_" +:+ nl +:+ nl)
     +:+ "## Queries (" +:+ JS.ofNat (length questions) +:+ ")" +:+ nl +:+ nl)
    questions
  = markdownDocument siteName dateText (map questionText questions).
Proof.
  unfold appendLines, markdownDocument. rewrite fold_left_lines, numbered_texts.
  rewrite length_map. cbn [app unlines fold_right].
  rewrite !append_assoc, !append_nil_l. reflexivity.
Qed.

End Exports.

(** C9 (as the code has it).  The Markdown copy is the document
    "# {siteName} Conversation Summary", "_Exported on {date}_", blank line,
    "## Queries ({N})", blank line, then the lines "{i}. {text}" with i
    counting from 1, where the date is the locale date; the .md download is
    the same document with the ISO date (the part of the ISO time stamp
    before "T"), which is also the date of the file name
    "{siteNameLowercase}-queries-{isoDate}.{ext}", with ext "md" for the
    format "md" and "txt" otherwise. *)
Theorem markdown_exports (config : siteConfig) (today : UI.date) (questions : list item)
    (format : string) :
  let isoDate := JS.splitHead "T"%char (UI.toISOString today) in
  let texts := map UI.questionText questions in
  UI.exportAsMarkdown config today questions
    = UI.markdownDocument (name config) (UI.toLocaleDateString today) texts /\
  UI.content (UI.downloadAsFile config today questions "md")
    = UI.markdownDocument (name config) isoDate texts /\
  UI.filename (UI.downloadAsFile config today questions format)
    = JS.toLowerCase (name config) +:+ "-queries-" +:+ isoDate +:+ "."
      +:+ (if decide (format = "md") then "md" else "txt").
Proof.
  cbv zeta. split; [|split].
  - unfold UI.exportAsMarkdown. apply markdown_layout.
  - unfold UI.downloadAsFile. rewrite bool_decide_eq_true_2 by reflexivity.
    cbn [UI.content]. apply markdown_layout.
  - unfold UI.downloadAsFile. destruct (decide (format = "md")) as [->|Hne].
    + rewrite bool_decide_eq_true_2 by reflexivity. reflexivity.
    + rewrite bool_decide_eq_false_2 by assumption. reflexivity.
Qed.

(** C9 as stated fails for the download: on a day whose locale date is
    "11/2/2026" the .md file says "_Exported on 2026-11-02_". *)
Lemma markdown_download_not_locale_date :
  let today := {| UI.toLocaleDateString := "11/2/2026";
                  UI.toISOString := "2026-11-02T09:30:00.000Z" |} in
  let questions := [ItemString "Explain recursion"] in
  UI.content (UI.downloadAsFile chatgptConfig today questions "md")
    <> UI.markdownDocument "ChatGPT" "11/2/2026" ["Explain recursion"] /\
  UI.content (UI.downloadAsFile chatgptConfig today questions "md")
    = UI.markdownDocument "ChatGPT" "2026-11-02" ["Explain recursion"].
Proof. split; [vm_compute; discriminate | vm_compute; reflexivity]. Qed.

(** ** Collapse and expand *)

Section Collapse.
Import DragManager.

Lemma collapsedKey_ne (k : string) : PositionManager.collapsedKey k <> k.
Proof.
  unfold PositionManager.collapsedKey. intros H.
  apply (f_equal String.length) in H. rewrite length_append in H. simpl in H. lia.
Qed.

Lemma isCollapsed_classAdd (el : panel) : isCollapsed (classAdd CONSTANTS.COLLAPSED el) = true.
Proof.
  unfold isCollapsed, classAdd. cbn [classList]. apply bool_decide_eq_true_2.
  case_bool_decide; [assumption|]. apply elem_of_app. right. apply list_elem_of_singleton. reflexivity.
Qed.

Lemma isCollapsed_classRemove (el : panel) :
  isCollapsed (classRemove CONSTANTS.COLLAPSED el) = false.
Proof.
  unfold isCollapsed, classRemove. cbn [classList]. apply bool_decide_eq_false_2.
  intros H. apply list_elem_of_In, filter_In in H. destruct H as [_ H].
  by rewrite bool_decide_eq_true_2 in H.
Qed.

End Collapse.

(** C8. A panel that is expanded at (x, y) with width [ew > 0]: collapsing
    remembers [ew] and moves the panel by [ew - 48] to the right; expanding
    then moves it back by the remembered width minus 48 and clamps to the
    viewport, so that the panel ends, expanded, at the viewport-clamped
    (x, y), which is also the position saved; when (x, y) already lies in
    the viewport bounds it is restored exactly. *)
Theorem collapse_expand_roundtrip (css : DragManager.layout) (win : viewport)
    (storageKey : string) (el : DragManager.panel) (localStorage : gmap string json) :
  DragManager.isCollapsed el = false ->
  0 < DragManager.boxWidth css false ->
  let ew := DragManager.boxWidth css false in
  let x := DragManager.left el in
  let y := DragManager.top el in
  let clamped := PositionManager.constrainToViewport win x y ew (DragManager.boxHeight css false) in
  let st1 := DragManager.toggleCollapse css win storageKey false (el, localStorage) in
  let st2 := DragManager.toggleCollapse css win storageKey true st1 in
  (DragManager.left st1.1 = x + (ew - 48) /\ DragManager.top st1.1 = y /\
   DragManager.isCollapsed st1.1 = true /\ DragManager.rememberedWidth st1.1 = ew) /\
  (DragManager.left st2.1 = px clamped /\ DragManager.top st2.1 = py clamped /\
   DragManager.isCollapsed st2.1 = false /\
   PositionManager.getSavedPosition storageKey st2.2 = Some (JPoint (px clamped) (py clamped)) /\
   PositionManager.getCollapsedState storageKey st2.2 = false) /\
  (clamped = {| px := x; py := y |} ->
   DragManager.left st2.1 = x /\ DragManager.top st2.1 = y).
Proof.
  intros Hexp Hpos ew x y clamped st1 st2.
  assert (H1 : DragManager.left st1.1 = x + (ew - 48) /\ DragManager.top st1.1 = y /\
               DragManager.isCollapsed st1.1 = true /\ DragManager.rememberedWidth st1.1 = ew).
  { subst st1. unfold DragManager.toggleCollapse. cbn [negb fst].
    unfold DragManager.getBoundingClientRect. rewrite Hexp.
    cbn [DragManager.r_left DragManager.r_top DragManager.r_width
         DragManager.applyPosition DragManager.left DragManager.top].
    split; [subst x ew; lia|]. split; [reflexivity|]. split.
    - unfold DragManager.isCollapsed. cbn [DragManager.classList DragManager.applyPosition].
      apply isCollapsed_classAdd.
    - unfold DragManager.rememberedWidth.
      cbn [DragManager.dataset DragManager.applyPosition DragManager.classAdd DragManager.setData].
      rewrite lookup_insert_eq. fold ew.
      destruct (ew =? 0) eqn:E; [apply Z.eqb_eq in E; subst ew; lia | reflexivity]. }
  destruct H1 as (Hl & Ht & Hc & Hw).
  assert (H2 : DragManager.left st2.1 = px clamped /\ DragManager.top st2.1 = py clamped /\
     DragManager.isCollapsed st2.1 = false /\
     PositionManager.getSavedPosition storageKey st2.2 = Some (JPoint (px clamped) (py clamped)) /\
     PositionManager.getCollapsedState storageKey st2.2 = false).
  { subst st2. destruct st1 as [el1 ls1]. cbn [fst] in *.
    unfold DragManager.toggleCollapse. cbn [negb fst snd].
    unfold DragManager.getBoundingClientRect, DragManager.offsetHeight.
    rewrite isCollapsed_classRemove, Hw, Hl, Ht.
    cbn [DragManager.r_left DragManager.r_top DragManager.applyPosition
         DragManager.left DragManager.top].
    replace (x + (ew - 48) - (ew - 48)) with x by lia. fold clamped.
    split; [reflexivity|]. split; [reflexivity|]. split.
    - unfold DragManager.isCollapsed. cbn [DragManager.classList DragManager.applyPosition].
      apply isCollapsed_classRemove.
    - unfold PositionManager.getSavedPosition, PositionManager.getCollapsedState,
        PositionManager.saveCollapsedState, PositionManager.savePosition.
      rewrite lookup_insert_ne by apply collapsedKey_ne.
      by rewrite !lookup_insert_eq. }
  split; [tauto|]. split; [exact H2|].
  intros Hin. destruct H2 as (-> & -> & _). by rewrite Hin.
Qed.

Lemma collapse_expand_roundtrip_witness :
  let css := {| DragManager.boxWidth := fun c => if c then 48 else 300;
                DragManager.boxHeight := fun c => if c then 48 else 400 |} in
  let win := {| innerWidth := 1280; innerHeight := 720 |} in
  let el := {| DragManager.classList := ["theme-claude"]; DragManager.dataset := ∅;
               DragManager.left := 940; DragManager.top := 60 |} in
  let st2 := DragManager.toggleCollapse css win "claude-toc-position" true
               (DragManager.toggleCollapse css win "claude-toc-position" false (el, ∅)) in
  DragManager.left st2.1 = 940 /\ DragManager.top st2.1 = 60.
Proof.
  intros css win el st2.
  apply (collapse_expand_roundtrip css win "claude-toc-position" el ∅);
    vm_compute; reflexivity.
Defined.

(** ** Cooldown and debounce *)

Section Gate.
Import UI.
Variable config : siteConfig.

Lemma executions_log (e : logEntry) (s : state) :
  executions (log e s) = (executions s + if isExecution e then 1 else 0)%nat.
Proof.
  unfold executions, log. cbn [console]. rewrite List.filter_app, length_app. simpl.
  by destruct (isExecution e).
Qed.

Lemma invocations_log (e : logEntry) (s : state) :
  invocations (log e s) = (invocations s + if isInvocation e then 1 else 0)%nat.
Proof.
  unfold invocations, log. cbn [console]. rewrite List.filter_app, length_app. simpl.
  by destruct (isInvocation e).
Qed.

(** What a call of [createTOC] leaves as it was. *)
Lemma createTOC_frame (s : state) :
  timers (createTOC config s) = timers s /\
  nextTimerId (createTOC config s) = nextTimerId s /\
  createTimer (createTOC config s) = createTimer s /\
  now (createTOC config s) = now s /\
  localStorage (createTOC config s) = localStorage s.
Proof.
  unfold createTOC. destruct (now s - lastCreateTime s <? 1000); [by repeat split|].
  destruct (getQueries config _); [by repeat split|].
  destruct (buildTOCStructure _ _ _). by repeat split.
Qed.

Lemma createTOC_refused (s : state) :
  now s - lastCreateTime s < 1000 -> createTOC config s = log LogSkipping s.
Proof. intros H. unfold createTOC. apply Z.ltb_lt in H. by rewrite H. Qed.

Lemma createTOC_executed (s : state) :
  1000 <= now s - lastCreateTime s ->
  lastCreateTime (createTOC config s) = now s /\
  executions (createTOC config s) = S (executions s) /\
  invocations (createTOC config s) = S (invocations s).
Proof.
  intros H. unfold createTOC. apply Z.ltb_ge in H. rewrite H.
  destruct (getQueries config _).
  - rewrite executions_log, invocations_log. simpl. unfold executions, invocations. simpl.
    repeat split; lia.
  - destruct (buildTOCStructure _ _ _).
    rewrite executions_log, invocations_log. simpl. unfold executions, invocations. simpl.
    repeat split; lia.
Qed.

(** What a call that passes the cooldown does: the rebuild steps, in the
    order of the source. *)
Lemma createTOC_runs (s : state) :
  1000 <= now s - lastCreateTime s ->
  let doc1 := removeExistingTOC (document s) in
  let questions := getQueries config doc1 in
  document (createTOC config s)
  = match questions with
    | [] => doc1
    | _ :: _ =>
        (populateTOCList (map ItemQuery questions) doc1).2
        ++ [setupTOCFunctionality config (localStorage s)
              (buildTOCStructure config (map ItemQuery questions) doc1).1]
    end /\
  console (createTOC config s)
  = console s ++ [match questions with
                  | [] => LogNoQuestions
                  | _ :: _ => LogCreated (length questions)
                  end] /\
  frames (createTOC config s)
  = frames s ++ match questions with
                | [] => []
                | _ :: _ => [ApplyInitialPosition]
                end.
Proof.
  intros H doc1 questions. unfold createTOC. apply Z.ltb_ge in H. rewrite H. cbv zeta.
  cbn [document setLastCreateTime setDocument localStorage].
  fold doc1. fold questions. destruct questions as [|q qs].
  - cbn. by rewrite app_nil_r.
  - unfold buildTOCStructure. destruct (populateTOCList _ _) as [rows doc2]. by cbn.
Qed.

End Gate.

(** C7. A call of [createTOC] that comes less than 1000 time units after
    the last rebuild is dropped: apart from the console line nothing
    changes, no rebuild runs, the page and the time of the last rebuild stay,
    and nothing is scheduled for later.  A call that comes 1000 time units or
    more after the last rebuild executes the rebuild and becomes the last
    rebuild: the existing panel is removed, the queries are extracted from
    the page without it and, when there are any, the page gets their anchor
    ids and the panel built from them as its last node, and the placement of
    the panel is asked for; the console shows the result. *)
Theorem createTOC_cooldown (config : siteConfig) (s : UI.state) :
  (UI.now s - UI.lastCreateTime s < 1000 ->
   UI.createTOC config s = UI.log UI.LogSkipping s /\
   UI.executions (UI.createTOC config s) = UI.executions s /\
   UI.document (UI.createTOC config s) = UI.document s /\
   UI.lastCreateTime (UI.createTOC config s) = UI.lastCreateTime s /\
   UI.timers (UI.createTOC config s) = UI.timers s /\
   UI.frames (UI.createTOC config s) = UI.frames s) /\
  (1000 <= UI.now s - UI.lastCreateTime s ->
   let doc1 := UI.removeExistingTOC (UI.document s) in
   let questions := getQueries config doc1 in
   UI.executions (UI.createTOC config s) = S (UI.executions s) /\
   UI.lastCreateTime (UI.createTOC config s) = UI.now s /\
   UI.timers (UI.createTOC config s) = UI.timers s /\
   UI.document (UI.createTOC config s)
   = match questions with
     | [] => doc1
     | _ :: _ =>
         (UI.populateTOCList (map ItemQuery questions) doc1).2
         ++ [UI.setupTOCFunctionality config (UI.localStorage s)
               (UI.buildTOCStructure config (map ItemQuery questions) doc1).1]
     end /\
   UI.console (UI.createTOC config s)
   = UI.console s ++ [match questions with
                      | [] => UI.LogNoQuestions
                      | _ :: _ => UI.LogCreated (length questions)
                      end] /\
   UI.frames (UI.createTOC config s)
   = UI.frames s ++ match questions with
                    | [] => []
                    | _ :: _ => [UI.ApplyInitialPosition]
                    end).
Proof.
  split; intros H.
  - rewrite (createTOC_refused config s H). rewrite executions_log. simpl.
    repeat split; lia.
  - intros doc1 questions.
    destruct (createTOC_executed config s H) as (Hl & He & _).
    destruct (createTOC_frame config s) as (Ht & _).
    destruct (createTOC_runs config s H) as (Hd & Hc & Hf).
    by repeat split.
Qed.

Lemma createTOC_cooldown_witness :
  let page := [DOM.Elem "div" {[ "data-message-author-role" := "user" ]}
                 [DOM.Text "Explain recursion"]] in
  let s := UI.setNow 1700000000400 (UI.setLastCreateTime 1700000000000
             (UI.constructed page 0)) in
  let late := UI.createTOC chatgptConfig (UI.setNow 1700000001000 s) in
  (UI.executions (UI.createTOC chatgptConfig s) = UI.executions s /\
   UI.document (UI.createTOC chatgptConfig s) = page) /\
  UI.executions late = 1%nat /\
  length (UI.document late) = 2%nat /\
  length (UI.panels (UI.document late)) = 1%nat /\
  UI.console late = [UI.LogCreated 1] /\
  UI.frames late = [UI.ApplyInitialPosition].
Proof.
  intros page s late.
  destruct (createTOC_cooldown chatgptConfig s) as [Hdrop _].
  destruct (createTOC_cooldown chatgptConfig (UI.setNow 1700000001000 s)) as [_ Hrun].
  destruct Hdrop as (_ & He & Hd & _); [vm_compute; reflexivity|].
  destruct Hrun as (He' & _ & _ & Hd' & Hc' & Hf'); [vm_compute; discriminate|].
  split; [split; [exact He | exact Hd]|].
  split; [exact He'|].
  fold late in Hd', Hc', Hf'.
  split; [rewrite Hd'; vm_compute; reflexivity|].
  split; [rewrite Hd'; vm_compute; reflexivity|].
  split; [exact Hc' | exact Hf'].
Defined.

Section Debounce.
Import UI.
Variable config : siteConfig.

Lemma request_first (s : state) (t : Z) :
  timers s = [] -> now s <= t ->
  armed (requestAt config t s) t /\
  console (requestAt config t s) = console s /\
  lastCreateTime (requestAt config t s) = lastCreateTime s.
Proof.
  destruct s as [ct lct nw doc ls tms nid frs con]. cbn [timers now]. intros -> Hn.
  unfold requestAt, advanceTo, armed. cbn [timers length runTimers now setNow].
  replace (Z.max nw t) with t by lia.
  destruct ct as [id|]; cbn; (split; [eexists; repeat split | by split]).
Qed.

Lemma request_next (s : state) (t t' : Z) :
  armed s t -> t <= t' < t + 300 ->
  armed (requestAt config t' s) t' /\
  console (requestAt config t' s) = console s /\
  lastCreateTime (requestAt config t' s) = lastCreateTime s.
Proof.
  intros (id & Ht & Hc & Hn) Hw. unfold requestAt, advanceTo. rewrite Ht.
  cbn [length runTimers]. rewrite Ht. cbn [nextTimer t_due].
  replace (t + 300 <=? t') with false by (symmetry; apply Z.leb_gt; lia).
  unfold debouncedCreateTOC. cbn [createTimer setNow]. rewrite Hc.
  unfold clearTimeout, setTimeout. cbn. rewrite Ht. cbn. rewrite Pos.eqb_refl. cbn.
  rewrite Hn. replace (Z.max t t') with t' by lia.
  split; [|by split]. exists (nextTimerId s). by cbn.
Qed.

Lemma last_cons_default (rest : list Z) (t t' : Z) :
  List.last (t' :: rest) t = List.last rest t'.
Proof.
  revert t t'; induction rest as [|u rest IH]; intros t t'; [reflexivity|].
  change (List.last (t' :: u :: rest) t) with (List.last (u :: rest) t).
  by rewrite (IH t u), (IH t' u).
Qed.

Lemma burst_armed (rest : list Z) (s : state) (t : Z) :
  armed s t -> withinWindow t rest ->
  armed (requestsAt config rest s) (List.last rest t) /\
  console (requestsAt config rest s) = console s /\
  lastCreateTime (requestsAt config rest s) = lastCreateTime s.
Proof.
  revert s t; induction rest as [|t' rest IH]; intros s t Ha Hw; [by cbn|].
  destruct Hw as [Hw Hr].
  destruct (request_next s t t' Ha Hw) as (Ha' & Hc' & Hl').
  destruct (IH _ _ Ha' Hr) as (Ha'' & Hc'' & Hl'').
  unfold requestsAt in *. cbn [fold_left].
  rewrite last_cons_default.
  rewrite Hc'', Hl''. by repeat split.
Qed.

Lemma armed_fires (s : state) (t T : Z) :
  armed s t -> t + 300 <= T ->
  timers (advanceTo config T s) = [] /\
  invocations (advanceTo config T s) = S (invocations s) /\
  executions (advanceTo config T s) =
    (executions s + if (t + 300 - lastCreateTime s <? 1000)%Z then 0 else 1)%nat /\
  lastCreateTime (advanceTo config T s) =
    (if t + 300 - lastCreateTime s <? 1000 then lastCreateTime s else t + 300).
Proof.
  intros (id & Ht & Hc & Hn) HT. unfold advanceTo. rewrite Ht.
  cbn [length runTimers]. rewrite Ht. cbn [nextTimer t_due].
  replace (t + 300 <=? T) with true by (symmetry; apply Z.leb_le; lia).
  unfold fire. cbn [t_cb t_id t_due runCallback].
  set (s1 := setNow _ (clearTimeout id s)).
  assert (H1 : timers s1 = [] /\ now s1 = t + 300 /\ lastCreateTime s1 = lastCreateTime s /\
               console s1 = console s).
  { subst s1. unfold clearTimeout. cbn. rewrite Ht. cbn. rewrite Pos.eqb_refl. cbn.
    repeat split. lia. }
  destruct H1 as (Ht1 & Hn1 & Hl1 & Hc1).
  destruct (createTOC_frame config s1) as (Hf & _).
  assert (Hi : invocations s1 = invocations s) by (unfold invocations; by rewrite Hc1).
  assert (He : executions s1 = executions s) by (unfold executions; by rewrite Hc1).
  assert (Hadv : forall v r, timers (setNow v r) = timers r /\
                   invocations (setNow v r) = invocations r /\
                   executions (setNow v r) = executions r /\
                   lastCreateTime (setNow v r) = lastCreateTime r) by done.
  destruct (Hadv (Z.max (now s) T) (createTOC config s1)) as (-> & -> & -> & ->).
  rewrite Hf, Ht1. split; [reflexivity|].
  destruct (t + 300 - lastCreateTime s <? 1000) eqn:E.
  - apply Z.ltb_lt in E. rewrite (createTOC_refused config s1) by (rewrite Hn1, Hl1; lia).
    rewrite invocations_log, executions_log, Hi, He. cbn [isInvocation isExecution].
    change (lastCreateTime (log LogSkipping s1)) with (lastCreateTime s1).
    rewrite Hl1. repeat split; lia.
  - apply Z.ltb_ge in E.
    destruct (createTOC_executed config s1) as (Hl & Hx & Hv); [rewrite Hn1, Hl1; lia|].
    rewrite Hl, Hx, Hv, Hn1, Hi, He. repeat split; lia.
Qed.

Lemma nextTimer_None (l : list timer) : nextTimer l = None -> l = [].
Proof.
  destruct l as [|x l]; [reflexivity|]. cbn [nextTimer].
  destruct (nextTimer l) as [z|]; [destruct (_ <? _)|]; discriminate.
Qed.

Lemma nextTimer_least (l : list timer) (tm : timer) :
  nextTimer l = Some tm -> In tm l /\ Forall (fun x => t_due tm <= t_due x) l.
Proof.
  revert tm; induction l as [|x l IH]; intros tm H; [discriminate|].
  cbn [nextTimer] in H. destruct (nextTimer l) as [tm'|] eqn:E.
  - destruct (IH tm' eq_refl) as [Hin Hle].
    destruct (t_due tm' <? t_due x) eqn:Elt; injection H as <-.
    + apply Z.ltb_lt in Elt. split; [by right|]. constructor; [lia | exact Hle].
    + apply Z.ltb_ge in Elt. split; [by left|]. constructor; [lia|].
      eapply Forall_impl; [exact Hle|]. intros y Hy. cbv beta in Hy. lia.
  - injection H as <-. split; [by left|]. apply nextTimer_None in E. subst l.
    constructor; [lia | constructor].
Qed.

Lemma timers_fire (tm : timer) (s : state) :
  timers (fire config tm s)
  = List.filter (fun x => negb (t_id x =? t_id tm)%positive) (timers s).
Proof.
  unfold fire, runCallback. destruct (t_cb tm).
  - by rewrite (proj1 (createTOC_frame config _)).
  - by rewrite (proj1 (createTOC_frame config _)).
Qed.

Lemma filter_remove_shorter (tm : timer) (l : list timer) :
  In tm l ->
  (length (List.filter (fun x => negb (t_id x =? t_id tm)%positive) l) < length l)%nat.
Proof.
  induction l as [|x l IH]; intros H; [destruct H|]. cbn [List.filter].
  destruct H as [->|H].
  - rewrite Pos.eqb_refl. cbn [negb length].
    pose proof (List.filter_length_le (fun x => negb (t_id x =? t_id tm)%positive) l). lia.
  - specialize (IH H). destruct (negb _); cbn [length]; lia.
Qed.

Lemma runTimers_complete (fuel : nat) (t : Z) (s : state) :
  (length (timers s) <= fuel)%nat ->
  Forall (fun tm => t < t_due tm) (timers (runTimers fuel config t s)).
Proof.
  revert s; induction fuel as [|fuel IH]; intros s Hf.
  - destruct (timers s) eqn:E; [|cbn in Hf; lia]. cbn [runTimers]. rewrite E. constructor.
  - cbn [runTimers]. destruct (nextTimer (timers s)) as [tm|] eqn:E.
    + destruct (nextTimer_least _ _ E) as [Hin Hle].
      destruct (t_due tm <=? t) eqn:Ed.
      * apply IH. rewrite timers_fire.
        pose proof (filter_remove_shorter tm (timers s) Hin). lia.
      * apply Z.leb_gt in Ed. eapply Forall_impl; [exact Hle|].
        intros x Hx. cbv beta in Hx. lia.
    + apply nextTimer_None in E. rewrite E. constructor.
Qed.

(** The fuel of [advanceTo] is enough: when it returns, no pending timer
    is due. *)
Lemma advanceTo_complete (t : Z) (s : state) :
  Forall (fun tm => t < t_due tm) (timers (advanceTo config t s)).
Proof. unfold advanceTo. cbn [timers setNow]. by apply runTimers_complete. Qed.

End Debounce.

(** C6 (as the code has it).  A burst of N >= 1 monitor requests, each one
    arriving before the debounce timer of the one before is due (less than
    300 time units later), with no other timer pending: every request
    cancels the pending timer and sets a new one, so after the burst exactly
    one timer is pending, due 300 after the last request, and [createTOC] has
    not been called; once that time has passed [createTOC] has been called
    exactly once.  That one call runs the rebuild when it comes at least 1000
    time units after the last rebuild, and is dropped by the cooldown
    otherwise. *)
Theorem debounce_coalescing (config : siteConfig) (s : UI.state) (t1 : Z) (rest : list Z) (T : Z) :
  UI.timers s = [] ->
  UI.now s <= t1 ->
  UI.withinWindow t1 rest ->
  List.last rest t1 + 300 <= T ->
  let tN := List.last rest t1 in
  let burst := UI.requestsAt config (t1 :: rest) s in
  let s' := UI.advanceTo config T burst in
  (UI.armed burst tN /\ UI.invocations burst = UI.invocations s) /\
  UI.invocations s' = S (UI.invocations s) /\
  UI.executions s' =
    (UI.executions s + if (tN + 300 - UI.lastCreateTime s <? 1000)%Z then 0 else 1)%nat /\
  UI.timers s' = [].
Proof.
  intros Ht Hn Hw HT tN burst s'.
  destruct (request_first config s t1 Ht Hn) as (Ha1 & Hc1 & Hl1).
  destruct (burst_armed config rest _ t1 Ha1 Hw) as (Ha & Hc & Hl).
  assert (Hb : burst = UI.requestsAt config rest (UI.requestAt config t1 s)) by reflexivity.
  rewrite <- Hb in Ha, Hc, Hl. fold tN in Ha.
  assert (Hi : UI.invocations burst = UI.invocations s)
    by (unfold UI.invocations; by rewrite Hc, Hc1).
  assert (He : UI.executions burst = UI.executions s)
    by (unfold UI.executions; by rewrite Hc, Hc1).
  destruct (armed_fires config burst tN T Ha HT) as (Hf1 & Hf2 & Hf3 & _).
  subst s'. rewrite Hf2, Hf3, Hi, He, Hl, Hl1. by repeat split.
Qed.

Lemma debounce_coalescing_witness :
  let s := UI.constructed [DOM.Elem "div" {[ "data-message-author-role" := "user" ]}
                             [DOM.Text "Explain recursion"]] 1700000000000 in
  let s' := UI.advanceTo chatgptConfig 1700000005000
              (UI.requestsAt chatgptConfig [1700000000100; 1700000000350; 1700000000600] s) in
  UI.invocations s' = 1%nat /\ UI.executions s' = 1%nat /\ UI.timers s' = [].
Proof.
  intros s s'.
  apply (debounce_coalescing chatgptConfig s 1700000000100
           [1700000000350; 1700000000600] 1700000005000).
  - reflexivity.
  - vm_compute. discriminate.
  - vm_compute. repeat split; discriminate.
  - vm_compute. discriminate.
Defined.

(** C6 as stated fails when the cooldown is still running: the last
    rebuild ran at time 1700000000000, the monitor asks at +100, +350 and
    +600, the debounce timer fires at +900 and the call is dropped, so the
    burst causes no rebuild at all. *)
Lemma debounce_burst_dropped_by_cooldown :
  let s := UI.setLastCreateTime 1700000000000
             (UI.constructed [DOM.Elem "div" {[ "data-message-author-role" := "user" ]}
                                [DOM.Text "Explain recursion"]] 1700000000000) in
  let s' := UI.advanceTo chatgptConfig 1700000005000
              (UI.requestsAt chatgptConfig [1700000000100; 1700000000350; 1700000000600] s) in
  UI.timers s = [] /\
  UI.withinWindow 1700000000100 [1700000000350; 1700000000600] /\
  UI.console s' = UI.console s ++ [UI.LogSkipping] /\
  UI.executions s' <> S (UI.executions s).
Proof.
  intros s s'. split; [reflexivity|]. split; [vm_compute; repeat split; discriminate|].
  split; [vm_compute; reflexivity | vm_compute; discriminate].
Qed.

(** ** The page as a tree *)

Section Trees.
Import DOM.

Lemma walkNode_Elem (parent : list nat) (anc : list einfo) (idx : nat) (prev : option einfo)
    (t : string) (a : gmap string string) (cs : list node) :
  walkNode parent anc idx prev (Elem t a cs) =
  {| e_parent := parent; e_index := idx; e_tag := t; e_attrs := a;
     e_children := cs; e_prev := prev; e_ancestors := anc |}
  :: walk (parent ++ [idx]) ((t, a) :: anc) 0 None cs.
Proof.
  simpl. f_equal. generalize 0%nat (@None einfo).
  induction cs as [|c cs IH]; intros i p; [reflexivity|].
  simpl. by rewrite IH.
Qed.

Lemma infoNode_Elem (t : string) (a : gmap string string) (cs : list node) :
  infoNode (Elem t a cs) = (t, a) :: infos cs.
Proof.
  reflexivity.
Qed.

Lemma infos_app (l1 l2 : list node) : infos (l1 ++ l2) = infos l1 ++ infos l2.
Proof. induction l1 as [|c l1 IH]; [reflexivity|]. simpl. by rewrite IH, app_assoc. Qed.

(** Induction over a forest: on the siblings to the right and on the
    children of the first node. *)
Lemma forest_ind (P : list node -> Prop) :
  P [] ->
  (forall s r, P r -> P (Text s :: r)) ->
  (forall t a cs r, P cs -> P r -> P (Elem t a cs :: r)) ->
  forall l, P l.
Proof.
  intros H0 H1 H2.
  assert (F : forall n r, P r -> P (n :: r)).
  { fix F 1. intros [s|t a cs] r Hr.
    - apply H1, Hr.
    - apply H2; [|exact Hr].
      induction cs as [|c cs IH]; [exact H0|]. apply F, IH. }
  induction l as [|n l IH]; [exact H0|]. apply F, IH.
Qed.

Lemma walk_infos (l : list node) :
  forall parent anc idx prev, map e_info (walk parent anc idx prev l) = infos l.
Proof.
  induction l as [|s r IH|t a cs r IHc IHr] using forest_ind; intros parent anc idx prev.
  - reflexivity.
  - simpl. apply IH.
  - cbn [walk infos]. rewrite walkNode_Elem, infoNode_Elem, map_app. cbn [map].
    unfold e_info at 1. cbn [e_tag e_attrs]. by rewrite IHc, IHr.
Qed.

Lemma filter_map_length {A B : Type} (f : B -> bool) (g : A -> B) (l : list A) :
  length (List.filter (fun x => f (g x)) l) = length (List.filter f (map g l)).
Proof. induction l as [|x l IH]; [reflexivity|]. simpl. destruct (f (g x)); simpl; by rewrite IH. Qed.

Lemma length_filter_hasId (id : string) (l : list node) parent anc idx prev :
  length (List.filter (hasId id) (walk parent anc idx prev l)) = countId id l.
Proof.
  unfold countId. rewrite <- (walk_infos l parent anc idx prev).
  apply (filter_map_length (infoHasId id) e_info).
Qed.

Lemma countId_app (id : string) (l1 l2 : list node) :
  countId id (l1 ++ l2) = (countId id l1 + countId id l2)%nat.
Proof. unfold countId. by rewrite infos_app, List.filter_app, length_app. Qed.

Lemma countId_cons (id : string) (n : node) (l : list node) :
  countId id (n :: l) = (countId id [n] + countId id l)%nat.
Proof. apply (countId_app id [n] l). Qed.

Lemma countId_Elem (id : string) (t : string) (a : gmap string string) (cs : list node) :
  countId id [Elem t a cs] =
  ((if infoHasId id (t, a) then 1 else 0) + countId id cs)%nat.
Proof.
  unfold countId. cbn [infos]. rewrite infoNode_Elem, app_nil_r. cbn [List.filter].
  by destruct (infoHasId id (t, a)).
Qed.

Lemma countId_Text (id : string) (s : string) : countId id [Text s] = 0%nat.
Proof. reflexivity. Qed.

Lemma removeAt_cons_S (k : nat) (q : list nat) (c : node) (r : list node) :
  removeAt (S k :: q) (c :: r) = c :: removeAt (k :: q) r.
Proof. by destruct q. Qed.

Lemma removeAt_cons_0 (k : nat) (q : list nat) (t : string) (a : gmap string string)
    (cs r : list node) :
  removeAt (0%nat :: k :: q) (Elem t a cs :: r) = Elem t a (removeAt (k :: q) cs) :: r.
Proof. reflexivity. Qed.

Lemma head_app_filter {A : Type} (f : A -> bool) (l1 l2 : list A) (x : A) :
  head (List.filter f (l1 ++ l2)) = Some x ->
  head (List.filter f l1) = Some x \/
  (List.filter f l1 = [] /\ head (List.filter f l2) = Some x).
Proof.
  rewrite List.filter_app. destruct (List.filter f l1) as [|y l]; [by right|by left].
Qed.

(** Removing the first element that carries an id lowers the number of
    elements carrying it. *)
Lemma remove_first_lowers_count (id : string) (l : list node) :
  forall parent anc idx prev e,
    head (List.filter (hasId id) (walk parent anc idx prev l)) = Some e ->
    exists k q, e_path e = parent ++ (idx + k)%nat :: q /\
                (countId id (removeAt (k :: q) l) < countId id l)%nat.
Proof.
  induction l as [|s r IH|t a cs r IHc IHr] using forest_ind;
    intros parent anc idx prev e He.
  - discriminate.
  - simpl in He. destruct (IH _ _ _ _ _ He) as (k & q & Hp & Hc).
    exists (S k), q. split; [rewrite Hp; do 2 f_equal; lia|].
    rewrite removeAt_cons_S, (countId_cons id _ (removeAt _ _)), (countId_cons id _ r). lia.
  - cbn [walk] in He. rewrite walkNode_Elem in He.
    rewrite <- app_comm_cons in He. cbn [List.filter] in He.
    destruct (hasId id _) eqn:Hid.
    + cbn in He. injection He as <-. exists 0%nat, []. split.
      * unfold e_path. cbn. by rewrite Nat.add_0_r.
      * cbn [removeAt]. change (delete 0%nat (Elem t a cs :: r)) with r.
        rewrite (countId_cons id _ r), countId_Elem.
        unfold hasId in Hid. cbn in Hid. unfold infoHasId. cbn. rewrite Hid. lia.
    + apply head_app_filter in He. destruct He as [He|[_ He]].
      * destruct (IHc _ _ _ _ _ He) as (k & q & Hp & Hc).
        exists 0%nat, (k :: q). split.
        -- rewrite Hp, <- app_assoc. cbn. by rewrite Nat.add_0_r.
        -- rewrite removeAt_cons_0.
           rewrite (countId_cons id (Elem t a (removeAt (k :: q) cs)) r),
             (countId_cons id (Elem t a cs) r), !countId_Elem. lia.
      * destruct (IHr _ _ _ _ _ He) as (k & q & Hp & Hc).
        exists (S k), q. split; [rewrite Hp; do 2 f_equal; lia|].
        rewrite removeAt_cons_S, (countId_cons id _ (removeAt _ _)), (countId_cons id _ r). lia.
Qed.

Lemma alter_count (id : string) (f : node -> node) (i : nat) (l : list node) :
  (forall n, countId id [f n] <= countId id [n])%nat ->
  (countId id (alter f i l) <= countId id l)%nat.
Proof.
  intros Hf. revert i; induction l as [|c l IH]; intros i; [by destruct i|].
  destruct i as [|i].
  - change (alter f 0%nat (c :: l)) with (f c :: l).
    rewrite (countId_cons id (f c)), (countId_cons id c). specialize (Hf c). lia.
  - change (alter f (S i) (c :: l)) with (c :: alter f i l).
    rewrite (countId_cons id c (alter _ _ _)), (countId_cons id c l). specialize (IH i). lia.
Qed.

(** Writing another id never adds an element with the id counted. *)
Lemma setAttrAt_count (id v : string) (p : list nat) :
  v <> id -> forall l, (countId id (setAttrAt p "id" v l) <= countId id l)%nat.
Proof.
  intros Hv. induction p as [|i p IH]; intros l; [reflexivity|].
  cbn [setAttrAt]. destruct p as [|j p].
  - apply alter_count. intros [s|t a cs]; [reflexivity|].
    cbn [setAttr]. rewrite !countId_Elem.
    assert (H : infoHasId id (t, <["id" := v]> a) = false).
    { unfold infoHasId. cbn. apply bool_decide_eq_false_2.
      rewrite lookup_insert_eq. congruence. }
    rewrite H. lia.
  - apply alter_count. intros [s|t a cs]; [reflexivity|].
    cbn [onChildren]. rewrite !countId_Elem. specialize (IH cs). lia.
Qed.

End Trees.

(** ** Rebuilding the panel *)

Section Rebuild.
Import DOM UI.

Lemma length_panels (doc : forest) : length (panels doc) = countId CONSTANTS.TOC_CONTAINER doc.
Proof. apply length_filter_hasId. Qed.

Lemma panels_nil (doc : forest) : countId CONSTANTS.TOC_CONTAINER doc = 0%nat -> panels doc = [].
Proof. rewrite <- length_panels. apply nil_length_inv. Qed.

Lemma removeExistingTOC_count (doc : forest) :
  (countId CONSTANTS.TOC_CONTAINER doc <= 1)%nat ->
  countId CONSTANTS.TOC_CONTAINER (removeExistingTOC doc) = 0%nat.
Proof.
  intros H. unfold removeExistingTOC, getElementById, elements.
  destruct (head _) as [e|] eqn:He.
  - destruct (remove_first_lowers_count _ _ _ _ _ _ _ He) as (k & q & Hp & Hc).
    cbn in Hp. rewrite Hp. lia.
  - apply head_None in He. rewrite <- length_panels. unfold panels, elements.
    by rewrite He.
Qed.

Lemma questionId_ne (index : nat) : questionId index <> CONSTANTS.TOC_CONTAINER.
Proof. unfold questionId, CONSTANTS.TOC_CONTAINER. cbn. discriminate. Qed.

Lemma assignId_count (index : nat) (it : item) (doc : forest) :
  (countId CONSTANTS.TOC_CONTAINER (assignId index it doc)
   <= countId CONSTANTS.TOC_CONTAINER doc)%nat.
Proof.
  unfold assignId. destruct (questionElement it); [|reflexivity].
  apply setAttrAt_count, questionId_ne.
Qed.

Lemma populateFrom_count (questions : list item) (index : nat) (doc : forest) :
  (countId CONSTANTS.TOC_CONTAINER (populateFrom index questions doc).2
   <= countId CONSTANTS.TOC_CONTAINER doc)%nat.
Proof.
  revert index doc; induction questions as [|it rest IH]; intros index doc; [reflexivity|].
  rewrite populateFrom_cons. cbn [snd].
  etransitivity; [apply IH | apply assignId_count].
Qed.

Lemma rows_count (questions : list item) (index : nat) :
  countId CONSTANTS.TOC_CONTAINER (imap (fun k it => listItem (index + k) it) questions) = 0%nat.
Proof.
  revert index; induction questions as [|it rest IH]; intros index; [reflexivity|].
  cbn [imap]. rewrite countId_cons.
  rewrite (imap_ext _ (fun k it => listItem (S index + k) it))
    by (intros; cbn; f_equal; lia).
  rewrite IH, Nat.add_0_r. unfold listItem. rewrite countId_Elem, countId_cons, countId_Elem.
  rewrite (countId_cons _ (Text _)), countId_Text, countId_Elem.
  unfold infoHasId. cbn [snd].
  rewrite !lookup_insert_ne by discriminate. rewrite !lookup_singleton_ne by discriminate.
  reflexivity.
Qed.

Lemma classListAdd_lookup (c k : string) (a : gmap string string) :
  k <> "class" -> classListAdd c a !! k = a !! k.
Proof. intros H. unfold classListAdd. by rewrite lookup_insert_ne. Qed.

(** The panel that a rebuild inserts, as a tree. *)
Lemma setup_shape (config : siteConfig) (ls : gmap string json) (questions : list item)
    (doc : forest) :
  exists a,
    setupTOCFunctionality config ls (buildTOCStructure config questions doc).1
      = Elem "div" a
          [setAttr "style" "cursor: move; user-select: none; touch-action: none;" tocHeader;
           searchContainer;
           Elem "ul" ∅ (populateTOCList questions doc).1;
           tocFooter (length questions)] /\
    a !! "id" = Some CONSTANTS.TOC_CONTAINER.
Proof.
  unfold buildTOCStructure. destruct (populateTOCList questions doc) as [rows doc1].
  cbn [fst]. unfold setupTOCFunctionality. cbn [onChildren setAttrAt].
  change (alter ?f 0%nat (?x :: ?l)) with (f x :: l).
  destruct (PositionManager.getCollapsedState _ _); eexists; (split; [reflexivity|]);
    rewrite !classListAdd_lookup by discriminate; apply lookup_singleton_eq.
Qed.

Lemma panel_count (config : siteConfig) (ls : gmap string json) (questions : list item)
    (doc : forest) :
  countId CONSTANTS.TOC_CONTAINER
    [setupTOCFunctionality config ls (buildTOCStructure config questions doc).1] = 1%nat.
Proof.
  destruct (setup_shape config ls questions doc) as (a & -> & Ha).
  rewrite countId_Elem. unfold infoHasId at 1. cbn [snd].
  rewrite bool_decide_eq_true_2 by exact Ha.
  match goal with |- context [countId _ [?h; ?sc; ?ul; ?ft]] =>
    change [h; sc; ul; ft] with ([h] ++ [sc] ++ [ul] ++ [ft]) end.
  rewrite !countId_app.
  rewrite (countId_Elem _ "ul"). unfold populateTOCList. rewrite populateFrom_rows, rows_count.
  replace (countId CONSTANTS.TOC_CONTAINER [searchContainer]) with 0%nat
    by (vm_compute; reflexivity).
  replace (countId CONSTANTS.TOC_CONTAINER [setAttr _ _ tocHeader]) with 0%nat
    by (vm_compute; reflexivity).
  unfold tocFooter. rewrite countId_Elem, countId_cons, countId_Elem.
  unfold infoHasId. cbn [snd].
  rewrite !lookup_singleton_ne by discriminate. rewrite lookup_empty.
  reflexivity.
Qed.

Lemma panel_rows (config : siteConfig) (ls : gmap string json) (questions : list item)
    (doc : forest) :
  panelRows (setupTOCFunctionality config ls (buildTOCStructure config questions doc).1)
    = (populateTOCList questions doc).1.
Proof.
  destruct (setup_shape config ls questions doc) as (a & -> & _).
  unfold panelRows, childrenByTag.
  cbn [childNodes List.filter tagName setAttr tocHeader searchContainer tocFooter].
  decide_constants. cbn. by rewrite app_nil_r.
Qed.


Lemma createTOC_document (config : siteConfig) (s : state) :
  1000 <= now s - lastCreateTime s ->
  document (createTOC config s) =
    let doc1 := removeExistingTOC (document s) in
    match getQueries config doc1 with
    | [] => doc1
    | (_ :: _) as questions =>
        (populateTOCList (map ItemQuery questions) doc1).2
        ++ [setupTOCFunctionality config (localStorage s)
              (buildTOCStructure config (map ItemQuery questions) doc1).1]
    end.
Proof.
  intros H. unfold createTOC. apply Z.ltb_ge in H. rewrite H. cbv zeta.
  cbn [document setLastCreateTime setDocument localStorage].
  destruct (getQueries config _) as [|q qs] eqn:E; [reflexivity|].
  unfold buildTOCStructure.
  destruct (populateTOCList _ _) as [rows doc2]. reflexivity.
Qed.

End Rebuild.



(** The end-to-end scenario: no message, no panel; one message reading
    "Explain recursion", a panel with that one row and the footer
    "1 queries". *)
Example rebuild_scenario :
  let empty := UI.createTOC chatgptConfig (UI.constructed [] 1700000000000) in
  let one := UI.createTOC chatgptConfig
               (UI.constructed [DOM.Elem "div" {[ "data-message-author-role" := "user" ]}
                                  [DOM.Text "Explain recursion"]] 1700000000000) in
  UI.document empty = [] /\
  exists host tocContainer,
    UI.document one = [host; tocContainer] /\
    map UI.rowText (UI.panelRows tocContainer) = [Some "Explain recursion"] /\
    UI.footerText tocContainer = Some "1 queries".
Proof.
  split; [reflexivity|]. eexists _, _. split; [vm_compute; reflexivity|].
  split; vm_compute; reflexivity.
Qed.

(** ** Texts of the extracted queries *)

Section Texts.
Import JS.

Lemma trimStart_start (s : string) : startsWithWs (trimStart s) = false.
Proof.
  induction s as [|c s IH]; [reflexivity|]. simpl.
  destruct (isWhiteSpace c) eqn:E; [exact IH | simpl; exact E].
Qed.

Lemma trimEnd_head (s : string) (d : ascii) (r : string) :
  trimEnd s = String d r -> exists r', s = String d r'.
Proof.
  destruct s as [|c s]; [discriminate|]. simpl.
  destruct (trimEnd s); [destruct (isWhiteSpace c)|]; intros H; try discriminate;
    injection H as -> _; eauto.
Qed.

Lemma trimEnd_start (s : string) : startsWithWs s = false -> startsWithWs (trimEnd s) = false.
Proof.
  intros H. destruct (trimEnd s) as [|d r] eqn:E; [reflexivity|].
  destruct (trimEnd_head s d r E) as [r' ->]. exact H.
Qed.

Lemma trimEnd_end (s : string) : endsWithWs (trimEnd s) = false.
Proof.
  induction s as [|c s IH]; [reflexivity|]. simpl.
  destruct (trimEnd s) as [|d r] eqn:E.
  - destruct (isWhiteSpace c) eqn:Ec; [reflexivity | simpl; exact Ec].
  - exact IH.
Qed.

Lemma trim_isTrimmed (s : string) : isTrimmed (trim s) = true.
Proof.
  unfold isTrimmed, trim.
  by rewrite trimEnd_start, trimEnd_end by apply trimStart_start.
Qed.

Lemma trimmed_not_blank (s : string) :
  truthy s = true -> isTrimmed s = true -> allWhiteSpace s = false.
Proof.
  destruct s as [|c s]; [discriminate|]. intros _ H. unfold isTrimmed in H.
  apply andb_true_iff in H as [H _]. apply negb_true_iff in H. simpl in *. by rewrite H.
Qed.

Lemma replaceWsFrom_start (s : string) : startsWithWs (replaceWsFrom true s) = false.
Proof.
  induction s as [|c s IH]; [reflexivity|]. simpl.
  destruct (isWhiteSpace c) eqn:E; [exact IH | simpl; exact E].
Qed.

Lemma replaceWsFrom_collapsed (s : string) (b : bool) : isCollapsed (replaceWsFrom b s) = true.
Proof.
  revert b; induction s as [|c s IH]; intros b; [reflexivity|]. simpl.
  destruct (isWhiteSpace c) eqn:E.
  - destruct b; [apply IH|]. simpl. by rewrite replaceWsFrom_start, IH.
  - simpl. by rewrite E, IH.
Qed.

Lemma isCollapsed_tail (c : ascii) (s : string) :
  isCollapsed (String c s) = true -> isCollapsed s = true.
Proof. simpl. intros H. by apply andb_true_iff in H as [_ H]. Qed.

Lemma trimStart_collapsed (s : string) : isCollapsed s = true -> isCollapsed (trimStart s) = true.
Proof.
  induction s as [|c s IH]; [done|]. intros H. simpl.
  destruct (isWhiteSpace c); [apply IH, (isCollapsed_tail c), H | exact H].
Qed.

Lemma trimEnd_collapsed (s : string) : isCollapsed s = true -> isCollapsed (trimEnd s) = true.
Proof.
  induction s as [|c s IH]; [done|]. intros H.
  pose proof (IH (isCollapsed_tail c s H)) as IH'.
  simpl in H. apply andb_true_iff in H as [Hc _]. simpl.
  destruct (trimEnd s) as [|d r] eqn:E.
  - destruct (isWhiteSpace c) eqn:Ec; [reflexivity|]. simpl. by rewrite Ec.
  - destruct (trimEnd_head s d r E) as [r' ->]. simpl in Hc.
    change (isCollapsed (String c (String d r)))
      with ((if isWhiteSpace c then Ascii.eqb c " " && negb (isWhiteSpace d) else true)
            && isCollapsed (String d r)).
    by rewrite Hc, IH'.
Qed.

Lemma normalize_isNormalized (s : string) :
  isNormalized (trim (replaceWs s)) = true.
Proof.
  unfold isNormalized. rewrite trim_isTrimmed, andb_true_r. unfold trim, replaceWs.
  apply trimEnd_collapsed, trimStart_collapsed, replaceWsFrom_collapsed.
Qed.

End Texts.

(** ** The extractors *)

Section Extractors.
Import DOM SITES.

Lemma forEachPush_omap {A B : Type} (f : A -> option B) (l : list A) :
  forEachPush f l = omap f l.
Proof.
  unfold forEachPush.
  assert (H : forall acc,
             fold_left (fun acc x => match f x with Some y => acc ++ [y] | None => acc end) l acc
             = acc ++ omap f l).
  { induction l as [|x l IH]; intros acc; simpl; [by rewrite app_nil_r|].
    rewrite IH. destruct (f x); [by rewrite <- app_assoc | reflexivity]. }
  apply (H []).
Qed.

Lemma Forall_omap {A B : Type} (P : B -> Prop) (f : A -> option B) (l : list A) :
  (forall x y, f x = Some y -> P y) -> Forall P (omap f l).
Proof.
  intros H. induction l as [|x l IH]; simpl; [constructor|].
  destruct (f x) eqn:E; [constructor; eauto | exact IH].
Qed.

Lemma keptText_trim (s : string) : JS.truthy (JS.trim s) = true -> keptText (JS.trim s).
Proof.
  intros H. split; [exact H|]. split; [|apply trim_isTrimmed].
  apply trimmed_not_blank; [exact H | apply trim_isTrimmed].
Qed.

Lemma chatgpt_kept (doc : forest) : Forall (fun q => keptText (text q)) (chatgpt.getQueries doc).
Proof.
  unfold chatgpt.getQueries. rewrite forEachPush_omap. apply Forall_omap.
  intros el q. destruct (JS.truthy _) eqn:E; [|discriminate].
  intros [= <-]. cbn. by apply keptText_trim.
Qed.

Lemma perplexity_extract_kept (els : list Element) :
  Forall (fun q => keptText (text q)) (perplexity.extract els).
Proof.
  unfold perplexity.extract. apply Forall_forall. intros q Hq. apply list_elem_of_In in Hq.
  apply filter_In in Hq as [Hin Ht]. apply in_map_iff in Hin as (el & <- & _).
  cbn in *. by apply keptText_trim.
Qed.

Lemma perplexity_kept (doc : forest) :
  Forall (fun q => keptText (text q)) (perplexity.getQueries doc).
Proof.
  unfold perplexity.getQueries.
  destruct (perplexity.extract (querySelectorAll doc perplexity.primary)) eqn:E.
  - apply perplexity_extract_kept.
  - rewrite <- E. apply perplexity_extract_kept.
Qed.

Lemma Forall_of_sublist {A : Type} (P : A -> Prop) (l1 l2 : list A) :
  sublist l1 l2 -> Forall P l2 -> Forall P l1.
Proof.
  induction 1 as [|x l1 l2 _ IH|x l1 l2 _ IH]; intros H; [constructor| |].
  - inversion H; subst. constructor; auto.
  - inversion H; subst. auto.
Qed.

Lemma filterSeen_sublist (key : query -> string) (l : list query) (seen : gset string) :
  sublist (filterSeen key seen l) l.
Proof.
  revert seen; induction l as [|q l IH]; intros seen; [constructor|]. simpl.
  destruct (bool_decide _); [apply sublist_cons, IH | apply sublist_skip, IH].
Qed.

Lemma claude_extract_kept (els : list Element) :
  Forall (fun q => keptText (text q) /\ text q = JS.trim (elementText (element q)))
    (claude.extract els).
Proof.
  unfold claude.extract. apply Forall_forall. intros q Hq. apply list_elem_of_In in Hq.
  apply filter_In in Hq as [Hin Ht]. apply in_map_iff in Hin as (el & <- & _).
  cbn in *. apply andb_true_iff in Ht as [Ht _]. split; [by apply keptText_trim | reflexivity].
Qed.

Lemma claude_loop_kept (doc : forest) (sels : list selector) (queries : list query) :
  Forall (fun q => keptText (text q) /\ text q = JS.trim (elementText (element q))) queries ->
  Forall (fun q => keptText (text q) /\ text q = JS.trim (elementText (element q)))
    (claude.selectorLoop doc sels queries).
Proof.
  revert queries; induction sels as [|sel sels IH]; intros queries H; [exact H|]. simpl.
  destruct (querySelectorAll doc sel) as [|e es] eqn:E; [by apply IH|].
  destruct (claude.extract (e :: es)) eqn:E2; [apply IH; constructor|].
  rewrite <- E2. apply claude_extract_kept.
Qed.

Lemma claude_candidates_kept (doc : forest) :
  Forall (fun q => keptText (text q) /\ text q = JS.trim (elementText (element q)))
    (claude.candidates doc).
Proof. apply claude_loop_kept. constructor. Qed.

Lemma claude_kept (doc : forest) : Forall (fun q => keptText (text q)) (claude.getQueries doc).
Proof.
  eapply Forall_impl.
  - eapply Forall_of_sublist; [apply filterSeen_sublist | apply claude_candidates_kept].
  - intros q [H _]; exact H.
Qed.

Lemma keptNormalized_normalize (s : string) :
  JS.truthy (gemini.normalize s) = true -> keptNormalized (gemini.normalize s).
Proof.
  intros H. split; [by apply keptText_trim | apply normalize_isNormalized].
Qed.

Lemma gemini_container_kept (containers : list Element) :
  Forall (fun q => keptNormalized (text q)) (gemini.containerGroups containers).
Proof.
  unfold gemini.containerGroups. rewrite forEachPush_omap. apply Forall_omap.
  intros c q. destruct (JS.truthy _) eqn:E; [|discriminate].
  intros [= <-]. cbn. destruct (querySelectorAllIn c gemini.lineSelector);
    by apply keptNormalized_normalize.
Qed.

Lemma gemini_loop_kept (fuel : nat) (rest : list Element) (groups : list query) :
  Forall (fun q => keptNormalized (text q)) groups ->
  Forall (fun q => keptNormalized (text q)) (gemini.lineLoop fuel rest groups).
Proof.
  revert rest groups; induction fuel as [|fuel IH]; intros rest groups H; [exact H|].
  destruct rest as [|el rest]; [exact H|]. simpl.
  destruct (gemini.isLine el).
  - destruct (gemini.prevIsLine el); [by apply IH|].
    destruct (gemini.collectRun el [elementText el] rest) as [parts rest'].
    apply IH. destruct (JS.truthy _) eqn:E; [|exact H].
    apply Forall_app. split; [exact H|]. constructor; [|constructor].
    by apply keptNormalized_normalize.
  - apply IH. destruct (JS.truthy _) eqn:E; [|exact H].
    apply Forall_app. split; [exact H|]. constructor; [|constructor].
    by apply keptNormalized_normalize.
Qed.

Lemma gemini_groups_kept (doc : forest) :
  Forall (fun q => keptNormalized (text q)) (gemini.groupsOf doc).
Proof.
  unfold gemini.groupsOf. destruct (querySelectorAll doc gemini.containerSelector) eqn:E.
  - apply gemini_loop_kept. constructor.
  - rewrite <- E. apply gemini_container_kept.
Qed.

Lemma finalFilter_sublist (groups : list query) (seen : gset string) :
  sublist (gemini.finalFilter seen groups) groups.
Proof.
  revert seen; induction groups as [|g l IH]; intros seen; [constructor|]. simpl.
  destruct (JS.startsWith _ _); [apply sublist_cons, IH|].
  destruct (bool_decide _); [apply sublist_cons, IH | apply sublist_skip, IH].
Qed.

Lemma gemini_kept (doc : forest) :
  Forall (fun q => keptNormalized (text q)) (gemini.getQueries doc).
Proof.
  eapply Forall_of_sublist; [apply finalFilter_sublist | apply gemini_groups_kept].
Qed.

End Extractors.

(** C3 (as the code has it).  Every query text that an adapter returns is
    not empty, not whitespace only, and trimmed at both ends; the Gemini
    adapter alone also collapses the runs of whitespace inside the text. *)
Theorem extracted_texts (doc : DOM.forest) :
  Forall (fun q => keptText (text q)) (SITES.chatgpt.getQueries doc) /\
  Forall (fun q => keptText (text q)) (SITES.perplexity.getQueries doc) /\
  Forall (fun q => keptText (text q)) (SITES.claude.getQueries doc) /\
  Forall (fun q => keptText (text q) /\ JS.isNormalized (text q) = true)
    (SITES.gemini.getQueries doc).
Proof.
  split; [apply chatgpt_kept|]. split; [apply perplexity_kept|].
  split; [apply claude_kept | apply gemini_kept].
Qed.

(** C3 as stated fails for the adapters that only trim: a message whose
    text has two spaces in a row keeps them. *)
Lemma trimmed_text_not_collapsed :
  let doc := [DOM.Elem "div" {[ "data-message-author-role" := "user" ]}
                [DOM.Text "  sort  a list "]] in
  map text (SITES.chatgpt.getQueries doc) = ["sort  a list"] /\
  JS.isNormalized "sort  a list" = false.
Proof. split; vm_compute; reflexivity. Qed.

Section ClaudeDedup.
Import DOM SITES.

Lemma filterSeen_by_key (key : query -> string) (l : list query) (seen : gset string)
    (k : string) :
  List.filter (fun q => bool_decide (key q = k)) (filterSeen key seen l)
  = if bool_decide (k ∈ seen) then []
    else match List.find (fun q => bool_decide (key q = k)) l with
         | Some q => [q]
         | None => []
         end.
Proof.
  revert seen; induction l as [|q l IH]; intros seen.
  - simpl. by destruct (bool_decide _).
  - cbn [filterSeen List.find]. destruct (bool_decide (key q ∈ seen)) eqn:Eq.
    + apply bool_decide_eq_true in Eq. rewrite IH.
      destruct (bool_decide (k ∈ seen)) eqn:Ek; [reflexivity|].
      apply bool_decide_eq_false in Ek.
      rewrite bool_decide_eq_false_2; [reflexivity|]. intros Hk. by rewrite <- Hk in Ek.
    + apply bool_decide_eq_false in Eq. cbn [List.filter].
      destruct (bool_decide (key q = k)) eqn:Ekey.
      * apply bool_decide_eq_true in Ekey. subst k. rewrite IH.
        rewrite bool_decide_eq_true_2
          by (apply elem_of_union; left; by apply elem_of_singleton).
        by rewrite bool_decide_eq_false_2.
      * apply bool_decide_eq_false in Ekey. rewrite IH.
        destruct (bool_decide (k ∈ seen)) eqn:Ek.
        -- apply bool_decide_eq_true in Ek.
           rewrite bool_decide_eq_true_2; [reflexivity|]. apply elem_of_union. by right.
        -- apply bool_decide_eq_false in Ek.
           rewrite bool_decide_eq_false_2; [reflexivity|].
           intros H. apply elem_of_union in H as [H|H]; [|contradiction].
           apply elem_of_singleton in H. congruence.
Qed.

Lemma filterSeen_NoDup (key : query -> string) (l : list query) (seen : gset string) :
  NoDup (map key (filterSeen key seen l)) /\
  forall q, q ∈ filterSeen key seen l -> key q ∉ seen.
Proof.
  revert seen; induction l as [|q l IH]; intros seen.
  - split; [constructor | intros q H; inversion H].
  - cbn [filterSeen]. destruct (bool_decide (key q ∈ seen)) eqn:Eq; [apply IH|].
    apply bool_decide_eq_false in Eq.
    destruct (IH ({[key q]} ∪ seen)) as [Hnd Hout]. split.
    + cbn [map]. constructor; [|exact Hnd].
      intros Hin. apply list_elem_of_fmap in Hin as (q' & Hk & Hq').
      apply (Hout q' Hq'). apply elem_of_union. left. by apply elem_of_singleton.
    + intros q' Hq'. apply elem_of_cons in Hq' as [->|Hq']; [exact Eq|].
      intros Hin. apply (Hout q' Hq'). apply elem_of_union. by right.
Qed.

End ClaudeDedup.

(** C2 (as the code has it).  The Claude extractor deduplicates on the
    first 100 characters of the trimmed text, compared exactly (case
    matters): the result is a subsequence of the candidates, no two results
    share these 100 characters, and for every such prefix the result holds
    exactly the first candidate, in document order, that has it. *)
Theorem claude_dedup (doc : DOM.forest) :
  let candidates := SITES.claude.candidates doc in
  let out := SITES.claude.getQueries doc in
  sublist out candidates /\
  NoDup (map (fun q => JS.substring0 100 (text q)) out) /\
  (forall k : string,
     List.filter (fun q => bool_decide (JS.substring0 100 (text q) = k)) out
     = match List.find (fun q => bool_decide (JS.substring0 100 (text q) = k)) candidates with
       | Some q => [q]
       | None => []
       end) /\
  Forall (fun q => text q = JS.trim (DOM.elementText (element q))) candidates.
Proof.
  cbv zeta. unfold SITES.claude.getQueries. split; [apply filterSeen_sublist|].
  split; [apply (filterSeen_NoDup SITES.claude.key)|]. split.
  - intros k.
    pose proof (filterSeen_by_key SITES.claude.key (SITES.claude.candidates doc) ∅ k) as H.
    rewrite bool_decide_eq_false_2 in H by apply not_elem_of_empty. exact H.
  - eapply Forall_impl; [apply claude_candidates_kept | intros q [_ H]; exact H].
Qed.

(** C2 as stated fails: two messages that differ only in case are both
    returned. *)
Lemma case_sensitive_prefix_keeps_both :
  let doc := [DOM.Elem "div" {[ "data-testid" := "user-message" ]} [DOM.Text "Hello"];
              DOM.Elem "div" {[ "data-testid" := "user-message" ]} [DOM.Text "hello"]] in
  map text (SITES.claude.candidates doc) = ["Hello"; "hello"] /\
  JS.toLowerCase (JS.substring0 100 "Hello") = JS.toLowerCase (JS.substring0 100 "hello") /\
  map text (SITES.claude.getQueries doc) = ["Hello"; "hello"].
Proof. repeat split; vm_compute; reflexivity. Qed.

(** ** The Gemini extractor on message blocks *)

Section GeminiBlocks.
Import DOM SITES SITES.gemini.












(** *** Blocks that are containers *)







(** *** Blocks that are plain elements *)




Lemma lineLoop_nil (fuel : nat) (groups : list query) : lineLoop fuel [] groups = groups.
Proof. by destruct fuel. Qed.


End GeminiBlocks.

Section GeminiFilter.
Import DOM SITES SITES.gemini.






Lemma collectRun_length (el : Element) (rest : list Element) (parts : list string) :
  (length (collectRun el parts rest).2 <= length rest)%nat.
Proof.
  revert parts; induction rest as [|n rest IH]; intros parts; [reflexivity|].
  cbn [collectRun]. destruct (_ && _); [|reflexivity].
  specialize (IH (parts ++ [elementText n])). cbn [length]. lia.
Qed.

(** The loop ends because the nodes run out, never for lack of fuel: more
    iterations than there are nodes change nothing. *)
Lemma lineLoop_fuel (fuel : nat) (rest : list Element) (groups : list query) :
  (length rest <= fuel)%nat ->
  lineLoop fuel rest groups = lineLoop (length rest) rest groups.
Proof.
  revert fuel groups. induction rest as [rest IH] using (induction_ltof1 _ (@length Element)).
  unfold ltof in IH. intros fuel groups Hf.
  destruct rest as [|el rest]; [by rewrite lineLoop_nil|].
  destruct fuel as [|fuel]; [cbn in Hf; lia|]. cbn [length lineLoop].
  cbn [length] in Hf. destruct (isLine el).
  - destruct (prevIsLine el).
    + apply IH; [cbn; lia | lia].
    + pose proof (collectRun_length el rest [elementText el]) as Hl.
      destruct (collectRun el [elementText el] rest) as [parts rest'']. cbn [snd] in Hl.
      rewrite (IH rest'') by (cbn; lia).
      symmetry. apply IH; [cbn; lia | lia].
  - apply IH; [cbn; lia | lia].
Qed.

End GeminiFilter.

(** ** Merged texts as words *)

Section Words.
















End Words.



(** The greeting filter on the example of the merge law: a message that
    starts with "Hello," is not returned, and of two messages that differ in
    case only the first is. *)
Example gemini_filters :
  map text (SITES.gemini.getQueries
              [SITES.gemini.containerBlock ["Hello,"; "how are you"];
               SITES.gemini.containerBlock ["Sort a"; "list"];
               SITES.gemini.containerBlock ["sort  A LIST"]]) = ["Sort a list"].
Proof. vm_compute. reflexivity. Qed.

(** * Further properties *)

(** ** PositionManager *)

(** X1. Constraining is idempotent: a constrained point is left as it is by
    a second constraint to the same viewport and element size. *)
Theorem constrainToViewport_idempotent (win : viewport) (x y w h : Z) :
  let p := PositionManager.constrainToViewport win x y w h in
  PositionManager.constrainToViewport win (px p) (py p) w h = p.
Proof.
  unfold PositionManager.constrainToViewport, CONSTANTS.PADDING. cbn. f_equal; lia.
Qed.

(** X2. What is saved is what is read back: the position after
    [savePosition], the flag after [saveCollapsedState]; the two keys do not
    disturb each other, and with nothing saved there is no position and the
    flag is false. *)
Theorem storage_round_trip (storageKey : string) (x y : Z) (b : bool)
    (localStorage : gmap string json) :
  PositionManager.getSavedPosition storageKey
    (PositionManager.savePosition storageKey x y localStorage) = Some (JPoint x y) /\
  PositionManager.getCollapsedState storageKey
    (PositionManager.saveCollapsedState storageKey b localStorage) = b /\
  PositionManager.getSavedPosition storageKey
    (PositionManager.saveCollapsedState storageKey b localStorage)
    = PositionManager.getSavedPosition storageKey localStorage /\
  PositionManager.getCollapsedState storageKey
    (PositionManager.savePosition storageKey x y localStorage)
    = PositionManager.getCollapsedState storageKey localStorage /\
  PositionManager.getSavedPosition storageKey ∅ = None /\
  PositionManager.getCollapsedState storageKey ∅ = false.
Proof.
  unfold PositionManager.getSavedPosition, PositionManager.getCollapsedState,
    PositionManager.savePosition, PositionManager.saveCollapsedState.
  pose proof (collapsedKey_ne storageKey) as Hne.
  rewrite !lookup_insert_eq, !lookup_empty.
  rewrite (lookup_insert_ne _ (PositionManager.collapsedKey storageKey) storageKey) by exact Hne.
  rewrite (lookup_insert_ne _ storageKey (PositionManager.collapsedKey storageKey))
    by (intros H; apply Hne; by symmetry).
  by repeat split.
Qed.

(** ** Placing the panel *)

Section PlacementFacts.
Import DragManager Placement.
Variable css : layout.
Variable win : viewport.
Variable storageKey : string.

Lemma constrain_inside (x y w h : Z) :
  w < innerWidth win - 2 * CONSTANTS.PADDING ->
  h < innerHeight win - 2 * CONSTANTS.PADDING ->
  let p := PositionManager.constrainToViewport win x y w h in
  CONSTANTS.PADDING <= px p <= innerWidth win - w - CONSTANTS.PADDING /\
  CONSTANTS.PADDING <= py p <= innerHeight win - h - CONSTANTS.PADDING.
Proof.
  unfold PositionManager.constrainToViewport, CONSTANTS.PADDING. cbn. lia.
Qed.

Lemma constrain_fixes_inside (x y w h : Z) :
  CONSTANTS.PADDING <= x <= innerWidth win - w - CONSTANTS.PADDING ->
  CONSTANTS.PADDING <= y <= innerHeight win - h - CONSTANTS.PADDING ->
  PositionManager.constrainToViewport win x y w h = {| px := x; py := y |}.
Proof.
  unfold PositionManager.constrainToViewport, CONSTANTS.PADDING. cbn. intros. f_equal; lia.
Qed.

Lemma applyPosition_sizes (x y : Z) (p : panel) :
  DragEvents.offsetWidth css (applyPosition x y p) = DragEvents.offsetWidth css p /\
  offsetHeight css (applyPosition x y p) = offsetHeight css p /\
  isCollapsed (applyPosition x y p) = isCollapsed p.
Proof. by repeat split. Qed.

End PlacementFacts.

(** X3. A window resize pulls the panel back into the viewport: when the
    panel leaves room for the padding, it lies inside the padded viewport
    afterwards; a panel that already lies inside is not touched and nothing
    is written to the storage; and a position that is written is the
    position of the panel.  Without a panel nothing happens. *)
Theorem handleWindowResize_inside (css : DragManager.layout) (win : viewport)
    (storageKey : string) (p : DragManager.panel) (localStorage : gmap string json) :
  let r := Placement.handleWindowResize css win storageKey (Some p) localStorage in
  (DragEvents.fitsViewport css win p ->
   exists p', r.1 = Some p' /\ DragEvents.insideViewport css win p') /\
  (DragEvents.insideViewport css win p -> r = (Some p, localStorage)) /\
  (r.2 = localStorage \/
   exists p', r.1 = Some p' /\
     PositionManager.getSavedPosition storageKey r.2
       = Some (JPoint (DragManager.left p') (DragManager.top p'))) /\
  Placement.handleWindowResize css win storageKey None localStorage = (None, localStorage).
Proof.
  cbv zeta. unfold Placement.handleWindowResize, DragManager.getBoundingClientRect.
  cbn [DragManager.r_left DragManager.r_top].
  set (c := PositionManager.constrainToViewport win _ _ _ _).
  split; [|split; [|split; [|reflexivity]]].
  - intros [Hw Hh]. pose proof (constrain_inside win (DragManager.left p) (DragManager.top p)
                                  _ _ Hw Hh) as Hin. cbv zeta in Hin. fold c in Hin.
    destruct (negb _ || negb _) eqn:E.
    + eexists. split; [reflexivity|]. exact Hin.
    + apply orb_false_iff in E as [E1 E2].
      apply negb_false_iff, Z.eqb_eq in E1. apply negb_false_iff, Z.eqb_eq in E2.
      eexists. split; [reflexivity|]. unfold DragEvents.insideViewport.
      rewrite <- E1, <- E2. exact Hin.
  - intros [Hx Hy]. subst c. rewrite (constrain_fixes_inside win _ _ _ _ Hx Hy).
    cbn [px py]. by rewrite !Z.eqb_refl.
  - destruct (negb _ || negb _); [right | by left].
    eexists. split; [reflexivity|]. cbn.
    unfold PositionManager.getSavedPosition, PositionManager.savePosition.
    by rewrite lookup_insert_eq.
Qed.

Lemma handleWindowResize_inside_witness :
  let css := {| DragManager.boxWidth := fun c => if c then 48 else 300;
                DragManager.boxHeight := fun c => if c then 48 else 400 |} in
  let win := {| innerWidth := 800; innerHeight := 600 |} in
  let p := {| DragManager.classList := ["theme-gemini"]; DragManager.dataset := ∅;
              DragManager.left := 940; DragManager.top := 60 |} in
  exists p',
    (Placement.handleWindowResize css win "gemini-toc-position" (Some p) ∅).1 = Some p' /\
    DragEvents.insideViewport css win p'.
Proof.
  intros css win p.
  apply (handleWindowResize_inside css win "gemini-toc-position" p ∅).
  vm_compute. split; reflexivity.
Defined.

Section InitialPlacement.
Import DragManager Placement.
Variable css : layout.
Variable win : viewport.
Variable storageKey : string.

Lemma applyInitialPosition_saved_point (p : panel) (localStorage : gmap string json)
    (sx sy : Z) :
  localStorage !! storageKey = Some (JPoint sx sy) ->
  applyInitialPosition css win storageKey p localStorage =
  let c := PositionManager.constrainToViewport win sx sy
             (orDefault (DragEvents.offsetWidth css p) 300)
             (orDefault (offsetHeight css p) 400) in
  Some (applyPosition (px c) (py c) p,
        PositionManager.savePosition storageKey (px c) (py c) localStorage).
Proof.
  intros H. unfold applyInitialPosition, PositionManager.getSavedPosition. by rewrite H.
Qed.

Lemma applyInitialPosition_stable (p : panel) (localStorage : gmap string json) (x y : Z) :
  let c := PositionManager.constrainToViewport win x y
             (orDefault (DragEvents.offsetWidth css p) 300)
             (orDefault (offsetHeight css p) 400) in
  let p2 := applyPosition (px c) (py c) p in
  let ls2 := PositionManager.savePosition storageKey (px c) (py c) localStorage in
  applyInitialPosition css win storageKey p2 ls2 = Some (p2, ls2).
Proof.
  intros c p2 ls2.
  rewrite (applyInitialPosition_saved_point p2 ls2 (px c) (py c))
    by apply lookup_insert_eq.
  cbv zeta. change (DragEvents.offsetWidth css p2) with (DragEvents.offsetWidth css p).
  change (offsetHeight css p2) with (offsetHeight css p).
  pose proof (constrainToViewport_idempotent win x y
                (orDefault (DragEvents.offsetWidth css p) 300)
                (orDefault (offsetHeight css p) 400)) as Hi.
  cbv zeta in Hi. fold c in Hi. rewrite Hi.
  subst p2 ls2. unfold PositionManager.savePosition, applyPosition. cbn.
  by rewrite insert_insert_eq.
Qed.

Lemma applyInitialPosition_again (p : panel) (localStorage : gmap string json) (x y : Z) :
  match applyInitialPosition css win storageKey (applyPosition x y p)
          (PositionManager.savePosition storageKey x y localStorage) with
  | Some (p2, ls2) => applyInitialPosition css win storageKey p2 ls2 = Some (p2, ls2)
  | None => False
  end.
Proof.
  rewrite (applyInitialPosition_saved_point (applyPosition x y p)
             (PositionManager.savePosition storageKey x y localStorage) x y)
    by apply lookup_insert_eq.
  cbv zeta. apply applyInitialPosition_stable.
Qed.

End InitialPlacement.

(** X4. The first placement of a panel: the position given to the panel is
    the position saved.  With nothing saved it is the top-right corner, 40
    from the right edge and 60 from the top (for a panel width of 0 the
    width 300 is taken); with a saved point it is that point constrained to
    the viewport.  Placing again, as every rebuild does, moves the panel at
    most once more: from the second placement on nothing changes. *)
Theorem applyInitialPosition_placement (css : DragManager.layout) (win : viewport)
    (storageKey : string) (p : DragManager.panel) (localStorage : gmap string json) :
  let place := Placement.applyInitialPosition css win storageKey in
  let width := Placement.orDefault (DragEvents.offsetWidth css p) 300 in
  let height := Placement.orDefault (DragManager.offsetHeight css p) 400 in
  match place p localStorage with
  | None => localStorage !! storageKey = Some (JBool true)
  | Some (p1, ls1) =>
      PositionManager.getSavedPosition storageKey ls1
        = Some (JPoint (DragManager.left p1) (DragManager.top p1)) /\
      DragManager.classList p1 = DragManager.classList p /\
      match localStorage !! storageKey with
      | Some (JPoint sx sy) =>
          {| px := DragManager.left p1; py := DragManager.top p1 |}
          = PositionManager.constrainToViewport win sx sy width height
      | _ => DragManager.left p1 = innerWidth win - width - 40 /\ DragManager.top p1 = 60
      end /\
      match place p1 ls1 with
      | Some (p2, ls2) => place p2 ls2 = Some (p2, ls2)
      | None => False
      end
  end.
Proof.
  cbv zeta. unfold Placement.applyInitialPosition at 1, PositionManager.getSavedPosition at 1.
  destruct (localStorage !! storageKey) as [[[|]|sx sy]|] eqn:E; cbn [fst snd].
  - reflexivity.
  - split; [apply lookup_insert_eq|]. split; [reflexivity|]. split; [by split|].
    apply applyInitialPosition_again.
  - split; [apply lookup_insert_eq|]. split; [reflexivity|]. split.
    { cbn [DragManager.applyPosition DragManager.left DragManager.top].
      generalize (PositionManager.constrainToViewport win sx sy
                    (Placement.orDefault (DragEvents.offsetWidth css p) 300)
                    (Placement.orDefault (DragManager.offsetHeight css p) 400)).
      by intros []. }
    apply applyInitialPosition_again.
  - split; [apply lookup_insert_eq|]. split; [reflexivity|]. split; [by split|].
    apply applyInitialPosition_again.
Qed.

(** ** Drag gestures *)

Section DragFacts.
Import DragManager DragEvents.
Variable css : layout.
Variable win : viewport.
Variable storageKey : string.

Lemma gesture_snoc (evs : list event) (ev : event) (w : world) :
  gesture css win storageKey (evs ++ [ev]) w
  = dispatch css win storageKey (gesture css win storageKey evs w) ev.
Proof. unfold gesture. by rewrite fold_left_app. Qed.

Lemma withHasMoved_same (m : manager) : withHasMoved (hasMoved m) m = m.
Proof. by destruct m. Qed.

(** One mouse move during a drag. *)
Lemma drag_step (e : mouseEvent) (w : world) :
  isDragging (mgr w) = true ->
  let moved := hasMoved (mgr w) || overThreshold 3 (mgr w) (clientX e) (clientY e) in
  let w' := drag css win e w in
  mgr w' = withHasMoved moved (mgr w) /\
  storage w' = storage w /\
  classList (el w') = classList (el w) /\
  dataset (el w') = dataset (el w) /\
  if moved
  then {| px := left (el w'); py := top (el w') |}
       = followed css win (mgr w) (el w) (clientX e) (clientY e)
  else el w' = el w.
Proof.
  intros Hd. cbv zeta. unfold drag, moveTo, overThreshold, followed. rewrite Hd. cbn [negb].
  destruct w as [m p ls]. cbn [mgr el storage] in *.
  destruct m as [dr hm ct sx sy ex ey ml tl st]. cbn in Hd. subst dr. cbn.
  destruct hm; cbn [negb andb orb].
  - by repeat split.
  - destruct (Z.abs _ <? 3); [destruct (Z.abs _ <? 3)|]; cbn [andb negb]; by repeat split.
Qed.

Lemma followed_same (m m' : manager) (p p' : panel) (x y : Z) :
  startX m' = startX m -> startY m' = startY m ->
  startElementX m' = startElementX m -> startElementY m' = startElementY m ->
  classList p' = classList p ->
  followed css win m' p' x y = followed css win m p x y.
Proof.
  intros H1 H2 H3 H4 H5. unfold followed, offsetWidth, offsetHeight, isCollapsed.
  by rewrite H1, H2, H3, H4, H5.
Qed.

(** A run of mouse moves during a drag: the element follows the last one,
    once one of them has passed the threshold. *)
Lemma drag_moves (ms : list mouseEvent) (w : world) :
  isDragging (mgr w) = true -> mouseListening (mgr w) = true ->
  let moved :=
    hasMoved (mgr w)
    || existsb (fun e => overThreshold 3 (mgr w) (clientX e) (clientY e)) ms in
  let w' := gesture css win storageKey (map MouseMove ms) w in
  mgr w' = withHasMoved moved (mgr w) /\
  storage w' = storage w /\
  classList (el w') = classList (el w) /\
  dataset (el w') = dataset (el w) /\
  match last ms with
  | Some e =>
      if moved
      then {| px := left (el w'); py := top (el w') |}
           = followed css win (mgr w) (el w) (clientX e) (clientY e)
      else el w' = el w
  | None => el w' = el w
  end.
Proof.
  intros Hd Hl. induction ms as [|e ms IH] using rev_ind.
  - cbn. rewrite orb_false_r. by rewrite withHasMoved_same.
  - cbv zeta in *. rewrite map_app. cbn [map]. rewrite gesture_snoc, last_snoc, existsb_app.
    cbn [existsb].
    destruct IH as (Hm & Hs & Hc & Hds & Hp).
    set (w1 := gesture css win storageKey (map MouseMove ms) w) in *.
    cbn [dispatch]. rewrite Hm. cbn [withHasMoved mouseListening]. rewrite Hl.
    assert (Hd1 : isDragging (mgr w1) = true) by (rewrite Hm; exact Hd).
    pose proof (drag_step e w1 Hd1) as Hstep. cbv zeta in Hstep.
    destruct Hstep as (Hm' & Hs' & Hc' & Hds' & Hp').
    rewrite Hm' , Hs', Hc', Hds', Hs, Hc, Hds.
    assert (Ho : overThreshold 3 (mgr w1) (clientX e) (clientY e)
                 = overThreshold 3 (mgr w) (clientX e) (clientY e))
      by (rewrite Hm; reflexivity).
    rewrite Ho in *. rewrite orb_false_r.
    assert (Hh : hasMoved (mgr w1)
                 = hasMoved (mgr w)
                   || existsb (fun e => overThreshold 3 (mgr w) (clientX e) (clientY e)) ms)
      by (rewrite Hm; reflexivity).
    rewrite Hh in *. rewrite orb_assoc.
    split; [rewrite Hm; reflexivity|]. do 3 (split; [reflexivity|]).
    destruct (_ || _ || _) eqn:E.
    + rewrite Hp'. apply followed_same; try (rewrite Hm; reflexivity). exact Hc.
    + rewrite Hp'. apply orb_false_iff in E as [E _]. rewrite E in Hp.
      by destruct (last ms).
Qed.

End DragFacts.

(** X5. A mouse drag of the panel by its header (a press that is not on
    the toggle button, any moves, a release).  While every move stays less
    than 3 away from the press point in both directions the panel does not
    move; once a move has passed that threshold the panel follows the
    pointer, and after the release it sits where the last move put it: its
    position at the press plus the pointer's displacement, constrained to
    the viewport.  The release saves the position of the panel, clears the
    drag state and detaches the listeners, so that later moves and releases
    do nothing. *)
Theorem drag_follows_pointer (css : DragManager.layout) (win : viewport) (storageKey : string)
    (w : DragEvents.world) (e0 : DragEvents.mouseEvent) (ms : list DragEvents.mouseEvent) :
  DragEvents.onToggleBtn e0 = false ->
  let w' :=
    DragEvents.gesture css win storageKey
      (DragEvents.MouseDown e0 :: map DragEvents.MouseMove ms ++ [DragEvents.MouseUp]) w in
  let p := DragEvents.el w in
  let p' := DragEvents.el w' in
  let moved :=
    existsb (fun e =>
               negb ((Z.abs (DragEvents.clientX e - DragEvents.clientX e0) <? 3)
                     && (Z.abs (DragEvents.clientY e - DragEvents.clientY e0) <? 3))) ms in
  (DragEvents.isDragging (DragEvents.mgr w') = false /\
   DragEvents.mouseListening (DragEvents.mgr w') = false /\
   DragEvents.dragStyles (DragEvents.mgr w') = false) /\
  DragManager.classList p' = DragManager.classList p /\
  PositionManager.getSavedPosition storageKey (DragEvents.storage w')
    = Some (JPoint (DragManager.left p') (DragManager.top p')) /\
  match last ms with
  | Some e =>
      if moved
      then {| px := DragManager.left p'; py := DragManager.top p' |}
           = PositionManager.constrainToViewport win
               (DragManager.left p + (DragEvents.clientX e - DragEvents.clientX e0))
               (DragManager.top p + (DragEvents.clientY e - DragEvents.clientY e0))
               (DragEvents.offsetWidth css p) (DragManager.offsetHeight css p)
      else DragManager.left p' = DragManager.left p /\ DragManager.top p' = DragManager.top p
  | None => DragManager.left p' = DragManager.left p /\ DragManager.top p' = DragManager.top p
  end /\
  (forall e, DragEvents.dispatch css win storageKey w' (DragEvents.MouseMove e) = w') /\
  DragEvents.dispatch css win storageKey w' DragEvents.MouseUp = w'.
Proof.
  intros Htoggle. cbv zeta.
  change (DragEvents.gesture css win storageKey
            (DragEvents.MouseDown e0 :: map DragEvents.MouseMove ms ++ [DragEvents.MouseUp]) w)
    with (DragEvents.gesture css win storageKey
            (map DragEvents.MouseMove ms ++ [DragEvents.MouseUp])
            (DragEvents.startDrag css win storageKey e0 w)).
  rewrite gesture_snoc. unfold DragEvents.startDrag. rewrite Htoggle. cbn [andb].
  set (w0 := DragEvents.beginDrag css false _ _ true w).
  pose proof (drag_moves css win storageKey ms w0 eq_refl eq_refl) as H. cbv zeta in H.
  destruct H as (Hm & Hs & Hc & Hd & Hp).
  set (w1 := DragEvents.gesture css win storageKey (map DragEvents.MouseMove ms) w0) in *.
  cbn [DragEvents.dispatch]. rewrite Hm.
  cbn [DragEvents.withHasMoved DragEvents.mouseListening DragEvents.mgr w0 DragEvents.beginDrag].
  unfold DragEvents.stopDrag. rewrite Hm.
  cbn [DragEvents.withHasMoved DragEvents.isDragging DragEvents.mgr w0 DragEvents.beginDrag negb].
  unfold DragEvents.endDrag. rewrite Hm.
  cbn [DragEvents.withHasMoved DragEvents.isClickOnToggle DragEvents.hasMoved DragEvents.mgr w0
       DragEvents.beginDrag].
  rewrite andb_false_r.
  cbn [DragEvents.mgr DragEvents.el DragEvents.storage DragEvents.isDragging
       DragEvents.mouseListening DragEvents.dragStyles].
  split; [by repeat split|]. split; [rewrite Hc; reflexivity|]. split.
  { unfold PositionManager.getSavedPosition, PositionManager.savePosition.
    by rewrite lookup_insert_eq. }
  split; [|by split].
  cbn [orb DragEvents.hasMoved w0 DragEvents.beginDrag DragEvents.mgr] in Hp.
  destruct (last ms) as [e|].
  - unfold DragEvents.overThreshold in Hp.
    cbn [DragEvents.startX DragEvents.startY w0 DragEvents.beginDrag DragEvents.mgr] in Hp.
    destruct (existsb _ ms).
    + rewrite Hp. reflexivity.
    + rewrite Hp. by split.
  - rewrite Hp. by split.
Qed.

Lemma drag_follows_pointer_witness :
  let css := {| DragManager.boxWidth := fun c => if c then 48 else 300;
                DragManager.boxHeight := fun c => if c then 48 else 400 |} in
  let win := {| innerWidth := 1280; innerHeight := 720 |} in
  let w := {| DragEvents.mgr := DragEvents.constructed;
              DragEvents.el := {| DragManager.classList := ["theme-chatgpt"];
                                  DragManager.dataset := ∅;
                                  DragManager.left := 940; DragManager.top := 60 |};
              DragEvents.storage := ∅ |} in
  let press := {| DragEvents.clientX := 1000; DragEvents.clientY := 70;
                  DragEvents.onToggleBtn := false |} in
  let move x y := {| DragEvents.clientX := x; DragEvents.clientY := y;
                     DragEvents.onToggleBtn := false |} in
  let w' := DragEvents.gesture css win "chatgpt-toc-position"
              (DragEvents.MouseDown press
               :: map DragEvents.MouseMove [move 1001 71; move 600 300; move 100 900]
               ++ [DragEvents.MouseUp]) w in
  PositionManager.getSavedPosition "chatgpt-toc-position" (DragEvents.storage w')
    = Some (JPoint 40 310).
Proof.
  intros css win w press move w'.
  pose proof (drag_follows_pointer css win "chatgpt-toc-position" w press
                [move 1001 71; move 600 300; move 100 900] eq_refl) as H.
  cbv zeta in H. destruct H as (_ & _ & Hs & _). exact Hs.
Defined.

(** X6. During a drag the panel never leaves the viewport: after a press
    that starts a drag and any moves, a panel that leaves room for the
    padding and has followed the pointer lies inside the padded viewport,
    wherever the pointer is. *)
Theorem drag_stays_inside (css : DragManager.layout) (win : viewport) (storageKey : string)
    (w : DragEvents.world) (e0 : DragEvents.mouseEvent) (ms : list DragEvents.mouseEvent) :
  DragEvents.onToggleBtn e0 && negb (DragManager.isCollapsed (DragEvents.el w)) = false ->
  DragEvents.fitsViewport css win (DragEvents.el w) ->
  let w' :=
    DragEvents.gesture css win storageKey
      (DragEvents.MouseDown e0 :: map DragEvents.MouseMove ms) w in
  DragEvents.hasMoved (DragEvents.mgr w') = true ->
  DragEvents.insideViewport css win (DragEvents.el w').
Proof.
  intros Hstart [Hw Hh]. cbv zeta.
  change (DragEvents.gesture css win storageKey
            (DragEvents.MouseDown e0 :: map DragEvents.MouseMove ms) w)
    with (DragEvents.gesture css win storageKey (map DragEvents.MouseMove ms)
            (DragEvents.startDrag css win storageKey e0 w)).
  unfold DragEvents.startDrag. rewrite Hstart.
  set (w0 := DragEvents.beginDrag css _ _ _ true w).
  pose proof (drag_moves css win storageKey ms w0 eq_refl eq_refl) as H. cbv zeta in H.
  destruct H as (Hm & _ & Hc & _ & Hp).
  set (w1 := DragEvents.gesture css win storageKey (map DragEvents.MouseMove ms) w0) in *.
  set (mv := DragEvents.hasMoved (DragEvents.mgr w0) || _) in *.
  rewrite Hm. cbn [DragEvents.withHasMoved DragEvents.hasMoved].
  intros Hmoved. rewrite Hmoved in Hp.
  destruct (last ms) as [e|] eqn:El;
    [|apply last_None in El; subst ms mv; discriminate Hmoved].
  unfold DragEvents.insideViewport, DragEvents.offsetWidth, DragManager.offsetHeight,
    DragManager.isCollapsed in *. rewrite Hc.
  cbn [DragManager.classList DragManager.applyPosition w0 DragEvents.beginDrag DragEvents.el].
  injection Hp as -> ->.
  apply (constrain_inside win); assumption.
Qed.

Lemma drag_stays_inside_witness :
  let css := {| DragManager.boxWidth := fun c => if c then 48 else 300;
                DragManager.boxHeight := fun c => if c then 48 else 400 |} in
  let win := {| innerWidth := 1280; innerHeight := 720 |} in
  let w := {| DragEvents.mgr := DragEvents.constructed;
              DragEvents.el := {| DragManager.classList := ["theme-chatgpt"];
                                  DragManager.dataset := ∅;
                                  DragManager.left := 940; DragManager.top := 60 |};
              DragEvents.storage := ∅ |} in
  let press := {| DragEvents.clientX := 1000; DragEvents.clientY := 70;
                  DragEvents.onToggleBtn := false |} in
  let far := {| DragEvents.clientX := 5000; DragEvents.clientY := -3000;
                DragEvents.onToggleBtn := false |} in
  DragEvents.insideViewport css win
    (DragEvents.el (DragEvents.gesture css win "chatgpt-toc-position"
                      [DragEvents.MouseDown press; DragEvents.MouseMove far] w)).
Proof.
  intros css win w press far.
  apply (drag_stays_inside css win "chatgpt-toc-position" w press [far]).
  - reflexivity.
  - vm_compute. split; reflexivity.
  - reflexivity.
Defined.

Section ToggleClicks.
Import DragManager DragEvents.
Variable css : layout.
Variable win : viewport.
Variable storageKey : string.

Lemma collapse_result (p : panel) (ls : gmap string json) :
  isCollapsed p = false ->
  let r := toggleCollapse css win storageKey false (p, ls) in
  left r.1 = left p + boxWidth css false - 48 /\
  top r.1 = top p /\
  isCollapsed r.1 = true /\
  dataset r.1 !! "expandedWidth" = Some (boxWidth css false) /\
  PositionManager.getCollapsedState storageKey r.2 = true /\
  PositionManager.getSavedPosition storageKey r.2
    = Some (JPoint (left p + boxWidth css false - 48) (top p)).
Proof.
  intros Hexp. cbv zeta. unfold toggleCollapse. cbn [negb fst snd].
  unfold getBoundingClientRect. rewrite Hexp. cbn [r_left r_top r_width].
  split; [reflexivity|]. split; [reflexivity|]. split.
  { unfold isCollapsed. cbn [classList applyPosition]. apply isCollapsed_classAdd. }
  split; [cbn; apply lookup_insert_eq|].
  unfold PositionManager.getSavedPosition, PositionManager.getCollapsedState,
    PositionManager.saveCollapsedState, PositionManager.savePosition.
  rewrite lookup_insert_eq, lookup_insert_ne by apply collapsedKey_ne.
  by rewrite lookup_insert_eq.
Qed.

Lemma expand_result (p : panel) (ls : gmap string json) :
  let r := toggleCollapse css win storageKey true (p, ls) in
  let c := PositionManager.constrainToViewport win
             (left p - (rememberedWidth p - 48)) (top p)
             (rememberedWidth p) (boxHeight css false) in
  left r.1 = px c /\ top r.1 = py c /\
  isCollapsed r.1 = false /\
  PositionManager.getCollapsedState storageKey r.2 = false /\
  PositionManager.getSavedPosition storageKey r.2 = Some (JPoint (px c) (py c)).
Proof.
  cbv zeta. unfold toggleCollapse. cbn [negb fst snd].
  unfold getBoundingClientRect, offsetHeight. rewrite isCollapsed_classRemove.
  cbn [r_left r_top applyPosition left top].
  split; [reflexivity|]. split; [reflexivity|]. split.
  { unfold isCollapsed. cbn [classList applyPosition]. apply isCollapsed_classRemove. }
  unfold PositionManager.getSavedPosition, PositionManager.getCollapsedState,
    PositionManager.saveCollapsedState, PositionManager.savePosition.
  rewrite lookup_insert_eq, lookup_insert_ne by apply collapsedKey_ne.
  by rewrite lookup_insert_eq.
Qed.

Lemma click_on_collapsed (w : world) (e : mouseEvent) :
  isCollapsed (el w) = true ->
  gesture css win storageKey [MouseDown e; MouseUp] w
  = endDrag css win storageKey true
      (beginDrag css (onToggleBtn e) (clientX e) (clientY e) true w).
Proof.
  intros Hc. unfold gesture. cbn [fold_left dispatch].
  unfold startDrag. rewrite Hc. cbn [negb]. rewrite andb_false_r.
  unfold beginDrag at 1. cbn [mgr mouseListening].
  unfold stopDrag. unfold beginDrag at 1. cbn [mgr isDragging negb]. reflexivity.
Qed.

End ToggleClicks.

(** X7. Two clicks on the toggle button.  On an expanded panel of positive
    width that is not being dragged, the press of the first click collapses
    the panel at once, without starting a drag, and saves the collapsed
    flag; the second click (press and release without a move) expands it
    again, at the position it had before the first click, constrained to
    the viewport, and saves that position and the cleared flag. *)
Theorem toggle_clicks (css : DragManager.layout) (win : viewport) (storageKey : string)
    (w : DragEvents.world) (e1 e2 : DragEvents.mouseEvent) :
  DragEvents.isDragging (DragEvents.mgr w) = false ->
  DragManager.isCollapsed (DragEvents.el w) = false ->
  0 < DragManager.boxWidth css false ->
  DragEvents.onToggleBtn e1 = true ->
  DragEvents.onToggleBtn e2 = true ->
  let p := DragEvents.el w in
  let w1 := DragEvents.gesture css win storageKey
              [DragEvents.MouseDown e1; DragEvents.MouseUp] w in
  let w2 := DragEvents.gesture css win storageKey
              [DragEvents.MouseDown e2; DragEvents.MouseUp] w1 in
  let c := PositionManager.constrainToViewport win (DragManager.left p) (DragManager.top p)
             (DragManager.boxWidth css false) (DragManager.boxHeight css false) in
  (DragEvents.mgr w1 = DragEvents.mgr w /\
   DragManager.isCollapsed (DragEvents.el w1) = true /\
   DragManager.left (DragEvents.el w1)
     = DragManager.left p + DragManager.boxWidth css false - 48 /\
   PositionManager.getCollapsedState storageKey (DragEvents.storage w1) = true) /\
  (DragEvents.isDragging (DragEvents.mgr w2) = false /\
   DragEvents.mouseListening (DragEvents.mgr w2) = false /\
   DragManager.isCollapsed (DragEvents.el w2) = false /\
   DragManager.left (DragEvents.el w2) = px c /\
   DragManager.top (DragEvents.el w2) = py c /\
   PositionManager.getCollapsedState storageKey (DragEvents.storage w2) = false /\
   PositionManager.getSavedPosition storageKey (DragEvents.storage w2)
     = Some (JPoint (px c) (py c))).
Proof.
  intros Hidle Hexp Hpos H1 H2. cbv zeta.
  (* the first click *)
  assert (Hw1 : DragEvents.gesture css win storageKey
                  [DragEvents.MouseDown e1; DragEvents.MouseUp] w
                = DragEvents.collapseOrExpand css win storageKey false w).
  { unfold DragEvents.gesture. cbn [fold_left DragEvents.dispatch].
    unfold DragEvents.startDrag. rewrite H1, Hexp. cbn [andb negb].
    unfold DragEvents.collapseOrExpand.
    destruct (DragManager.toggleCollapse _ _ _ _ _) as [p1 ls1].
    cbn [DragEvents.mgr]. unfold DragEvents.stopDrag. cbn [DragEvents.mgr].
    rewrite Hidle. cbn [negb]. by destruct (DragEvents.mouseListening _). }
  rewrite Hw1.
  pose proof (collapse_result css win storageKey (DragEvents.el w) (DragEvents.storage w) Hexp)
    as Hc. cbv zeta in Hc.
  destruct (DragManager.toggleCollapse css win storageKey false _) as [p1 ls1] eqn:E1.
  cbn [fst snd] in Hc. destruct Hc as (Hl1 & Ht1 & Hc1 & Hd1 & Hf1 & Hs1).
  assert (Hw1' : DragEvents.collapseOrExpand css win storageKey false w
                 = {| DragEvents.mgr := DragEvents.mgr w; DragEvents.el := p1;
                      DragEvents.storage := ls1 |})
    by (unfold DragEvents.collapseOrExpand; by rewrite E1).
  rewrite Hw1'.
  cbn [DragEvents.mgr DragEvents.el DragEvents.storage].
  split; [by repeat split|].
  (* the second click *)
  rewrite click_on_collapsed by exact Hc1. rewrite H2.
  unfold DragEvents.endDrag, DragEvents.beginDrag.
  cbn [DragEvents.mgr DragEvents.el DragEvents.storage DragEvents.hasMoved
       DragEvents.isClickOnToggle negb andb].
  set (p1' := DragManager.applyPosition _ _ p1).
  set (ls1' := PositionManager.savePosition storageKey _ _ ls1).
  pose proof (expand_result css win storageKey p1' ls1') as He. cbv zeta in He.
  destruct (DragManager.toggleCollapse css win storageKey true _) as [p2 ls2] eqn:E2.
  cbn [fst snd] in He. destruct He as (Hl2 & Ht2 & Hc2 & Hf2 & Hs2).
  cbn [DragEvents.mgr DragEvents.el DragEvents.storage DragEvents.isDragging
       DragEvents.mouseListening].
  assert (Hrw : DragManager.rememberedWidth p1' = DragManager.boxWidth css false).
  { unfold DragManager.rememberedWidth. subst p1'. cbn [DragManager.dataset
      DragManager.applyPosition]. rewrite Hd1.
    destruct (DragManager.boxWidth css false =? 0) eqn:E0; [|reflexivity].
    apply Z.eqb_eq in E0. lia. }
  rewrite Hrw in *.
  assert (Hx : DragManager.left p1' - (DragManager.boxWidth css false - 48)
               = DragManager.left (DragEvents.el w)).
  { subst p1'. unfold DragManager.getBoundingClientRect. cbn. lia. }
  assert (Hy : DragManager.top p1' = DragManager.top (DragEvents.el w)).
  { subst p1'. unfold DragManager.getBoundingClientRect. cbn. exact Ht1. }
  rewrite Hx, Hy in *. by repeat split.
Qed.

Lemma toggle_clicks_witness :
  let css := {| DragManager.boxWidth := fun c => if c then 48 else 300;
                DragManager.boxHeight := fun c => if c then 48 else 400 |} in
  let win := {| innerWidth := 1280; innerHeight := 720 |} in
  let w := {| DragEvents.mgr := DragEvents.constructed;
              DragEvents.el := {| DragManager.classList := ["theme-claude"];
                                  DragManager.dataset := ∅;
                                  DragManager.left := 1100; DragManager.top := 60 |};
              DragEvents.storage := ∅ |} in
  let click := {| DragEvents.clientX := 1350; DragEvents.clientY := 70;
                  DragEvents.onToggleBtn := true |} in
  let w2 := DragEvents.gesture css win "claude-toc-position"
              [DragEvents.MouseDown click; DragEvents.MouseUp;
               DragEvents.MouseDown click; DragEvents.MouseUp] w in
  DragManager.left (DragEvents.el w2) = 970 /\ DragManager.top (DragEvents.el w2) = 60.
Proof.
  intros css win w click w2.
  pose proof (toggle_clicks css win "claude-toc-position" w click click
                eq_refl eq_refl eq_refl eq_refl eq_refl) as H.
  cbv zeta in H. destruct H as (_ & _ & _ & _ & Hl & Ht & _). split; [exact Hl | exact Ht].
Defined.

Section TouchFacts.
Import DragManager DragEvents.
Variable css : layout.
Variable win : viewport.
Variable storageKey : string.

Lemma touch_step (pt : Z * Z) (w : world) :
  isDragging (mgr w) = true ->
  let moved := hasMoved (mgr w) || overThreshold 5 (mgr w) pt.1 pt.2 in
  let w' := touchDrag css win (oneFinger pt) w in
  mgr w' = withHasMoved moved (mgr w) /\
  storage w' = storage w /\
  classList (el w') = classList (el w) /\
  dataset (el w') = dataset (el w) /\
  if moved
  then {| px := left (el w'); py := top (el w') |} = followed css win (mgr w) (el w) pt.1 pt.2
  else el w' = el w.
Proof.
  intros Hd. cbv zeta. unfold touchDrag, oneFinger, moveTo, overThreshold, followed.
  rewrite Hd. cbn [negb touches].
  destruct w as [m p ls]. cbn [mgr el storage] in *.
  destruct m as [dr hm ct sx sy ex ey ml tl st]. cbn in Hd. subst dr. cbn.
  destruct hm; cbn [negb andb orb].
  - by repeat split.
  - destruct (Z.abs _ <? 5); [destruct (Z.abs _ <? 5)|]; cbn [andb negb]; by repeat split.
Qed.

Lemma touch_moves (pts : list (Z * Z)) (w : world) :
  isDragging (mgr w) = true -> touchListening (mgr w) = true ->
  let moved :=
    hasMoved (mgr w) || existsb (fun pt => overThreshold 5 (mgr w) pt.1 pt.2) pts in
  let w' := gesture css win storageKey (map (fun pt => TouchMove (oneFinger pt)) pts) w in
  mgr w' = withHasMoved moved (mgr w) /\
  storage w' = storage w /\
  classList (el w') = classList (el w) /\
  dataset (el w') = dataset (el w) /\
  match last pts with
  | Some pt =>
      if moved
      then {| px := left (el w'); py := top (el w') |}
           = followed css win (mgr w) (el w) pt.1 pt.2
      else el w' = el w
  | None => el w' = el w
  end.
Proof.
  intros Hd Hl. induction pts as [|pt pts IH] using rev_ind.
  - cbn. rewrite orb_false_r. by rewrite withHasMoved_same.
  - cbv zeta in *. rewrite map_app. cbn [map]. rewrite gesture_snoc, last_snoc, existsb_app.
    cbn [existsb].
    destruct IH as (Hm & Hs & Hc & Hds & Hp).
    set (w1 := gesture css win storageKey (map (fun pt => TouchMove (oneFinger pt)) pts) w)
      in *.
    cbn [dispatch]. rewrite Hm. cbn [withHasMoved touchListening]. rewrite Hl.
    assert (Hd1 : isDragging (mgr w1) = true) by (rewrite Hm; exact Hd).
    pose proof (touch_step pt w1 Hd1) as Hstep. cbv zeta in Hstep.
    destruct Hstep as (Hm' & Hs' & Hc' & Hds' & Hp').
    rewrite Hm' , Hs', Hc', Hds', Hs, Hc, Hds.
    assert (Ho : overThreshold 5 (mgr w1) pt.1 pt.2 = overThreshold 5 (mgr w) pt.1 pt.2)
      by (rewrite Hm; reflexivity).
    rewrite Ho in *. rewrite orb_false_r.
    assert (Hh : hasMoved (mgr w1)
                 = hasMoved (mgr w)
                   || existsb (fun pt => overThreshold 5 (mgr w) pt.1 pt.2) pts)
      by (rewrite Hm; reflexivity).
    rewrite Hh in *. rewrite orb_assoc.
    split; [rewrite Hm; reflexivity|]. do 3 (split; [reflexivity|]).
    destruct (_ || _ || _) eqn:E.
    + rewrite Hp'. apply followed_same; try (rewrite Hm; reflexivity). exact Hc.
    + rewrite Hp'. apply orb_false_iff in E as [E _]. rewrite E in Hp.
      by destruct (last pts).
Qed.

End TouchFacts.

(** X8. A touch drag.  A touch on the export button never starts a drag,
    nor does a touch with more than one finger, and a move with more than
    one finger is ignored.  A one-finger touch on the header (not on a
    button) followed by one-finger moves and a release works as the mouse
    drag does, with a threshold of 5: below it the panel stays, beyond it
    the panel ends where the last move put it, constrained to the viewport;
    the release saves the position and clears the drag state. *)
Theorem touch_drag (css : DragManager.layout) (win : viewport) (storageKey : string)
    (w : DragEvents.world) (p0 : Z * Z) (pts : list (Z * Z)) (e : DragEvents.touchEvent) :
  let w' :=
    DragEvents.gesture css win storageKey
      (DragEvents.TouchStart (DragEvents.oneFinger p0)
       :: map (fun pt => DragEvents.TouchMove (DragEvents.oneFinger pt)) pts
       ++ [DragEvents.TouchEnd]) w in
  let p := DragEvents.el w in
  let p' := DragEvents.el w' in
  let moved :=
    existsb (fun pt => negb ((Z.abs (pt.1 - p0.1) <? 5) && (Z.abs (pt.2 - p0.2) <? 5))) pts in
  (DragEvents.touchOnExportBtn e = true -> DragEvents.touchStart css win storageKey e w = w) /\
  (DragEvents.touchOnToggleBtn e = false -> length (DragEvents.touches e) <> 1%nat ->
   DragEvents.touchStart css win storageKey e w = w /\
   DragEvents.touchDrag css win e w = w) /\
  (DragEvents.isDragging (DragEvents.mgr w') = false /\
   DragEvents.touchListening (DragEvents.mgr w') = false) /\
  PositionManager.getSavedPosition storageKey (DragEvents.storage w')
    = Some (JPoint (DragManager.left p') (DragManager.top p')) /\
  match last pts with
  | Some pt =>
      if moved
      then {| px := DragManager.left p'; py := DragManager.top p' |}
           = PositionManager.constrainToViewport win
               (DragManager.left p + (pt.1 - p0.1)) (DragManager.top p + (pt.2 - p0.2))
               (DragEvents.offsetWidth css p) (DragManager.offsetHeight css p)
      else DragManager.left p' = DragManager.left p /\ DragManager.top p' = DragManager.top p
  | None => DragManager.left p' = DragManager.left p /\ DragManager.top p' = DragManager.top p
  end.
Proof.
  cbv zeta. split; [|split].
  - intros He. unfold DragEvents.touchStart. by rewrite He.
  - intros Ht Hn. unfold DragEvents.touchStart, DragEvents.touchDrag. rewrite Ht. cbn [andb].
    destruct (DragEvents.touches e) as [|a [|b l]]; [|cbn in Hn; lia|].
    + split; [by destruct (DragEvents.touchOnExportBtn e)
             | by destruct (negb (DragEvents.isDragging (DragEvents.mgr w)))].
    + split; [by destruct (DragEvents.touchOnExportBtn e)
             | by destruct (negb (DragEvents.isDragging (DragEvents.mgr w)))].
  - change (DragEvents.gesture css win storageKey
              (DragEvents.TouchStart (DragEvents.oneFinger p0)
               :: map (fun pt => DragEvents.TouchMove (DragEvents.oneFinger pt)) pts
               ++ [DragEvents.TouchEnd]) w)
      with (DragEvents.gesture css win storageKey
              (map (fun pt => DragEvents.TouchMove (DragEvents.oneFinger pt)) pts
               ++ [DragEvents.TouchEnd])
              (DragEvents.touchStart css win storageKey (DragEvents.oneFinger p0) w)).
    rewrite gesture_snoc.
    change (DragEvents.touchStart css win storageKey (DragEvents.oneFinger p0) w)
      with (DragEvents.beginDrag css false p0.1 p0.2 false w).
    set (w0 := DragEvents.beginDrag css false p0.1 p0.2 false w).
    pose proof (touch_moves css win storageKey pts w0 eq_refl eq_refl) as H. cbv zeta in H.
    destruct H as (Hm & Hs & Hc & Hd & Hp).
    set (w1 := DragEvents.gesture css win storageKey _ w0) in *.
    cbn [DragEvents.dispatch]. rewrite Hm.
    cbn [DragEvents.withHasMoved DragEvents.touchListening DragEvents.mgr w0
         DragEvents.beginDrag].
    unfold DragEvents.touchEnd. rewrite Hm.
    cbn [DragEvents.withHasMoved DragEvents.isDragging DragEvents.mgr w0
         DragEvents.beginDrag negb].
    unfold DragEvents.endDrag. rewrite Hm.
    cbn [DragEvents.withHasMoved DragEvents.isClickOnToggle DragEvents.hasMoved
         DragEvents.mgr w0 DragEvents.beginDrag].
    rewrite andb_false_r.
    cbn [DragEvents.mgr DragEvents.el DragEvents.storage DragEvents.isDragging
         DragEvents.touchListening].
    split; [by split|]. split.
    { unfold PositionManager.getSavedPosition, PositionManager.savePosition.
      by rewrite lookup_insert_eq. }
    cbn [orb DragEvents.hasMoved w0 DragEvents.beginDrag DragEvents.mgr] in Hp.
    destruct (last pts) as [pt|].
    + unfold DragEvents.overThreshold in Hp.
      cbn [DragEvents.startX DragEvents.startY w0 DragEvents.beginDrag DragEvents.mgr] in Hp.
      destruct (existsb _ pts).
      * rewrite Hp. reflexivity.
      * rewrite Hp. by split.
    + rewrite Hp. by split.
Qed.

Lemma touch_drag_witness :
  let css := {| DragManager.boxWidth := fun c => if c then 48 else 300;
                DragManager.boxHeight := fun c => if c then 48 else 400 |} in
  let win := {| innerWidth := 400; innerHeight := 800 |} in
  let w := {| DragEvents.mgr := DragEvents.constructed;
              DragEvents.el := {| DragManager.classList := ["theme-gemini"];
                                  DragManager.dataset := ∅;
                                  DragManager.left := 60; DragManager.top := 60 |};
              DragEvents.storage := ∅ |} in
  let twoFingers := {| DragEvents.touches := [(100, 100); (200, 200)];
                       DragEvents.touchOnToggleBtn := false;
                       DragEvents.touchOnExportBtn := false |} in
  let onExport := {| DragEvents.touches := [(100, 100)];
                     DragEvents.touchOnToggleBtn := false;
                     DragEvents.touchOnExportBtn := true |} in
  DragEvents.touchStart css win "gemini-toc-position" twoFingers w = w /\
  DragEvents.touchStart css win "gemini-toc-position" onExport w = w.
Proof.
  intros css win w twoFingers onExport. split.
  - pose proof (touch_drag css win "gemini-toc-position" w (0, 0) [] twoFingers) as H.
    cbv zeta in H. destruct H as (_ & H & _).
    apply H; [reflexivity | cbn; lia].
  - pose proof (touch_drag css win "gemini-toc-position" w (0, 0) [] onExport) as H.
    cbv zeta in H. destruct H as (H & _).
    apply H. reflexivity.
Defined.

(** ** Search *)

Section SearchFacts.
Import DOM SearchManager.

Lemma prefix_app (v s : string) : String.prefix v s = true <-> exists b, s = v +:+ b.
Proof.
  revert s; induction v as [|c v IH]; intros s.
  - split; [intros _; by exists s | intros _; by destruct s].
  - destruct s as [|d s]; cbn [String.prefix].
    + split; [discriminate | intros [b Hb]; discriminate].
    + destruct (ascii_dec c d) as [->|Hne].
      * rewrite IH. split; intros [b Hb]; exists b.
        -- by rewrite append_cons, <- Hb.
        -- rewrite append_cons in Hb. by injection Hb.
      * split; [discriminate|]. intros [b Hb]. rewrite append_cons in Hb.
        injection Hb as -> _. contradiction.
Qed.

(** [String.prototype.includes], as a statement. *)
Lemma includes_occursIn (v s : string) : includes v s = true <-> occursIn v s.
Proof.
  unfold occursIn. induction s as [|c s IH]; cbn [includes].
  - rewrite orb_false_r, prefix_app. split.
    + intros [b Hb]. by exists EmptyString, b.
    + intros (a & b & H). destruct a as [|x a]; [by exists b|discriminate].
  - rewrite orb_true_iff, prefix_app, IH. split.
    + intros [[b Hb]|(a & b & H)].
      * by exists EmptyString, b.
      * exists (String c a), b. by rewrite append_cons, <- H.
    + intros (a & b & H). destruct a as [|x a].
      * left. by exists b.
      * right. rewrite append_cons in H. injection H as -> H. by exists a, b.
Qed.

Lemma lowerUnit_whitespace (c : ascii) :
  JS.isWhiteSpace c = true -> JS.lowerUnit c = c.
Proof.
  destruct c as [[] [] [] [] [] [] [] []]; cbn; intros H; try discriminate; reflexivity.
Qed.

Lemma trimStart_blank (s : string) : JS.allWhiteSpace s = true -> JS.trimStart s = EmptyString.
Proof.
  induction s as [|c s IH]; [reflexivity|]. cbn. intros H.
  apply andb_true_iff in H as [Hc Hs]. rewrite Hc. by apply IH.
Qed.

Lemma toLowerCase_blank (s : string) :
  JS.allWhiteSpace s = true -> JS.allWhiteSpace (JS.toLowerCase s) = true.
Proof.
  induction s as [|c s IH]; [reflexivity|]. cbn. intros H.
  apply andb_true_iff in H as [Hc Hs]. rewrite (lowerUnit_whitespace c Hc), Hc. by apply IH.
Qed.

Lemma blank_term (v : string) :
  JS.allWhiteSpace v = true -> JS.trim (JS.toLowerCase v) = EmptyString.
Proof.
  intros H. unfold JS.trim. by rewrite trimStart_blank by by apply toLowerCase_blank.
Qed.

Lemma showMatching_length (term : string) (items : list row) :
  length (showMatching term items).1 = length items /\
  map li (showMatching term items).1 = map li items.
Proof.
  induction items as [|it items IH]; [by split|]. cbn [showMatching].
  destruct (querySelectorTag "a" (li it)); [|by split].
  destruct (showMatching term items) as [r ok]. cbn in *. destruct IH as [-> ->]. by split.
Qed.

Lemma queryLink_listItem (index : nat) (it : item) :
  exists a, querySelectorTag "a" (UI.listItem index it) = Some a /\
            textContent a = UI.shortText (UI.questionText it).
Proof.
  eexists. split.
  - unfold querySelectorTag, UI.listItem. cbn [childNodes flat_map elementsOf app List.filter
      tagName]. decide_constants. cbn [head]. reflexivity.
  - cbn. by rewrite append_nil_r.
Qed.

End SearchFacts.

Section SearchRows.
Import DOM SearchManager.

Lemma elementsOf_Elem (t : string) (a : gmap string string) (cs : list node) :
  elementsOf (Elem t a cs) = Elem t a cs :: flat_map elementsOf cs.
Proof.
  cbn [elementsOf]. f_equal.
Qed.

Lemma listItems_of_rows (questions : list item) (index : nat) :
  List.filter (fun d => bool_decide (tagName d = "li"))
    (flat_map elementsOf (imap (fun k it => UI.listItem (index + k) it) questions))
  = imap (fun k it => UI.listItem (index + k) it) questions.
Proof.
  revert index; induction questions as [|it rest IH]; intros index; [reflexivity|].
  cbn [imap flat_map].
  rewrite (imap_ext _ (fun k it => UI.listItem (S index + k) it))
    by (intros; cbn; f_equal; lia).
  rewrite List.filter_app, IH. unfold UI.listItem at 1.
  rewrite elementsOf_Elem. cbn [flat_map app]. rewrite !elementsOf_Elem.
  cbn [flat_map elementsOf app List.filter tagName]. decide_constants. reflexivity.
Qed.

Lemma setup_rows (config : siteConfig) (questions : list item) (doc : forest) :
  setup (UI.buildTOCStructure config questions doc).1
  = {| value := EmptyString;
       allListItems := map (fun n => {| li := n; display := None |})
                         (UI.populateTOCList questions doc).1;
       clearDisplay := None; focused := false |}.
Proof.
  unfold UI.buildTOCStructure, UI.populateTOCList.
  pose proof (populateFrom_rows questions 0 doc) as Hrows.
  destruct (UI.populateFrom 0 questions doc) as [rows doc1]. cbn [fst] in *. subst rows.
  unfold setup, addListItems, constructed. cbn [value allListItems clearDisplay focused app].
  f_equal. f_equal. cbn [childNodes flat_map].
  rewrite (elementsOf_Elem "ul"), app_nil_r.
  rewrite !List.filter_app. cbn [List.filter tagName]. decide_constants.
  rewrite listItems_of_rows.
  replace (List.filter _ (elementsOf UI.tocHeader)) with (@nil node) by (vm_compute; reflexivity).
  replace (List.filter _ (elementsOf UI.searchContainer)) with (@nil node)
    by (vm_compute; reflexivity).
  unfold UI.tocFooter. rewrite !elementsOf_Elem.
  cbn [flat_map elementsOf app List.filter tagName]. decide_constants.
  cbn [app]. by rewrite app_nil_r.
Qed.

Lemma showMatching_rows (term : string) (questions : list item) (index : nat) :
  showMatching term
    (map (fun n => {| li := n; display := None |})
       (imap (fun k it => UI.listItem (index + k) it) questions))
  = (imap (fun k it =>
             {| li := UI.listItem (index + k) it;
                display :=
                  Some (if bool_decide (term = EmptyString)
                           || includes term (JS.toLowerCase (UI.shortText (UI.questionText it)))
                        then "block" else "none") |}) questions, true).
Proof.
  revert index; induction questions as [|it rest IH]; intros index; [reflexivity|].
  cbn [imap map showMatching li].
  rewrite (imap_ext (fun k it => UI.listItem (index + S k) it)
             (fun k it => UI.listItem (S index + k) it))
    by (intros; cbn; f_equal; lia).
  destruct (queryLink_listItem (index + 0) it) as (a & -> & ->).
  unfold compose. rewrite IH. f_equal. f_equal.
  apply imap_ext; intros k x _. cbn. repeat f_equal; lia.
Qed.

Lemma shown_decided (term text : string) :
  bool_decide (term = EmptyString) || includes term (JS.toLowerCase text) = true
  <-> shown term text.
Proof.
  unfold shown. rewrite orb_true_iff, bool_decide_eq_true, includes_occursIn. tauto.
Qed.

Lemma showMatching_all_links (term : string) (items : list row) :
  Forall (fun r => hasLink r = true) items ->
  (showMatching term items).2 = true /\
  (term = EmptyString -> map display (showMatching term items).1 = map (fun _ => Some "block") items).
Proof.
  induction 1 as [|r items Hr _ IH]; [by split|]. cbn [showMatching].
  unfold hasLink in Hr. apply bool_decide_eq_true in Hr.
  destruct (querySelectorTag "a" (li r)) as [a|]; [|done].
  destruct (showMatching term items) as [rest ok]. cbn [fst snd] in *.
  destruct IH as [-> IH]. split; [reflexivity|]. intros ->.
  cbn. by rewrite IH.
Qed.

Lemma showMatching_stops (term : string) (pre : list row) (r : row) (post : list row) :
  Forall (fun r => hasLink r = true) pre ->
  hasLink r = false ->
  showMatching term (pre ++ r :: post) = ((showMatching term pre).1 ++ r :: post, false).
Proof.
  intros Hpre Hr. induction Hpre as [|x pre Hx _ IH].
  - cbn [app showMatching]. unfold hasLink in Hr. apply bool_decide_eq_false in Hr.
    destruct (querySelectorTag "a" (li r)); [|reflexivity]. by destruct Hr.
  - cbn [app showMatching]. unfold hasLink in Hx. apply bool_decide_eq_true in Hx.
    destruct (querySelectorTag "a" (li x)) as [a|]; [|done].
    rewrite IH. by destruct (showMatching term pre).
Qed.

End SearchRows.

(** X9. Typing into the search box of a freshly built panel never fails and
    keeps one row per question; row [k] is displayed as a block exactly when
    the trimmed, lower-cased input is empty or occurs in the lower-cased
    displayed (possibly truncated) text of question [k], and is hidden with
    [display: none] otherwise. *)
Theorem search_filters_rows (config : siteConfig) (questions : list item) (doc : DOM.forest)
    (v : string) :
  let panel := (UI.buildTOCStructure config questions doc).1 in
  let result := SearchManager.input v (SearchManager.setup panel) in
  let term := JS.trim (JS.toLowerCase v) in
  result.2 = true /\
  SearchManager.value result.1 = v /\
  length (SearchManager.allListItems result.1) = length questions /\
  forall (k : nat) (it : item),
    questions !! k = Some it ->
    exists r,
      SearchManager.allListItems result.1 !! k = Some r /\
      SearchManager.li r = UI.listItem k it /\
      (SearchManager.display r = Some "block" \/ SearchManager.display r = Some "none") /\
      (SearchManager.display r = Some "block"
       <-> shown term (UI.shortText (UI.questionText it))).
Proof.
  intros panel result term. subst panel result.
  rewrite setup_rows. unfold UI.populateTOCList. rewrite populateFrom_rows.
  unfold SearchManager.input, SearchManager.handleSearchInput,
    SearchManager.updateSearchResults.
  cbn [SearchManager.value SearchManager.allListItems].
  rewrite showMatching_rows. fold term.
  cbn [fst snd SearchManager.updateClearButtonVisibility SearchManager.value
       SearchManager.allListItems].
  rewrite length_imap. repeat split.
  intros k it Hk. eexists. split.
  - rewrite list_lookup_imap, Hk. reflexivity.
  - cbn [SearchManager.li SearchManager.display]. split; [reflexivity|].
    rewrite <- shown_decided.
    destruct (bool_decide (term = EmptyString)
              || DOM.includes term (JS.toLowerCase (UI.shortText (UI.questionText it)))).
    + split; [by left|]. by split.
    + split; [by right|]. split; discriminate.
Qed.

Lemma search_filters_rows_witness :
  exists r,
    SearchManager.allListItems
      (SearchManager.input " HELLO "
         (SearchManager.setup
            (UI.buildTOCStructure chatgptConfig
               [ItemString "Hello world"; ItemString "foo"; ItemString "Hello there"] []).1)).1
      !! 1%nat = Some r /\
    SearchManager.display r = Some "none".
Proof.
  destruct (search_filters_rows chatgptConfig
              [ItemString "Hello world"; ItemString "foo"; ItemString "Hello there"] []
              " HELLO ") as (_ & _ & _ & H).
  destruct (H 1%nat (ItemString "foo") eq_refl) as (r & Hr & _ & Hd & _).
  exists r. split; [exact Hr|].
  vm_compute in Hr. injection Hr as <-. reflexivity.
Defined.

(** X10. When every tracked row has a link, an input of white space only
    shows every row again, while the clear button stays visible for a
    non-empty input; [clearSearch] empties the box, shows every row, hides
    the clear button and focuses the box.  Neither changes the rows
    themselves. *)
Theorem search_blank_shows_all (s : SearchManager.state) (v : string) :
  Forall (fun r => hasLink r = true) (SearchManager.allListItems s) ->
  JS.allWhiteSpace v = true ->
  let typed := SearchManager.input v s in
  let cleared := SearchManager.clearSearch s in
  let allShown (t : SearchManager.state) :=
    map SearchManager.li (SearchManager.allListItems t)
      = map SearchManager.li (SearchManager.allListItems s) /\
    map SearchManager.display (SearchManager.allListItems t)
      = map (fun _ => Some "block") (SearchManager.allListItems s) in
  (typed.2 = true /\ allShown typed.1 /\
   SearchManager.clearDisplay typed.1 = Some (if JS.truthy v then "flex" else "none")) /\
  (cleared.2 = true /\ allShown cleared.1 /\
   SearchManager.value cleared.1 = EmptyString /\
   SearchManager.clearDisplay cleared.1 = Some "none" /\
   SearchManager.focused cleared.1 = true).
Proof.
  intros Hlinks Hblank typed cleared allShown.
  subst typed cleared allShown.
  unfold SearchManager.input, SearchManager.clearSearch, SearchManager.handleSearchInput,
    SearchManager.updateSearchResults.
  cbn [SearchManager.value SearchManager.allListItems].
  rewrite (blank_term v Hblank).
  change (JS.trim (JS.toLowerCase EmptyString)) with EmptyString.
  pose proof (showMatching_all_links EmptyString _ Hlinks) as [Hok Hd].
  pose proof (showMatching_length EmptyString (SearchManager.allListItems s)) as [_ Hli].
  destruct (SearchManager.showMatching EmptyString (SearchManager.allListItems s))
    as [items ok].
  cbn [fst snd] in *. subst ok. specialize (Hd eq_refl).
  cbn [fst snd SearchManager.updateClearButtonVisibility SearchManager.value
       SearchManager.allListItems SearchManager.clearDisplay SearchManager.focused].
  repeat split; assumption.
Qed.

Lemma search_blank_shows_all_witness :
  let s := (SearchManager.input "foo"
              (SearchManager.setup
                 (UI.buildTOCStructure chatgptConfig
                    [ItemString "Hello world"; ItemString "foo"] []).1)).1 in
  map SearchManager.display (SearchManager.allListItems s) = [Some "none"; Some "block"] /\
  map SearchManager.display (SearchManager.allListItems (SearchManager.input "  " s).1)
    = [Some "block"; Some "block"] /\
  SearchManager.clearDisplay (SearchManager.input "  " s).1 = Some "flex" /\
  SearchManager.clearDisplay (SearchManager.clearSearch s).1 = Some "none".
Proof.
  intros s.
  assert (Hlinks : Forall (fun r => hasLink r = true) (SearchManager.allListItems s))
    by (repeat constructor).
  assert (Hblank : JS.allWhiteSpace "  " = true) by reflexivity.
  destruct (search_blank_shows_all s "  " Hlinks Hblank)
    as ((_ & (_ & Hshown) & Hbtn) & (_ & _ & _ & Hclear & _)).
  split; [reflexivity|]. split; [exact Hshown|]. split; [exact Hbtn | exact Hclear].
Defined.

(** X11. A tracked row without a link makes the search fail at that row:
    the rows before it are updated, that row and the rows after it keep
    their display, and the clear button is not updated. *)
Theorem search_stops_at_row_without_link (s : SearchManager.state) (v : string)
    (pre : list SearchManager.row) (r : SearchManager.row) (post : list SearchManager.row) :
  SearchManager.allListItems s = pre ++ r :: post ->
  Forall (fun x => hasLink x = true) pre ->
  hasLink r = false ->
  let typed := SearchManager.input v s in
  typed.2 = false /\
  SearchManager.allListItems typed.1
    = (SearchManager.showMatching (JS.trim (JS.toLowerCase v)) pre).1 ++ r :: post /\
  length (SearchManager.showMatching (JS.trim (JS.toLowerCase v)) pre).1 = length pre /\
  SearchManager.clearDisplay typed.1 = SearchManager.clearDisplay s.
Proof.
  intros Hs Hpre Hr typed. subst typed.
  unfold SearchManager.input, SearchManager.handleSearchInput,
    SearchManager.updateSearchResults.
  cbn [SearchManager.value SearchManager.allListItems SearchManager.clearDisplay].
  rewrite Hs, (showMatching_stops _ pre r post Hpre Hr). cbn [fst snd SearchManager.allListItems
    SearchManager.clearDisplay].
  repeat split. apply showMatching_length.
Qed.

Lemma search_stops_at_row_without_link_witness :
  let bare := DOM.Elem "li" ∅ [DOM.Text "bare"] in
  let s := SearchManager.addListItems [UI.listItem 0 (ItemString "foo"); bare;
                                       UI.listItem 2 (ItemString "bar")]
             SearchManager.constructed in
  (SearchManager.input "foo" s).2 = false /\
  map SearchManager.display (SearchManager.allListItems (SearchManager.input "foo" s).1)
    = [Some "block"; None; None] /\
  SearchManager.clearDisplay (SearchManager.input "foo" s).1 = None.
Proof.
  intros bare s.
  destruct (search_stops_at_row_without_link s "foo"
              [{| SearchManager.li := UI.listItem 0 (ItemString "foo");
                  SearchManager.display := None |}]
              {| SearchManager.li := bare; SearchManager.display := None |}
              [{| SearchManager.li := UI.listItem 2 (ItemString "bar");
                  SearchManager.display := None |}]
              eq_refl ltac:(repeat constructor) eq_refl) as (Hok & Hitems & _ & Hbtn).
  split; [exact Hok|]. split; [|exact Hbtn].
  rewrite Hitems. reflexivity.
Defined.

(** ** The session *)

Section SessionFacts.
Import DOM UI Session.
Variable config : siteConfig.

Lemma paced_refl (s : state) : lastCreateTime s <= now s -> paced s s.
Proof. intros H. unfold paced. lia. Qed.

Lemma paced_trans (s1 s2 s3 : state) : paced s1 s2 -> paced s2 s3 -> paced s1 s3.
Proof. unfold paced. intros (A & B & C) (D & E & F). lia. Qed.

(** A step that leaves the console, the clock and the time of the last
    rebuild as they are. *)
Lemma paced_same (s s' : state) :
  lastCreateTime s <= now s ->
  console s' = console s -> lastCreateTime s' = lastCreateTime s -> now s' = now s ->
  paced s s'.
Proof.
  intros H Hc Hl Hn. unfold paced, executions. rewrite Hc, Hl, Hn. lia.
Qed.

Lemma createTOC_paced (s : state) : lastCreateTime s <= now s -> paced s (createTOC config s).
Proof.
  intros H. pose proof (createTOC_frame config s) as (_ & _ & _ & Hn & _).
  destruct (Z.lt_ge_cases (now s - lastCreateTime s) 1000) as [Hlt|Hge].
  - rewrite (createTOC_refused config s Hlt). unfold paced.
    rewrite executions_log. cbn. lia.
  - destruct (createTOC_executed config s Hge) as (Hl & He & _).
    unfold paced. rewrite Hl, He, Hn. lia.
Qed.

Lemma fire_paced (tm : timer) (s : state) :
  lastCreateTime s <= now s -> paced s (fire config tm s).
Proof.
  intros H. unfold fire.
  set (s1 := setNow _ (clearTimeout (t_id tm) s)).
  assert (H1 : paced s s1) by (unfold paced, executions; cbn; lia).
  assert (Hi : lastCreateTime s1 <= now s1) by (cbn; lia).
  eapply paced_trans; [exact H1|]. unfold runCallback. destruct (t_cb tm).
  - by apply createTOC_paced.
  - eapply paced_trans; [|apply createTOC_paced; cbn; lia].
    unfold paced. rewrite executions_log. cbn. lia.
Qed.

Lemma runTimers_paced (fuel : nat) (t : Z) (s : state) :
  lastCreateTime s <= now s -> paced s (runTimers fuel config t s).
Proof.
  revert s; induction fuel as [|fuel IH]; intros s H; [by apply paced_refl|].
  cbn [runTimers]. destruct (nextTimer (timers s)) as [tm|]; [|by apply paced_refl].
  destruct (t_due tm <=? t); [|by apply paced_refl].
  pose proof (fire_paced tm s H) as Hf.
  eapply paced_trans; [exact Hf|]. apply IH. unfold paced in Hf. lia.
Qed.

Lemma runTimers_now (fuel : nat) (t : Z) (s : state) :
  now (runTimers fuel config t s) <= Z.max (now s) t.
Proof.
  revert s; induction fuel as [|fuel IH]; intros s; [cbn; lia|].
  cbn [runTimers]. destruct (nextTimer (timers s)) as [tm|]; [|lia].
  destruct (t_due tm <=? t) eqn:E; [|lia]. apply Z.leb_le in E.
  etransitivity; [apply IH|]. unfold fire, runCallback.
  destruct (t_cb tm); rewrite (proj1 (proj2 (proj2 (proj2 (createTOC_frame config _)))));
    cbn; lia.
Qed.

Lemma step_paced (ev : event) (s : state) :
  lastCreateTime s <= now s -> paced s (step config s ev).
Proof.
  intros H. destruct ev as [| |b|key b|doc|t]; cbn [step].
  - by apply paced_same.
  - apply paced_same; [exact H| | |]; unfold debouncedCreateTOC;
      destruct (createTimer s); reflexivity.
  - unfold handleDocumentClick. destruct b; [by apply paced_same | by apply paced_refl].
  - unfold handleKeyDown. destruct (_ && _); [by apply paced_same | by apply paced_refl].
  - by apply paced_same.
  - unfold advanceTo.
    pose proof (runTimers_paced (length (timers s)) t s H) as Hr.
    pose proof (runTimers_now (length (timers s)) t s) as Hn.
    set (r := runTimers _ config t s) in *.
    unfold paced, executions in *. cbn [console lastCreateTime now setNow]. lia.
Qed.

Lemma run_paced (evs : list event) (s : state) :
  lastCreateTime s <= now s -> paced s (run config evs s).
Proof.
  revert s; induction evs as [|ev evs IH]; intros s H; [by apply paced_refl|].
  unfold run. cbn [fold_left]. pose proof (step_paced ev s H) as Hs.
  eapply paced_trans; [exact Hs|]. apply IH. unfold paced in Hs. lia.
Qed.

End SessionFacts.

(** X12. Over any sequence of listener events, page changes and timer
    firings, every rebuild that runs moves the time of the last rebuild
    forward by at least 1000: the number of rebuilds run is at most the
    time elapsed since the rebuild before them, divided by 1000. *)
Theorem rebuild_rate_limit (config : siteConfig) (evs : list Session.event) (s : UI.state) :
  UI.lastCreateTime s <= UI.now s ->
  let s' := Session.run config evs s in
  1000 * (Z.of_nat (UI.executions s') - Z.of_nat (UI.executions s))
    <= UI.lastCreateTime s' - UI.lastCreateTime s /\
  UI.lastCreateTime s' <= UI.now s' /\
  (Z.of_nat (UI.executions s') - Z.of_nat (UI.executions s)
     <= (UI.now s' - UI.lastCreateTime s) / 1000).
Proof.
  intros H s'. destruct (run_paced config evs s H) as (Hp & Hl & Hn). fold s' in Hp, Hl, Hn.
  split; [exact Hp|]. split; [exact Hl|].
  apply Z.div_le_lower_bound; lia.
Qed.

Lemma rebuild_rate_limit_witness :
  let s := Session.init chatgptConfig
             [DOM.Elem "div" {[ "data-message-author-role" := "user" ]}
                [DOM.Text "Explain recursion"]] 1700000000000 in
  let s' := Session.run chatgptConfig
              [Session.Click true; Session.Update; Session.Tick 1700000002000;
               Session.KeyDown "Enter" true; Session.Tick 1700000003000] s in
  UI.executions s' = 2%nat /\
  Z.of_nat (UI.executions s') - Z.of_nat (UI.executions s)
    <= (UI.now s' - UI.lastCreateTime s) / 1000.
Proof.
  intros s s'. split; [vm_compute; reflexivity|].
  apply (rebuild_rate_limit chatgptConfig
           [Session.Click true; Session.Update; Session.Tick 1700000002000;
            Session.KeyDown "Enter" true; Session.Tick 1700000003000] s).
  vm_compute. discriminate.
Defined.

Section SinglePanel.
Import DOM UI Session.
Variable config : siteConfig.

Lemma createTOC_panels (s : state) :
  (length (panels (document s)) <= 1)%nat ->
  (length (panels (document (createTOC config s))) <= 1)%nat.
Proof.
  intros H.
  destruct (Z.lt_ge_cases (now s - lastCreateTime s) 1000) as [Hlt|Hge].
  - by rewrite (createTOC_refused config s Hlt).
  - rewrite (createTOC_document config s Hge). cbv zeta.
    assert (H1 : countId CONSTANTS.TOC_CONTAINER (removeExistingTOC (document s)) = 0%nat)
      by (apply removeExistingTOC_count; by rewrite <- length_panels).
    destruct (getQueries config _) as [|q qs].
    + rewrite length_panels. lia.
    + pose proof (populateFrom_count (map ItemQuery (q :: qs)) 0
                    (removeExistingTOC (document s))) as Hle.
      rewrite length_panels, countId_app, panel_count. unfold populateTOCList. lia.
Qed.

Lemma fire_panels (tm : timer) (s : state) :
  (length (panels (document s)) <= 1)%nat ->
  (length (panels (document (fire config tm s))) <= 1)%nat.
Proof.
  intros H. unfold fire, runCallback. destruct (t_cb tm); by apply createTOC_panels.
Qed.

Lemma runTimers_panels (fuel : nat) (t : Z) (s : state) :
  (length (panels (document s)) <= 1)%nat ->
  (length (panels (document (runTimers fuel config t s))) <= 1)%nat.
Proof.
  revert s; induction fuel as [|fuel IH]; intros s H; [exact H|].
  cbn [runTimers]. destruct (nextTimer (timers s)) as [tm|]; [|exact H].
  destruct (t_due tm <=? t); [|exact H]. apply IH. by apply fire_panels.
Qed.

Lemma step_panels (ev : event) (s : state) :
  pageKeepsOnePanel ev ->
  (length (panels (document s)) <= 1)%nat ->
  (length (panels (document (step config s ev))) <= 1)%nat.
Proof.
  intros Hev H. destruct ev as [| |b|key b|doc|t]; cbn [step].
  - exact H.
  - unfold debouncedCreateTOC. by destruct (createTimer s).
  - unfold handleDocumentClick. by destruct b.
  - unfold handleKeyDown. by destruct (_ && _).
  - exact Hev.
  - unfold advanceTo. cbn [document setNow]. by apply runTimers_panels.
Qed.

End SinglePanel.

(** X13. The page never holds two panels: starting from a page with at
    most one element with the panel's id, after any sequence of listener
    events and timer firings, and of page changes that do not themselves
    bring in a second such element, the page has at most one panel. *)
Theorem single_panel (config : siteConfig) (evs : list Session.event) (s : UI.state) :
  (length (UI.panels (UI.document s)) <= 1)%nat ->
  Forall Session.pageKeepsOnePanel evs ->
  (length (UI.panels (UI.document (Session.run config evs s))) <= 1)%nat.
Proof.
  intros H Hevs. revert s H. induction Hevs as [|ev evs Hev _ IH]; intros s H; [exact H|].
  unfold Session.run. cbn [fold_left]. apply IH. by apply step_panels.
Qed.

Lemma single_panel_witness :
  let page := [DOM.Elem "div" {[ "data-message-author-role" := "user" ]}
                 [DOM.Text "Explain recursion"]] in
  let evs := [Session.Tick 1700000003000; Session.Click true; Session.Update;
              Session.Tick 1700000004000] in
  let s' := Session.run chatgptConfig evs (Session.init chatgptConfig page 1700000000000) in
  UI.executions s' = 2%nat /\
  length (UI.panels (UI.document s')) = 1%nat /\
  (length (UI.panels (UI.document s')) <= 1)%nat.
Proof.
  intros page evs s'. split; [vm_compute; reflexivity|]. split; [vm_compute; reflexivity|].
  apply (single_panel chatgptConfig evs).
  - vm_compute. lia.
  - repeat constructor.
Defined.

(** ** Text exports *)

Section TextExports.
Import UI.

Lemma unlines_join (ls : list string) :
  ls <> [] -> unlines ls = JS.join nl ls +:+ nl.
Proof.
  induction ls as [|l ls IH]; [done|]. intros _. destruct ls as [|l' ls].
  - cbn. by rewrite append_nil_r.
  - change (unlines (l :: l' :: ls)) with (l +:+ nl +:+ unlines (l' :: ls)).
    change (JS.join nl (l :: l' :: ls)) with (l +:+ nl +:+ JS.join nl (l' :: ls)).
    rewrite IH by discriminate. by rewrite !append_assoc.
Qed.

End TextExports.

(** X14. For every format other than "md" (the comparison is exact, so also
    for "MD") the download is the plain-text export: its content is the
    text that [exportAsText] copies, with the type text/plain.  The Markdown
    copy is its three header lines followed, when there are queries, by that
    same text and a final newline. *)
Theorem text_exports (config : siteConfig) (today : UI.date) (questions : list item)
    (format : string) :
  (format <> "md" ->
   UI.content (UI.downloadAsFile config today questions format) = UI.exportAsText questions /\
   UI.mimeType (UI.downloadAsFile config today questions format) = "text/plain") /\
  UI.exportAsMarkdown config today questions
    = markdownHeader (name config) (UI.toLocaleDateString today) (length questions)
      +:+ (match questions with
           | [] => EmptyString
           | _ :: _ => UI.exportAsText questions +:+ UI.nl
           end).
Proof.
  split.
  - intros Hf. unfold UI.downloadAsFile. rewrite bool_decide_eq_false_2 by exact Hf.
    by split.
  - unfold UI.exportAsMarkdown, UI.appendLines, markdownHeader, UI.exportAsText.
    rewrite fold_left_lines. destruct questions as [|q qs].
    + cbn [imap UI.unlines fold_right length]. by rewrite !append_assoc.
    + rewrite unlines_join by discriminate. by rewrite !append_assoc.
Qed.

Lemma text_exports_witness :
  let today := {| UI.toLocaleDateString := "11/2/2026";
                  UI.toISOString := "2026-11-02T09:30:00.000Z" |} in
  let questions := [ItemString "Explain recursion"; ItemString "And iteration?"] in
  UI.content (UI.downloadAsFile chatgptConfig today questions "MD")
    = "1. Explain recursion" +:+ UI.nl +:+ "2. And iteration?" /\
  UI.mimeType (UI.downloadAsFile chatgptConfig today questions "MD") = "text/plain".
Proof.
  intros today questions.
  destruct (text_exports chatgptConfig today questions "MD") as [H _].
  destruct (H ltac:(discriminate)) as [Hc Hm]. split; [|exact Hm].
  rewrite Hc. reflexivity.
Defined.

(** ** Selector priority of the Claude adapter *)

Section ClaudeSelectors.
Import DOM SITES.

Lemma claude_extract_elements (els : list Element) :
  sublist (map element (claude.extract els)) els.
Proof.
  unfold claude.extract. induction els as [|el els IH]; [constructor|].
  cbn [map List.filter]. destruct (_ && _).
  - cbn [map element]. by apply sublist_skip.
  - by apply sublist_cons.
Qed.

Lemma selectorLoop_first (doc : forest) (sels : list selector) :
  (Forall (fun sel => claude.extract (querySelectorAll doc sel) = []) sels /\
   claude.selectorLoop doc sels [] = []) \/
  (exists pre sel post,
     sels = pre ++ sel :: post /\
     Forall (fun sel => claude.extract (querySelectorAll doc sel) = []) pre /\
     claude.extract (querySelectorAll doc sel) <> [] /\
     claude.selectorLoop doc sels [] = claude.extract (querySelectorAll doc sel)).
Proof.
  induction sels as [|sel sels IH]; [left; by split|].
  cbn [claude.selectorLoop].
  assert (Hskip : claude.extract (querySelectorAll doc sel) = [] ->
            (Forall (fun sel => claude.extract (querySelectorAll doc sel) = []) (sel :: sels) /\
             claude.selectorLoop doc sels [] = []) \/
            (exists pre s post,
               sel :: sels = pre ++ s :: post /\
               Forall (fun sel => claude.extract (querySelectorAll doc sel) = []) pre /\
               claude.extract (querySelectorAll doc s) <> [] /\
               claude.selectorLoop doc sels [] = claude.extract (querySelectorAll doc s))).
  { intros E. destruct IH as [[Hall Hnil]|(pre & s & post & -> & Hpre & Hne & Hloop')].
    - left. split; [by constructor | exact Hnil].
    - right. exists (sel :: pre), s, post. split; [reflexivity|].
      split; [by constructor|]. by split. }
  destruct (querySelectorAll doc sel) as [|e es] eqn:Eq.
  - apply Hskip. reflexivity.
  - cbv zeta. destruct (claude.extract (e :: es)) as [|q qs] eqn:E.
    + apply Hskip. reflexivity.
    + right. exists [], sel, sels. split; [reflexivity|]. split; [constructor|].
      rewrite Eq, E. split; [discriminate | reflexivity].
Qed.

End ClaudeSelectors.

(** X15. The Claude extractor uses one selector only: the first of its four
    selectors whose matches give at least one non-empty text.  The elements
    it returns are among the matches of that selector, in document order;
    when no selector gives a text it returns nothing. *)
Theorem claude_selector_priority (doc : DOM.forest) :
  let texts (sel : DOM.selector) := SITES.claude.extract (DOM.querySelectorAll doc sel) in
  (Forall (fun sel => texts sel = []) SITES.claude.selectors /\
   SITES.claude.getQueries doc = []) \/
  (exists pre sel post,
     SITES.claude.selectors = pre ++ sel :: post /\
     Forall (fun sel' => texts sel' = []) pre /\
     texts sel <> [] /\
     SITES.claude.candidates doc = texts sel /\
     sublist (SITES.claude.getQueries doc) (texts sel) /\
     sublist (map element (SITES.claude.getQueries doc)) (DOM.querySelectorAll doc sel)).
Proof.
  intros texts. unfold SITES.claude.getQueries, SITES.claude.candidates.
  destruct (selectorLoop_first doc SITES.claude.selectors)
    as [[Hall ->]|(pre & sel & post & Hs & Hpre & Hne & ->)].
  - left. by split.
  - right. exists pre, sel, post. repeat split; try assumption.
    + apply filterSeen_sublist.
    + etransitivity; [|apply claude_extract_elements].
      apply (fmap_sublist element), filterSeen_sublist.
Qed.

(** ** The throttle *)

Section Throttle.
Import TOC_PERF.
Variable limit : Z.
Hypothesis limit_pos : 0 < limit.

Lemma runs_fresh (t : Z) (rest : list Z) :
  runs limit (t :: rest) fresh
  = t :: runs limit rest {| inThrottle := true; resetDue := Some (t + limit) |}.
Proof. reflexivity. Qed.

Lemma runs_step (t : Z) (rest : list Z) (due : Z) :
  runs limit (t :: rest) {| inThrottle := true; resetDue := Some due |}
  = if due <=? t
    then t :: runs limit rest {| inThrottle := true; resetDue := Some (t + limit) |}
    else runs limit rest {| inThrottle := true; resetDue := Some due |}.
Proof.
  cbn [runs]. unfold call, elapse. cbn [resetDue]. by destruct (due <=? t).
Qed.

(** While throttled until [due]: [func] runs at or after [due] only, the
    runs are spaced, and every call before the first run is before [due],
    every other call less than [limit] after a run. *)
Lemma runs_throttled (ts : list Z) (due : Z) :
  ascending ts ->
  let rs := runs limit ts {| inThrottle := true; resetDue := Some due |} in
  Forall (fun r => due <= r) rs /\
  spaced limit rs /\
  Forall (fun r => In r ts) rs /\
  Forall (fun t => t < due \/ exists r, In r rs /\ r <= t < r + limit) ts.
Proof.
  revert due; induction ts as [|t rest IH]; intros due Hasc; [by cbn|].
  destruct Hasc as [Hle Hrest]. rewrite runs_step.
  destruct (due <=? t) eqn:E.
  - apply Z.leb_le in E.
    destruct (IH (t + limit) Hrest) as (Hge & Hsp & Hin & Hcov).
    set (rs := runs limit rest _) in *. cbv zeta. repeat split.
    + constructor; [exact E|]. eapply Forall_impl; [exact Hge|].
      intros r Hr. cbv beta in Hr. lia.
    + destruct rs as [|r rs']; [exact I|]. inversion Hge; subst. assumption.
    + exact Hsp.
    + constructor; [by left|]. eapply Forall_impl; [exact Hin|]. intros r Hr. by right.
    + constructor.
      * right. exists t. split; [by left | lia].
      * rewrite Forall_forall in Hle, Hcov. apply Forall_forall. intros t' Ht'.
        destruct (Hcov t' Ht') as [Hlt|(r & Hr & Hb)].
        -- right. exists t. split; [by left|]. specialize (Hle t' Ht'). lia.
        -- right. exists r. split; [by right | exact Hb].
  - apply Z.leb_gt in E.
    destruct (IH due Hrest) as (Hge & Hsp & Hin & Hcov).
    cbv zeta. repeat split; try assumption.
    + eapply Forall_impl; [exact Hin|]. intros r Hr. by right.
    + constructor; [by left | exact Hcov].
Qed.

End Throttle.

(** X16. A throttled function called at ascending times runs at the first
    call; its runs are call times at least [limit] apart; and every call
    comes less than [limit] after the run at or before it. *)
Theorem throttle_spacing (limit : Z) (t : Z) (rest : list Z) :
  0 < limit ->
  ascending (t :: rest) ->
  let rs := TOC_PERF.runs limit (t :: rest) TOC_PERF.fresh in
  head rs = Some t /\
  spaced limit rs /\
  Forall (fun r => In r (t :: rest)) rs /\
  Forall (fun t' => exists r, In r rs /\ r <= t' < r + limit) (t :: rest).
Proof.
  intros Hlim [Hle Hasc] rs. subst rs. rewrite runs_fresh.
  destruct (runs_throttled limit Hlim rest (t + limit) Hasc) as (Hge & Hsp & Hin & Hcov).
  set (rs := TOC_PERF.runs limit rest _) in *. repeat split.
  - destruct rs as [|r rs']; [exact I|]. inversion Hge; subst. assumption.
  - exact Hsp.
  - constructor; [by left|]. eapply Forall_impl; [exact Hin|]. intros r Hr. by right.
  - constructor.
    + exists t. split; [by left | lia].
    + rewrite Forall_forall in Hle, Hcov. apply Forall_forall. intros t' Ht'.
      destruct (Hcov t' Ht') as [Hlt|(r & Hr & Hb)].
      * exists t. split; [by left|]. specialize (Hle t' Ht'). lia.
      * exists r. split; [by right | exact Hb].
Qed.

Lemma throttle_spacing_witness :
  TOC_PERF.runs 500 [0; 100; 499; 500; 700; 1200] TOC_PERF.fresh = [0; 500; 1200] /\
  spaced 500 (TOC_PERF.runs 500 [0; 100; 499; 500; 700; 1200] TOC_PERF.fresh).
Proof.
  split; [reflexivity|].
  apply (throttle_spacing 500 0 [100; 499; 500; 700; 1200]); [lia|].
  cbn [ascending]. repeat split; repeat constructor; lia.
Defined.

(** ** The periodic checks *)

Section MonitorFacts.
Import DOM UI Monitor.

Lemma tocExists_false (s : state) : tocExists s = false <-> panels (document s) = [].
Proof.
  unfold tocExists, getElementById, panels.
  change CONSTANTS.TOC_CONTAINER with "toc-extension".
  destruct (List.filter _ _) as [|e es]; cbn; split; (done || discriminate).
Qed.

Lemma tocExists_false_remove (s : state) :
  tocExists s = false -> removeExistingTOC (document s) = document s.
Proof.
  unfold tocExists, removeExistingTOC. change CONSTANTS.TOC_CONTAINER with "toc-extension".
  by destruct (getElementById _ _).
Qed.

Lemma onUpdate_frame (s : state) :
  document (onUpdate s) = document s /\ console (onUpdate s) = console s /\
  lastCreateTime (onUpdate s) = lastCreateTime s /\ now (onUpdate s) = now s /\
  localStorage (onUpdate s) = localStorage s.
Proof. unfold onUpdate, debouncedCreateTOC. by destruct (createTimer s). Qed.

Lemma tocExists_onUpdate (s : state) : tocExists (onUpdate s) = tocExists s.
Proof. unfold tocExists. by rewrite (proj1 (onUpdate_frame s)). Qed.

Lemma onUpdate_armed (s : state) :
  timers s = [] \/ armed s (now s) -> armed (onUpdate s) (now s).
Proof.
  unfold onUpdate, debouncedCreateTOC, armed. intros [Ht|(id & Ht & Hc & _)].
  - destruct (createTimer s) as [id|]; cbn; rewrite Ht; cbn; eexists; by repeat split.
  - rewrite Hc. cbn. rewrite Ht. cbn. rewrite Pos.eqb_refl. cbn. eexists; by repeat split.
Qed.

Lemma armed_fires_document (config : siteConfig) (s : state) (t T : Z) :
  armed s t -> t + 300 <= T -> 1000 <= t + 300 - lastCreateTime s ->
  document (advanceTo config T s) =
    let doc1 := removeExistingTOC (document s) in
    match getQueries config doc1 with
    | [] => doc1
    | (_ :: _) as questions =>
        (populateTOCList (map ItemQuery questions) doc1).2
        ++ [setupTOCFunctionality config (localStorage s)
              (buildTOCStructure config (map ItemQuery questions) doc1).1]
    end.
Proof.
  intros (id & Ht & Hc & Hn) HT Hcool. unfold advanceTo. rewrite Ht.
  cbn [length runTimers]. rewrite Ht. cbn [nextTimer t_due].
  replace (t + 300 <=? T) with true by (symmetry; apply Z.leb_le; lia).
  unfold fire. cbn [t_cb t_id t_due runCallback].
  set (s1 := setNow _ (clearTimeout id s)).
  change (document (setNow ?v ?r)) with (document r).
  rewrite (createTOC_document config s1) by (subst s1; cbn; lia).
  reflexivity.
Qed.

(** With a panel on the page a check asks for a rebuild exactly when the
    number of queries differs from the recorded one. *)
Lemma check_with_panel (st : site) (m : counters) (s : state) :
  tocExists s = true ->
  (threshold st < queryCount st s)%nat ->
  periodicCheck st false m s
  = if (queryCount st s =? lastQueryCount m)%nat then (m, s)
    else (setLastQueryCount (queryCount st s) m, onUpdate s).
Proof.
  intros Htoc Hn. unfold queryCount in *.
  assert (Hpos : (0 <? length (getQueries (config st) (document s)))%nat = true)
    by (apply Nat.ltb_lt; lia).
  destruct st; cbn [periodicCheck threshold] in *;
    unfold config, chatgptConfig, geminiConfig, perplexityConfig, claudeConfig in *;
    cbn [getQueries] in *;
    unfold chatgptCheck, geminiCheck, perplexityCheck, claudeCheck;
    cbn [TOC_PERF.isTabVisible negb]; cbv zeta; rewrite Htoc; cbn [negb andb].
  - rewrite Hpos, andb_true_r. by destruct (_ =? _)%nat.
  - rewrite Hpos. by destruct (_ =? _)%nat.
  - apply Nat.ltb_lt in Hn. rewrite Hn, andb_true_r. by destruct (_ =? _)%nat.
  - rewrite Hpos, andb_true_r. by destruct (_ =? _)%nat.
Qed.

(** Without a panel, and with enough queries, a check asks for one. *)
Lemma check_without_panel (st : site) (m : counters) (s : state) :
  tocExists s = false ->
  (threshold st < queryCount st s)%nat ->
  ((periodicCheck st false m s).2 = onUpdate s \/
   (periodicCheck st false m s).2 = onUpdate (onUpdate s)) /\
  lastQueryCount (periodicCheck st false m s).1
  = match st with
    | ChatGPT => lastQueryCount m
    | _ => queryCount st s
    end.
Proof.
  intros Htoc Hn. unfold queryCount in *.
  assert (Hpos : (0 <? length (getQueries (config st) (document s)))%nat = true)
    by (apply Nat.ltb_lt; lia).
  destruct st; cbn [periodicCheck threshold] in *;
    unfold config, chatgptConfig, geminiConfig, perplexityConfig, claudeConfig in *;
    cbn [getQueries] in *;
    unfold chatgptCheck, geminiCheck, perplexityCheck, claudeCheck;
    cbn [TOC_PERF.isTabVisible negb]; cbv zeta; rewrite Htoc; cbn [negb andb].
  - rewrite Hpos. cbn. split; [by left | reflexivity].
  - rewrite Hpos. cbn. split; [by left | reflexivity].
  - apply Nat.ltb_lt in Hn. rewrite Hn, andb_true_r.
    destruct (_ =? _)%nat eqn:E; cbn.
    + apply Nat.eqb_eq in E. split; [by left | by symmetry].
    + split; [by right | reflexivity].
  - rewrite Hpos. cbn. split; [by left | reflexivity].
Qed.

End MonitorFacts.

(** X17. On a visible page without a panel whose conversation has queries
    (at least two on Perplexity), with no timer pending and the cooldown
    over by then, one periodic check arms the debounce timer, and 300 time
    units later the page has exactly one panel, appended to the page, with
    one row per query.  The check records the query count on Gemini,
    Perplexity and Claude, but not on ChatGPT. *)
Theorem periodic_check_builds_panel (st : Monitor.site) (m : Monitor.counters) (s : UI.state)
    (T : Z) :
  Monitor.tocExists s = false ->
  (Monitor.threshold st < Monitor.queryCount st s)%nat ->
  UI.timers s = [] ->
  1000 <= UI.now s + 300 - UI.lastCreateTime s ->
  UI.now s + 300 <= T ->
  let checked := Monitor.periodicCheck st false m s in
  let s2 := UI.advanceTo (Monitor.config st) T checked.2 in
  UI.armed checked.2 (UI.now s) /\
  Monitor.lastQueryCount checked.1
    = match st with
      | Monitor.ChatGPT => Monitor.lastQueryCount m
      | _ => Monitor.queryCount st s
      end /\
  UI.executions s2 = S (UI.executions s) /\
  exists host toc,
    UI.document s2 = host ++ [toc] /\
    UI.panels host = [] /\
    length (UI.panels (UI.document s2)) = 1%nat /\
    length (UI.panelRows toc) = Monitor.queryCount st s.
Proof.
  intros Htoc Hn Ht Hcool HT checked s2.
  destruct (check_without_panel st m s Htoc Hn) as [Hreq Hcount]. fold checked in Hreq, Hcount.
  pose proof (onUpdate_frame s) as (Hd1 & Hc1 & Hl1 & Hn1 & Hs1).
  pose proof (onUpdate_frame (Monitor.onUpdate s)) as (Hd2 & Hc2 & Hl2 & Hn2 & Hs2).
  assert (Ha1 : UI.armed (Monitor.onUpdate s) (UI.now s)) by (apply onUpdate_armed; by left).
  assert (Hs : UI.armed checked.2 (UI.now s) /\ UI.document checked.2 = UI.document s /\
               UI.console checked.2 = UI.console s /\
               UI.lastCreateTime checked.2 = UI.lastCreateTime s /\
               UI.localStorage checked.2 = UI.localStorage s).
  { destruct Hreq as [->| ->]; [by repeat split|].
    split; [|repeat split; congruence].
    rewrite <- Hn1. apply onUpdate_armed. right. by rewrite Hn1. }
  destruct Hs as (Ha & Hd & Hc & Hl & Hls).
  split; [exact Ha|]. split; [exact Hcount|].
  destruct (armed_fires (Monitor.config st) checked.2 (UI.now s) T Ha HT) as (_ & _ & He & _).
  split.
  { fold s2 in He. rewrite He, Hl.
    replace (UI.now s + 300 - UI.lastCreateTime s <? 1000) with false
      by (symmetry; apply Z.ltb_ge; lia).
    unfold UI.executions. rewrite Hc. lia. }
  pose proof (armed_fires_document (Monitor.config st) checked.2 (UI.now s) T Ha HT) as Hdoc.
  rewrite Hl in Hdoc. specialize (Hdoc Hcool). fold s2 in Hdoc. cbv zeta in Hdoc.
  rewrite Hd, Hls, (tocExists_false_remove s Htoc) in Hdoc.
  unfold Monitor.queryCount in *.
  destruct (getQueries (Monitor.config st) (UI.document s)) as [|q qs] eqn:E;
    [cbn in Hn; lia|].
  assert (H0 : DOM.countId CONSTANTS.TOC_CONTAINER (UI.document s) = 0%nat).
  { rewrite <- length_panels. apply tocExists_false in Htoc. by rewrite Htoc. }
  assert (H2 : DOM.countId CONSTANTS.TOC_CONTAINER
                 (UI.populateTOCList (map ItemQuery (q :: qs)) (UI.document s)).2 = 0%nat).
  { pose proof (populateFrom_count (map ItemQuery (q :: qs)) 0 (UI.document s)) as Hle.
    unfold UI.populateTOCList. lia. }
  eexists _, _. split; [exact Hdoc|]. split; [by apply panels_nil|].
  split; [rewrite Hdoc, length_panels, countId_app, H2, panel_count; reflexivity|].
  rewrite panel_rows. unfold UI.populateTOCList. by rewrite populateFrom_length, length_map.
Qed.

Lemma periodic_check_builds_panel_witness :
  let page := [DOM.Elem "div" {[ "data-message-author-role" := "user" ]}
                 [DOM.Text "Explain recursion"]] in
  let s := UI.constructed page 1700000000000 in
  let checked := Monitor.periodicCheck Monitor.ChatGPT false (Monitor.setup "https://chatgpt.com/") s in
  let s2 := UI.advanceTo chatgptConfig 1700000000300 checked.2 in
  UI.executions s2 = 1%nat /\ length (UI.panels (UI.document s2)) = 1%nat.
Proof.
  intros page s checked s2.
  destruct (periodic_check_builds_panel Monitor.ChatGPT (Monitor.setup "https://chatgpt.com/") s
              1700000000300) as (_ & _ & He & host & toc & _ & _ & Hp & _).
  - vm_compute. reflexivity.
  - vm_compute. lia.
  - reflexivity.
  - vm_compute. discriminate.
  - vm_compute. discriminate.
  - split; [exact He | exact Hp].
Defined.

(** X18. On a visible page that has a panel and enough queries, a periodic
    check asks for a rebuild exactly when the number of queries differs
    from the recorded one, and records the new number; the page itself is
    left alone, and a second check on the same page does nothing. *)
Theorem periodic_check_settles (st : Monitor.site) (m : Monitor.counters) (s : UI.state) :
  Monitor.tocExists s = true ->
  (Monitor.threshold st < Monitor.queryCount st s)%nat ->
  let checked := Monitor.periodicCheck st false m s in
  Monitor.lastQueryCount checked.1 = Monitor.queryCount st s /\
  UI.document checked.2 = UI.document s /\
  checked.2 = (if (Monitor.queryCount st s =? Monitor.lastQueryCount m)%nat
               then s else Monitor.onUpdate s) /\
  Monitor.periodicCheck st false checked.1 checked.2 = checked.
Proof.
  intros Htoc Hn checked. subst checked. rewrite (check_with_panel st m s Htoc Hn).
  destruct (Monitor.queryCount st s =? Monitor.lastQueryCount m)%nat eqn:E; cbn [fst snd].
  - apply Nat.eqb_eq in E. split; [by symmetry|]. split; [reflexivity|].
    split; [reflexivity|]. rewrite (check_with_panel st m s Htoc Hn).
    by rewrite E, Nat.eqb_refl.
  - pose proof (onUpdate_frame s) as (Hd & _).
    split; [reflexivity|]. split; [exact Hd|]. split; [reflexivity|].
    assert (Hq : Monitor.queryCount st (Monitor.onUpdate s) = Monitor.queryCount st s)
      by (unfold Monitor.queryCount; by rewrite Hd).
    rewrite check_with_panel.
    + rewrite Hq. cbn [Monitor.lastQueryCount Monitor.setLastQueryCount].
      by rewrite Nat.eqb_refl.
    + by rewrite tocExists_onUpdate.
    + by rewrite Hq.
Qed.

Lemma periodic_check_settles_witness :
  let page := [DOM.Elem "div" {[ "data-message-author-role" := "user" ]}
                 [DOM.Text "Explain recursion"]] in
  let built := UI.createTOC chatgptConfig (UI.constructed page 1700000000000) in
  let checked := Monitor.periodicCheck Monitor.ChatGPT false (Monitor.setup "https://chatgpt.com/") built in
  Monitor.lastQueryCount checked.1 = 1%nat /\
  checked.2 = Monitor.onUpdate built /\
  Monitor.periodicCheck Monitor.ChatGPT false checked.1 checked.2 = checked.
Proof.
  intros page built checked.
  destruct (periodic_check_settles Monitor.ChatGPT (Monitor.setup "https://chatgpt.com/") built)
    as (Hc & _ & Hs & Hagain).
  - vm_compute. reflexivity.
  - vm_compute. lia.
  - split; [exact Hc|]. split; [exact Hs | exact Hagain].
Defined.

(** X19. A periodic check in a hidden tab does nothing.  On a visible page
    whose conversation is empty (or has a single query, on Perplexity) no
    check asks for a rebuild: ChatGPT, Perplexity and Claude leave
    everything as it is, and Gemini, when the recorded count is not zero,
    sets it to zero and removes the panel, so that a page that had at most
    one panel has none. *)
Theorem periodic_check_idle (st : Monitor.site) (m : Monitor.counters) (s : UI.state) :
  Monitor.periodicCheck st true m s = (m, s) /\
  ((Monitor.queryCount st s <= Monitor.threshold st)%nat ->
   let checked := Monitor.periodicCheck st false m s in
   UI.timers checked.2 = UI.timers s /\
   UI.createTimer checked.2 = UI.createTimer s /\
   match st with
   | Monitor.Gemini =>
       Monitor.lastQueryCount checked.1 = 0%nat /\
       UI.document checked.2
         = (if (Monitor.lastQueryCount m =? 0)%nat then UI.document s
            else UI.removeExistingTOC (UI.document s)) /\
       ((length (UI.panels (UI.document s)) <= 1)%nat ->
        Monitor.lastQueryCount m <> 0%nat ->
        UI.panels (UI.document checked.2) = [])
   | _ => checked = (m, s)
   end).
Proof.
  split; [by destruct st|].
  intros Hn checked. subst checked. unfold Monitor.queryCount in Hn.
  destruct st; cbn [Monitor.periodicCheck Monitor.threshold] in *;
    unfold Monitor.config, chatgptConfig, geminiConfig, perplexityConfig, claudeConfig in *;
    cbn [getQueries] in *;
    unfold Monitor.chatgptCheck, Monitor.geminiCheck, Monitor.perplexityCheck,
      Monitor.claudeCheck;
    cbn [TOC_PERF.isTabVisible negb]; cbv zeta.
  - assert (E : length (SITES.chatgpt.getQueries (UI.document s)) = 0%nat) by lia.
    rewrite E. cbn [Nat.ltb Nat.leb]. by rewrite !andb_false_r.
  - assert (E : length (SITES.gemini.getQueries (UI.document s)) = 0%nat) by lia.
    rewrite E. cbn [Nat.ltb Nat.leb]. rewrite andb_false_r.
    rewrite (Nat.eqb_sym 0). destruct (Monitor.lastQueryCount m =? 0)%nat eqn:E0; cbn [negb].
    + apply Nat.eqb_eq in E0. cbn [fst snd]. repeat split; try done.
    + unfold UI.removeExistingTOC. change CONSTANTS.TOC_CONTAINER with "toc-extension".
      pose proof (removeExistingTOC_count (UI.document s)) as Hrm.
      unfold UI.removeExistingTOC in Hrm.
      change CONSTANTS.TOC_CONTAINER with "toc-extension" in Hrm.
      destruct (DOM.getElementById (UI.document s) "toc-extension") as [toc|];
        cbn [fst snd UI.timers UI.createTimer UI.document UI.setDocument
             Monitor.lastQueryCount Monitor.setLastQueryCount];
        repeat split; intros Hone _; apply panels_nil, Hrm; by rewrite <- length_panels.
  - assert (E : (1 <? length (SITES.perplexity.getQueries (UI.document s)))%nat = false)
      by (apply Nat.ltb_ge; lia).
    rewrite E. by rewrite !andb_false_r.
  - assert (E : length (SITES.claude.getQueries (UI.document s)) = 0%nat) by lia.
    rewrite E. cbn [Nat.ltb Nat.leb]. by rewrite !andb_false_r.
Qed.

Lemma periodic_check_idle_witness :
  let page := [DOM.Elem "div" ∅ [DOM.Text "Hello"];
               DOM.Elem "div" {[ "id" := "toc-extension" ]} []] in
  let s := UI.constructed page 1700000000000 in
  let m := Monitor.setLastQueryCount 3 (Monitor.setup "https://gemini.google.com/app") in
  let checked := Monitor.periodicCheck Monitor.Gemini false m s in
  UI.timers checked.2 = [] /\
  Monitor.lastQueryCount checked.1 = 0%nat /\
  UI.document checked.2 = [DOM.Elem "div" ∅ [DOM.Text "Hello"]].
Proof.
  intros page s m checked.
  destruct (periodic_check_idle Monitor.Gemini m s) as [_ H].
  destruct H as (Ht & _ & Hc & Hd & _).
  - vm_compute. lia.
  - split; [exact Ht|]. split; [exact Hc|]. etransitivity; [exact Hd|]. vm_compute. reflexivity.
Defined.

(** X20. A change of the URL seen in a visible tab is reported once: the
    check schedules one update, records the new URL and resets the query
    count, and a further check at the same URL schedules nothing.  Because
    of the reset, the next periodic check on a page with a panel and enough
    queries asks for a rebuild whatever the number of queries is.  In a
    hidden tab the change is not recorded, so it is still seen later. *)
Theorem url_change_reported_once (st : Monitor.site) (m : Monitor.counters) (href : string)
    (s : UI.state) :
  href <> Monitor.lastUrl m ->
  let checked := Monitor.urlCheck false href m in
  checked.2 = true /\
  Monitor.lastUrl checked.1 = href /\
  Monitor.urlCheck false href checked.1 = (checked.1, false) /\
  Monitor.urlCheck true href m = (m, false) /\
  (Monitor.tocExists s = true ->
   (Monitor.threshold st < Monitor.queryCount st s)%nat ->
   Monitor.periodicCheck st false checked.1 s
   = (Monitor.setLastQueryCount (Monitor.queryCount st s) checked.1, Monitor.onUpdate s)).
Proof.
  intros Hne checked. subst checked. unfold Monitor.urlCheck.
  cbn [TOC_PERF.isTabVisible negb]. rewrite (bool_decide_eq_false_2 _ Hne).
  cbn [negb fst snd Monitor.lastUrl]. rewrite bool_decide_eq_true_2 by reflexivity.
  cbn [negb]. repeat split. intros Htoc Hn. rewrite (check_with_panel st _ s Htoc Hn).
  cbn [Monitor.lastQueryCount].
  destruct (Monitor.queryCount st s) as [|n]; [lia|]. reflexivity.
Qed.

Lemma url_change_reported_once_witness :
  let m := Monitor.setLastQueryCount 4 (Monitor.setup "https://claude.ai/chat/1") in
  let checked := Monitor.urlCheck false "https://claude.ai/chat/2" m in
  checked.2 = true /\
  Monitor.lastQueryCount checked.1 = 0%nat /\
  Monitor.urlCheck false "https://claude.ai/chat/2" checked.1 = (checked.1, false).
Proof.
  intros m checked.
  destruct (url_change_reported_once Monitor.Claude m "https://claude.ai/chat/2"
              (UI.constructed [] 0)) as (Hr & _ & Hagain & _).
  - discriminate.
  - split; [exact Hr|]. split; [reflexivity | exact Hagain].
Defined.

(** ** Anchors *)

Section AnchorFacts.
Import DOM UI Anchors.

Lemma walk_single parent anc idx prev (n : node) :
  walk parent anc idx prev [n] = walkNode parent anc idx prev n.
Proof. cbn [walk]. apply app_nil_r. Qed.

Lemma anchors_indep (l : list node) :
  forall parent anc anc' idx prev prev',
    map anchor (walk parent anc idx prev l) = map anchor (walk parent anc' idx prev' l).
Proof.
  induction l as [|s r IH|t a cs r IHc IHr] using forest_ind;
    intros parent anc anc' idx prev prev'.
  - reflexivity.
  - cbn [walk walkNode app]. apply IH.
  - cbn [walk]. rewrite !walkNode_Elem, !map_app. cbn [map]. f_equal; [f_equal|].
    + apply IHc.
    + apply IHr.
Qed.

Lemma walk_paths (l : list node) :
  forall parent anc idx prev,
    Forall (fun a => exists j rest,
              a.1 = parent ++ j :: rest /\ (idx <= j < idx + length l)%nat)
      (map anchor (walk parent anc idx prev l)).
Proof.
  induction l as [|s r IH|t a cs r IHc IHr] using forest_ind; intros parent anc idx prev.
  - constructor.
  - cbn [walk walkNode app length]. eapply Forall_impl; [apply (IH parent anc (S idx))|].
    intros x (j & rest & Hx & Hj). exists j, rest. split; [exact Hx | lia].
  - cbn [walk length]. rewrite walkNode_Elem, map_app. cbn [map]. apply Forall_app. split.
    + constructor.
      * exists idx, []. split; [reflexivity | lia].
      * eapply Forall_impl; [apply (IHc (parent ++ [idx]))|].
        intros x (j & rest & Hx & _). exists idx, (j :: rest).
        split; [by rewrite Hx, <- app_assoc | lia].
    + eapply Forall_impl; [apply (IHr parent anc (S idx))|].
      intros x (j & rest & Hx & Hj). exists j, rest. split; [exact Hx | lia].
Qed.

Lemma reanchor_miss (q : list nat) (v : string) (l : list (list nat * option string)) :
  Forall (fun a => a.1 <> q) l -> map (reanchor q v) l = l.
Proof.
  induction 1 as [|a l Ha _ IH]; [reflexivity|]. cbn [map]. rewrite IH. f_equal.
  unfold reanchor. by rewrite bool_decide_eq_false_2.
Qed.

(** Writing to a place outside a node list leaves its anchors alone. *)
Lemma walk_miss (q : list nat) (v : string) (l : list node) parent anc anc' idx prev prev' :
  (forall j rest, (idx <= j < idx + length l)%nat -> q <> parent ++ j :: rest) ->
  map anchor (walk parent anc' idx prev' l)
  = map (reanchor q v) (map anchor (walk parent anc idx prev l)).
Proof.
  intros Hq. rewrite reanchor_miss; [apply anchors_indep|].
  eapply Forall_impl; [apply walk_paths|].
  intros x (j & rest & Hx & Hj) Heq. apply (Hq j rest Hj). congruence.
Qed.

Lemma setAttrAt_cons_S (i : nat) (p : list nat) (k v : string) (n : node) (r : list node) :
  setAttrAt (S i :: p) k v (n :: r) = n :: setAttrAt (i :: p) k v r.
Proof. by destruct p. Qed.

Lemma setAttrAt_Text (p : list nat) (k v : string) (s : string) (r : list node) :
  setAttrAt (0%nat :: p) k v (Text s :: r) = Text s :: r.
Proof. by destruct p. Qed.

(** [el.id = v] changes the id at that place and nothing else. *)
Lemma setAttrAt_anchors (v : string) (l : list node) :
  forall i p' parent idx anc anc' prev prev',
    map anchor (walk parent anc' idx prev' (setAttrAt (i :: p') "id" v l))
    = map (reanchor (parent ++ (idx + i)%nat :: p') v)
        (map anchor (walk parent anc idx prev l)).
Proof.
  induction l as [|s r IH|t a cs r IHc IHr] using forest_ind;
    intros i p' parent idx anc anc' prev prev'.
  - by destruct p'.
  - destruct i as [|i].
    + rewrite setAttrAt_Text. cbn [walk walkNode app]. apply walk_miss.
      intros j rest Hj Heq. apply app_inv_head in Heq. injection Heq as Heq _. lia.
    + rewrite setAttrAt_cons_S. cbn [walk walkNode app].
      rewrite (IH i p' parent (S idx) anc anc' (nextPrev prev (Text s))).
      by replace (S idx + i)%nat with (idx + S i)%nat by lia.
  - destruct i as [|i].
    + rewrite Nat.add_0_r. destruct p' as [|j p''].
      * change (setAttrAt [0%nat] "id" v (Elem t a cs :: r))
          with (Elem t (<["id" := v]> a) cs :: r).
        cbn [walk]. rewrite !walkNode_Elem, !map_app. cbn [map]. f_equal; [f_equal|].
        -- unfold anchor, reanchor, e_path. cbn [e_parent e_index e_attrs fst snd].
           rewrite bool_decide_eq_true_2 by reflexivity. by rewrite lookup_insert_eq.
        -- apply walk_miss. intros j rest _ Heq. rewrite <- app_assoc in Heq.
           apply app_inv_head in Heq. discriminate Heq.
        -- apply walk_miss. intros j rest Hj Heq. apply app_inv_head in Heq.
           injection Heq as Heq. lia.
      * change (setAttrAt (0%nat :: j :: p'') "id" v (Elem t a cs :: r))
          with (Elem t a (setAttrAt (j :: p'') "id" v cs) :: r).
        cbn [walk]. rewrite !walkNode_Elem, !map_app. cbn [map]. f_equal; [f_equal|].
        -- unfold anchor, reanchor, e_path. cbn [e_parent e_index e_attrs fst snd].
           rewrite bool_decide_eq_false_2; [reflexivity|].
           intros Heq. apply app_inv_head in Heq. discriminate Heq.
        -- rewrite (IHc j p'' (parent ++ [idx]) 0%nat ((t, a) :: anc) ((t, a) :: anc') None None).
           by rewrite <- app_assoc.
        -- apply walk_miss. intros j' rest Hj Heq. apply app_inv_head in Heq.
           injection Heq as Heq. lia.
    + rewrite setAttrAt_cons_S. cbn [walk]. rewrite !map_app. f_equal.
      * rewrite <- !walk_single. apply walk_miss.
        intros j rest Hj Heq. apply app_inv_head in Heq. injection Heq as Heq _.
        cbn [length] in Hj. lia.
      * rewrite (IHr i p' parent (S idx) anc anc' (nextPrev prev (Elem t a cs))).
        by replace (S idx + i)%nat with (idx + S i)%nat by lia.
Qed.

End AnchorFacts.

Section AnchorStamps.
Import DOM UI Anchors.

Lemma e_path_cons (e : Element) : exists i p', e_path e = i :: p'.
Proof. unfold e_path. destruct (e_parent e) as [|i p]; cbn; by eexists _, _. Qed.

Lemma assignId_anchors (index : nat) (it : item) (doc : forest) :
  map anchor (elements (assignId index it doc))
  = map (fun a => match itemPath it with
                  | Some p => reanchor p (questionId index) a
                  | None => a
                  end) (map anchor (elements doc)).
Proof.
  unfold assignId, itemPath. destruct (questionElement it) as [el|]; cbn [fmap option_fmap option_map].
  - destruct (e_path_cons el) as (i & p' & ->). unfold elements.
    by rewrite (setAttrAt_anchors _ doc i p' [] 0%nat [] [] None None).
  - by rewrite map_id.
Qed.

Lemma populateFrom_anchors (questions : list item) :
  forall index doc,
    map anchor (elements (populateFrom index questions doc).2)
    = map (stamp index questions) (map anchor (elements doc)).
Proof.
  induction questions as [|it rest IH]; intros index doc.
  - cbn. by rewrite map_id.
  - rewrite populateFrom_cons. cbn [snd stamp]. rewrite IH, assignId_anchors, !map_map.
    reflexivity.
Qed.

Lemma reanchor_path (p : list nat) (v : string) (a : list nat * option string) :
  (reanchor p v a).1 = a.1.
Proof. unfold reanchor. by destruct (bool_decide _). Qed.

Lemma stamp_path (questions : list item) :
  forall index a, (stamp index questions a).1 = a.1.
Proof.
  induction questions as [|it rest IH]; intros index a; [reflexivity|].
  cbn [stamp]. rewrite IH. destruct (itemPath it); [apply reanchor_path | reflexivity].
Qed.

Lemma stamp_miss (questions : list item) :
  forall index a, ~ In a.1 (omap itemPath questions) -> stamp index questions a = a.
Proof.
  induction questions as [|it rest IH]; intros index a Hn; [reflexivity|].
  cbn [stamp]. cbn [omap list_omap] in Hn. destruct (itemPath it) as [p|].
  - unfold reanchor. rewrite bool_decide_eq_false_2.
    + apply IH. intros H. apply Hn. by right.
    + intros H. apply Hn. left. by symmetry.
  - by apply IH.
Qed.

(** The element of entry [k] ends with the id of entry [k]. *)
Lemma stamp_hit (questions : list item) :
  forall index a k it,
    List.NoDup (omap itemPath questions) ->
    questions !! k = Some it -> itemPath it = Some a.1 ->
    (stamp index questions a).2 = Some (questionId (index + k)).
Proof.
  induction questions as [|x rest IH]; intros index a k it Hnd Hk Hp; [discriminate|].
  cbn [stamp]. cbn [omap list_omap] in Hnd. destruct k as [|k].
  - injection Hk as ->. rewrite Hp in *. inversion Hnd as [|? ? Hnotin Hnd']; subst.
    unfold reanchor. rewrite bool_decide_eq_true_2 by reflexivity.
    rewrite stamp_miss by exact Hnotin. by rewrite Nat.add_0_r.
  - cbn in Hk. replace (index + S k)%nat with (S index + k)%nat by lia.
    destruct (itemPath x) as [p|] eqn:Ex.
    + inversion Hnd as [|? ? Hnotin Hnd']; subst.
      assert (Hne : a.1 <> p).
      { intros Heq. apply Hnotin. rewrite <- Heq. apply list_elem_of_In.
        apply (list_elem_of_omap itemPath rest a.1). exists it. split; [|exact Hp].
        by apply (list_elem_of_lookup_2 _ k). }
      unfold reanchor. rewrite bool_decide_eq_false_2 by exact Hne.
      by apply (IH _ _ k it).
    + by apply (IH _ _ k it).
Qed.

(** An id that an element ends with was written for one of the entries or
    was there before. *)
Lemma stamp_id (questions : list item) :
  forall index a id,
    (stamp index questions a).2 = Some id ->
    (exists k it, questions !! k = Some it /\ itemPath it = Some a.1 /\
                  id = questionId (index + k)) \/
    a.2 = Some id.
Proof.
  induction questions as [|x rest IH]; intros index a id H; [by right|].
  cbn [stamp] in H. apply IH in H as [(k & it & Hk & Hp & Hid)|H].
  - left. exists (S k), it. split; [exact Hk|]. split.
    + rewrite Hp. f_equal. destruct (itemPath x); [apply reanchor_path | reflexivity].
    + rewrite Hid. f_equal. lia.
  - destruct (itemPath x) as [p|] eqn:Ex; [|by right].
    unfold reanchor in H. destruct (bool_decide (a.1 = p)) eqn:E; [|by right].
    apply bool_decide_eq_true in E. cbn in H. injection H as <-.
    left. exists 0%nat, x. split; [reflexivity|]. split; [by rewrite Ex, E|].
    by rewrite Nat.add_0_r.
Qed.

Lemma questionId_inj (i j : nat) : questionId i = questionId j -> i = j.
Proof.
  unfold questionId, JS.ofNat. intros H. apply String.app_inj in H.
  by apply pretty_nat_inj in H.
Qed.

Lemma getElementById_anchors (doc : forest) (id : string) :
  e_path <$> getElementById doc id
  = fst <$> head (List.filter (fun a => bool_decide (a.2 = Some id))
                    (map anchor (elements doc))).
Proof.
  unfold getElementById. induction (elements doc) as [|e es IH]; [reflexivity|].
  cbn [map List.filter]. unfold hasId at 1. unfold anchor at 1. cbn [snd].
  destruct (bool_decide (e_attrs e !! "id" = Some id)); [reflexivity | exact IH].
Qed.

Lemma head_all_same {A B : Type} (f : A -> B) (l : list A) (b : B) :
  l <> [] -> Forall (fun x => f x = b) l -> f <$> head l = Some b.
Proof. destruct l as [|x l]; [done|]. intros _ H. inversion H; subst. reflexivity. Qed.

End AnchorStamps.

Section AnchorTargets.
Import DOM UI Anchors.

(** After [populateTOCList], an element whose id is that of entry [k] is
    the source element of entry [k]. *)
Lemma stamped_owner (questions : list item) (doc : forest) (k : nat) (it : item) (e : Element) :
  List.NoDup (omap itemPath questions) ->
  (forall e j, In e (elements doc) -> (j < length questions)%nat ->
               e_attrs e !! "id" = Some (questionId j) ->
               In (e_path e) (omap itemPath questions)) ->
  questions !! k = Some it ->
  In e (elements doc) ->
  (stamp 0 questions (anchor e)).2 = Some (questionId k) ->
  itemPath it = Some (e_path e).
Proof.
  intros Hnd Hold Hk He Hid.
  destruct (stamp_id questions 0 (anchor e) _ Hid) as [(k' & it' & Hk' & Hp' & Heq)|Horig].
  - apply questionId_inj in Heq. cbn in Heq. subst k'.
    change ((anchor e).1) with (e_path e) in Hp'. congruence.
  - pose proof (lookup_lt_Some _ _ _ Hk) as Hlt.
    pose proof (Hold e k He Hlt Horig) as Hin.
    apply list_elem_of_In, list_elem_of_omap in Hin as (it'' & Hin & Hp'').
    change (e_path e) with ((anchor e).1) in Hp''.
    apply list_elem_of_lookup_1 in Hin as (k'' & Hk'').
    pose proof (stamp_hit questions 0 (anchor e) k'' it'' Hnd Hk'' Hp'') as Hhit.
    assert (Hsame : questionId k = questionId (0 + k'')) by congruence.
    apply questionId_inj in Hsame. cbn in Hsame. subst k''. change ((anchor e).1) with (e_path e) in Hp''. congruence.
Qed.

(** What the click handler of row [k] finds after [populateTOCList]. *)
Lemma link_targets (questions : list item) (doc : forest) (k : nat) (it : item) :
  List.NoDup (omap itemPath questions) ->
  (forall e j, In e (elements doc) -> (j < length questions)%nat ->
               e_attrs e !! "id" = Some (questionId j) ->
               In (e_path e) (omap itemPath questions)) ->
  questions !! k = Some it ->
  match itemPath it with
  | Some p =>
      In p (map e_path (elements doc)) ->
      e_path <$> scrollTarget (populateTOCList questions doc).2 k = Some p
  | None => scrollTarget (populateTOCList questions doc).2 k = None
  end.
Proof.
  intros Hnd Hold Hk.
  assert (Hpath : DOM.e_path <$> Anchors.scrollTarget (UI.populateTOCList questions doc).2 k
                  = fst <$> head (List.filter
                                    (fun a => bool_decide (a.2 = Some (UI.questionId k)))
                                    (map (Anchors.stamp 0 questions)
                                       (map Anchors.anchor (DOM.elements doc))))).
  { unfold Anchors.scrollTarget, UI.populateTOCList.
    by rewrite getElementById_anchors, populateFrom_anchors. }
  assert (Hall : forall a',
            In a' (List.filter (fun a => bool_decide (a.2 = Some (UI.questionId k)))
                     (map (Anchors.stamp 0 questions)
                        (map Anchors.anchor (DOM.elements doc)))) ->
            Anchors.itemPath it = Some a'.1).
  { intros a' Ha'. apply filter_In in Ha' as [Hin Hid]. apply bool_decide_eq_true in Hid.
    apply in_map_iff in Hin as (a & <- & Hin). apply in_map_iff in Hin as (e & <- & He).
    rewrite stamp_path. by apply (stamped_owner questions doc k it e). }
  destruct (Anchors.itemPath it) as [p|] eqn:Ep.
  - intros Hp. rewrite Hpath. apply in_map_iff in Hp as (e & <- & He).
    apply head_all_same.
    + assert (Hin : In (Anchors.stamp 0 questions (Anchors.anchor e))
                      (List.filter (fun a => bool_decide (a.2 = Some (UI.questionId k)))
                         (map (Anchors.stamp 0 questions)
                            (map Anchors.anchor (DOM.elements doc))))).
      { apply filter_In. split; [by apply in_map, in_map|].
        apply bool_decide_eq_true.
        by rewrite (stamp_hit questions 0 (Anchors.anchor e) k it Hnd Hk Ep). }
      intros Hnil. rewrite Hnil in Hin. destruct Hin.
    + apply Forall_forall. intros a' Ha'. apply list_elem_of_In in Ha'.
      specialize (Hall a' Ha'). congruence.
  - destruct (List.filter _ _) as [|a' l'] eqn:El.
    + cbn in Hpath. by destruct (Anchors.scrollTarget _ _).
    + specialize (Hall a' (or_introl eq_refl)). discriminate Hall.
Qed.

End AnchorTargets.

(** X21. The link of a row scrolls to the question of that row.  When the
    source elements of the entries are different elements of the page, and
    every element that already carries one of the ids toc-question-0 ..
    toc-question-(N-1) is one of them, then after [populateTOCList] the
    click handler of row k finds the source element of entry k; for an
    entry without an element (a plain string) it finds nothing. *)
Theorem row_link_target (questions : list item) (doc : DOM.forest) (k : nat) (it : item) :
  List.NoDup (omap Anchors.itemPath questions) ->
  (forall e j, In e (DOM.elements doc) -> (j < length questions)%nat ->
               DOM.e_attrs e !! "id" = Some (UI.questionId j) ->
               In (DOM.e_path e) (omap Anchors.itemPath questions)) ->
  questions !! k = Some it ->
  let doc' := (UI.populateTOCList questions doc).2 in
  match Anchors.itemPath it with
  | Some p =>
      In p (map DOM.e_path (DOM.elements doc)) ->
      DOM.e_path <$> Anchors.scrollTarget doc' k = Some p
  | None => Anchors.scrollTarget doc' k = None
  end.
Proof. apply link_targets. Qed.

Lemma row_link_target_witness :
  let page := [DOM.Elem "div" {[ "data-message-author-role" := "user" ]} [DOM.Text "First"];
               DOM.Elem "div" ∅ [DOM.Text "An answer"];
               DOM.Elem "div" {[ "data-message-author-role" := "user" ]} [DOM.Text "Second"]] in
  let questions := map ItemQuery (SITES.chatgpt.getQueries page) in
  DOM.e_path <$> Anchors.scrollTarget (UI.populateTOCList questions page).2 1 = Some [2%nat].
Proof.
  intros page questions.
  assert (Hq : exists it, questions !! 1%nat = Some it /\ Anchors.itemPath it = Some [2%nat])
    by (eexists; split; reflexivity).
  destruct Hq as (it & Hk & Hp).
  pose proof (row_link_target questions page 1 it) as H. cbv zeta in H. rewrite Hp in H.
  apply H.
  - change (List.NoDup [[0%nat]; [2%nat]]).
    apply List.NoDup_cons; [intros [H0|[]]; discriminate H0|].
    apply List.NoDup_cons; [intros [] | apply List.NoDup_nil].
  - intros e j He Hj Hid. exfalso.
    vm_compute in He. repeat destruct He as [<-|He]; try destruct He; vm_compute in Hid;
      discriminate.
  - exact Hk.
  - vm_compute. tauto.
Defined.

(** ** The elements of the extracted queries *)

Section ExtractedElements.
Import DOM SITES.

Lemma walk_path_shape (l : list node) parent anc idx prev (p : list nat) :
  In p (map e_path (walk parent anc idx prev l)) ->
  exists j rest, p = parent ++ j :: rest /\ (idx <= j < idx + length l)%nat.
Proof.
  intros Hin. apply in_map_iff in Hin as (e & <- & He).
  pose proof (walk_paths l parent anc idx prev) as Hall.
  rewrite List.Forall_forall in Hall.
  apply (Hall (Anchors.anchor e)). by apply in_map.
Qed.

Lemma walk_NoDup (l : list node) :
  forall parent anc idx prev, NoDup (map e_path (walk parent anc idx prev l)).
Proof.
  induction l as [|s r IH|t a cs r IHc IHr] using forest_ind; intros parent anc idx prev.
  - constructor.
  - cbn [walk walkNode app]. apply IH.
  - cbn [walk]. rewrite walkNode_Elem. cbn [map app]. rewrite map_app.
    apply NoDup_cons. split; [|apply NoDup_app; split; [apply IHc | split; [|apply IHr]]].
    + unfold e_path at 1. cbn [e_parent e_index]. intros Hin.
      apply elem_of_app in Hin as [Hin|Hin]; apply list_elem_of_In in Hin;
        apply walk_path_shape in Hin as (j & rest & Heq & Hj).
      * rewrite <- app_assoc in Heq. apply app_inv_head in Heq. discriminate Heq.
      * apply app_inv_head in Heq. injection Heq as Heq. lia.
    + intros p Hp Hp'. apply list_elem_of_In in Hp, Hp'.
      apply walk_path_shape in Hp as (j & rest & -> & _).
      apply walk_path_shape in Hp' as (j' & rest' & Heq & Hj').
      rewrite <- app_assoc in Heq. apply app_inv_head in Heq. injection Heq as Heq _. lia.
Qed.

Lemma filter_sublist {A : Type} (f : A -> bool) (l : list A) : sublist (List.filter f l) l.
Proof.
  induction l as [|x l IH]; [constructor|]. cbn [List.filter].
  destruct (f x); [by apply sublist_skip | by apply sublist_cons].
Qed.

(** Queries whose elements are among the matches of a selector are
    distinct elements of the page. *)
Lemma fromPage_of_matches (doc : forest) (sel : selector) (queries : list query) :
  sublist (map element queries) (querySelectorAll doc sel) ->
  Forall (fun q => text q = JS.trim (elementText (element q))) queries ->
  fromPage doc queries.
Proof.
  intros Hsub Htext.
  assert (Hel : sublist (map element queries) (elements doc))
    by (etransitivity; [exact Hsub | apply filter_sublist]).
  split; [exact Hel|]. split; [|exact Htext].
  apply NoDup_ListNoDup. rewrite <- (map_map element e_path).
  eapply sublist_NoDup; [apply (walk_NoDup doc [] [] 0%nat None)|].
  by apply (fmap_sublist e_path).
Qed.

Lemma chatgpt_fromPage (doc : forest) : fromPage doc (chatgpt.getQueries doc).
Proof.
  apply (fromPage_of_matches doc chatgpt.userMessage); unfold chatgpt.getQueries;
    rewrite forEachPush_omap.
  - induction (querySelectorAll doc chatgpt.userMessage) as [|el els IH]; [constructor|].
    cbn [omap list_omap]. destruct (JS.truthy _).
    + cbn [map element]. by apply sublist_skip.
    + by apply sublist_cons.
  - apply Forall_omap. intros el q. destruct (JS.truthy _); [|discriminate].
    by intros [= <-].
Qed.

Lemma perplexity_extract_elements (els : list Element) :
  sublist (map element (perplexity.extract els)) els /\
  Forall (fun q => text q = JS.trim (elementText (element q))) (perplexity.extract els).
Proof.
  unfold perplexity.extract. induction els as [|el els [IH1 IH2]]; [split; constructor|].
  cbn [map List.filter]. destruct (JS.truthy _).
  - split; [cbn [map element]; by apply sublist_skip | by constructor].
  - split; [by apply sublist_cons | exact IH2].
Qed.

Lemma perplexity_fromPage (doc : forest) : fromPage doc (perplexity.getQueries doc).
Proof.
  unfold perplexity.getQueries.
  destruct (perplexity.extract (querySelectorAll doc perplexity.primary)) eqn:E.
  - apply (fromPage_of_matches doc perplexity.secondary); apply perplexity_extract_elements.
  - rewrite <- E. apply (fromPage_of_matches doc perplexity.primary);
      apply perplexity_extract_elements.
Qed.

Lemma claude_fromPage (doc : forest) : fromPage doc (claude.getQueries doc).
Proof.
  assert (Htext : Forall (fun q => text q = JS.trim (elementText (element q)))
                    (claude.getQueries doc)).
  { eapply Forall_impl.
    - eapply Forall_of_sublist; [apply filterSeen_sublist | apply claude_candidates_kept].
    - intros q [_ H]; exact H. }
  unfold claude.getQueries, claude.candidates in *.
  destruct (selectorLoop_first doc claude.selectors)
    as [[_ Hnil]|(pre & sel & post & _ & _ & _ & Hloop)].
  - rewrite Hnil. cbn. split; [apply sublist_nil_l|]. split; constructor.
  - apply (fromPage_of_matches doc sel); [|exact Htext]. rewrite Hloop.
    etransitivity; [|apply claude_extract_elements].
    apply (fmap_sublist element), filterSeen_sublist.
Qed.

End ExtractedElements.

(** X22. The queries that the ChatGPT, Perplexity and Claude extractors
    return are elements of the page, in document order and none of them
    twice, and the text of each is the trimmed text content of its
    element. *)
Theorem extracted_elements (doc : DOM.forest) :
  fromPage doc (SITES.chatgpt.getQueries doc) /\
  fromPage doc (SITES.perplexity.getQueries doc) /\
  fromPage doc (SITES.claude.getQueries doc).
Proof.
  split; [apply chatgpt_fromPage | split; [apply perplexity_fromPage | apply claude_fromPage]].
Qed.

(** X23. On ChatGPT, Perplexity and Claude every row of the list leads to
    its own question: when the only elements of the page that already
    carry an id toc-question-j (j below the number of queries) are
    extracted elements, then after [populateTOCList] on the extracted
    queries the click handler of row k finds the element of query k. *)
Theorem extracted_links (st : Monitor.site) (doc : DOM.forest) (k : nat) (q : query) :
  st <> Monitor.Gemini ->
  let queries := getQueries (Monitor.config st) doc in
  (forall e j, In e (DOM.elements doc) -> (j < length queries)%nat ->
               DOM.e_attrs e !! "id" = Some (UI.questionId j) ->
               In (DOM.e_path e) (map (fun q => DOM.e_path (element q)) queries)) ->
  queries !! k = Some q ->
  DOM.e_path <$> Anchors.scrollTarget (UI.populateTOCList (map ItemQuery queries) doc).2 k
  = Some (DOM.e_path (element q)).
Proof.
  intros Hst queries Hold Hk.
  assert (Hfrom : fromPage doc queries).
  { subst queries. destruct st; [apply chatgpt_fromPage | done | apply perplexity_fromPage
                                | apply claude_fromPage]. }
  destruct Hfrom as (Hsub & Hnd & _).
  assert (Hpaths : omap Anchors.itemPath (map ItemQuery queries)
                   = map (fun q => DOM.e_path (element q)) queries).
  { clear. induction queries as [|x l IH]; [reflexivity|]. cbn. by rewrite <- IH. }
  pose proof (link_targets (map ItemQuery queries) doc k (ItemQuery q)) as H.
  rewrite Hpaths, length_map in H. cbn [Anchors.itemPath UI.questionElement fmap option_fmap
    option_map] in H. apply H; try assumption.
  - by rewrite list_lookup_fmap, Hk.
  - apply in_map. apply list_elem_of_In. eapply elem_of_sublist; [|exact Hsub].
    apply list_elem_of_In, in_map. apply list_elem_of_In. by apply (list_elem_of_lookup_2 _ k).
Qed.

Lemma extracted_links_witness :
  let page := [DOM.Elem "div" {[ "data-message-author-role" := "user" ]} [DOM.Text "First"];
               DOM.Elem "div" ∅ [DOM.Text "An answer"];
               DOM.Elem "div" (<[ "id" := "toc-question-0" ]>
                                 {[ "data-message-author-role" := "user" ]})
                 [DOM.Text "Second"]] in
  let queries := SITES.chatgpt.getQueries page in
  DOM.e_path <$> Anchors.scrollTarget (UI.populateTOCList (map ItemQuery queries) page).2 1
  = Some [2%nat].
Proof.
  intros page queries.
  assert (Hq : exists q, queries !! 1%nat = Some q /\ DOM.e_path (element q) = [2%nat])
    by (eexists; split; reflexivity).
  destruct Hq as (q & Hk & Hp). rewrite <- Hp.
  apply (extracted_links Monitor.ChatGPT page 1 q); [discriminate| |exact Hk].
  intros e j He Hj Hid.
  vm_compute in He. destruct He as [<-|[<-|[<-|[]]]]; vm_compute in Hid; try discriminate Hid.
  vm_compute. tauto.
Defined.

(** ** The router *)

Section RouterFacts.
Import Router.

Lemma firstMatch_spec (h : string) (keys : list Monitor.site) :
  match firstMatch h keys with
  | Some st =>
      exists pre post, keys = pre ++ st :: post /\
        SearchManager.occursIn (host st) h /\
        Forall (fun st' => ~ SearchManager.occursIn (host st') h) pre
  | None => Forall (fun st' => ~ SearchManager.occursIn (host st') h) keys
  end.
Proof.
  induction keys as [|key rest IH]; [constructor|]. cbn [firstMatch].
  destruct (DOM.includes (host key) h) eqn:E.
  - exists [], rest. split; [reflexivity|]. split; [by apply includes_occursIn | constructor].
  - assert (Hno : ~ SearchManager.occursIn (host key) h).
    { intros H. apply includes_occursIn in H. congruence. }
    destruct (firstMatch h rest) as [st|].
    + destruct IH as (pre & post & -> & Hocc & Hpre).
      exists (key :: pre), post. split; [reflexivity|]. split; [exact Hocc | by constructor].
    + by constructor.
Qed.

End RouterFacts.

(** X24. The router takes the first adapter, in the order ChatGPT, Gemini,
    Perplexity, Claude, whose host name occurs anywhere in the host of the
    page, and none when no host name occurs.  Each adapter is chosen on its
    own host, and any host that contains "chatgpt.com" gets the ChatGPT
    adapter, whatever stands before or after. *)
Theorem router_first_match (h : string) :
  match Router.activeAdapter h with
  | Some st =>
      exists pre post, Router.sites = pre ++ st :: post /\
        SearchManager.occursIn (Router.host st) h /\
        Forall (fun st' => ~ SearchManager.occursIn (Router.host st') h) pre
  | None => forall st, ~ SearchManager.occursIn (Router.host st) h
  end /\
  (forall st, Router.activeAdapter (Router.host st) = Some st) /\
  (forall a b, Router.activeAdapter (a +:+ "chatgpt.com" +:+ b) = Some Monitor.ChatGPT).
Proof.
  split; [|split].
  - unfold Router.activeAdapter. pose proof (firstMatch_spec h Router.sites) as H.
    destruct (Router.firstMatch h Router.sites) as [st|]; [exact H|].
    intros st. rewrite List.Forall_forall in H. apply H.
    destruct st; cbn; tauto.
  - intros []; vm_compute; reflexivity.
  - intros a b. unfold Router.activeAdapter, Router.sites. cbn [Router.firstMatch Router.host].
    replace (DOM.includes "chatgpt.com" (a +:+ "chatgpt.com" +:+ b)) with true; [reflexivity|].
    symmetry. apply includes_occursIn. by exists a, b.
Qed.

(** ** The first rebuild *)

Section InitialCreate.
Import DOM UI Session.

Lemma createTOC_console (config : siteConfig) (s : state) :
  1000 <= now s - lastCreateTime s ->
  console (createTOC config s)
  = console s ++ [let questions := getQueries config (removeExistingTOC (document s)) in
                  match questions with
                  | [] => LogNoQuestions
                  | _ :: _ => LogCreated (length questions)
                  end].
Proof.
  intros H. unfold createTOC. apply Z.ltb_ge in H. rewrite H. cbv zeta.
  cbn [document setLastCreateTime setDocument].
  destruct (getQueries config _) as [|q qs]; [reflexivity|].
  by destruct (buildTOCStructure _ _ _).
Qed.

Lemma init_fires (config : siteConfig) (doc : forest) (t T : Z) :
  0 <= pageLoad config -> t + pageLoad config <= T ->
  advanceTo config T (init config doc t)
  = setNow (Z.max t T)
      (createTOC config
         (log LogInitial
            {| createTimer := None; lastCreateTime := 0; now := t + pageLoad config;
               document := doc; localStorage := ∅; timers := [];
               nextTimerId := 2%positive; frames := []; console := [] |})).
Proof.
  intros Hp HT. unfold advanceTo, init, delayedCreateTOC, constructed, setTimeout.
  cbn [snd timers length app runTimers nextTimer t_due now nextTimerId].
  replace (t + pageLoad config <=? T) with true by (symmetry; apply Z.leb_le; lia).
  unfold fire, clearTimeout. cbn. replace (Z.max t (t + pageLoad config))
    with (t + pageLoad config) by lia.
  reflexivity.
Qed.

End InitialCreate.

(** X25. The first rebuild.  The constructor schedules one rebuild, and
    once the page-load delay has passed it has run exactly once, at least
    1000 after time 0 and so not held back by the cooldown: the console
    shows the initial-create line followed by the result, no timer is left,
    and a page that had at most one panel has one panel when the extraction
    finds queries and none otherwise. *)
Theorem initial_create (config : siteConfig) (doc : DOM.forest) (t T : Z) :
  0 <= pageLoad config ->
  1000 <= t + pageLoad config ->
  t + pageLoad config <= T ->
  (length (UI.panels doc) <= 1)%nat ->
  let queries := getQueries config (UI.removeExistingTOC doc) in
  let s' := Session.run config [Session.Tick T] (Session.init config doc t) in
  UI.timers (Session.init config doc t)
    = [{| UI.t_id := 1%positive; UI.t_due := t + pageLoad config;
          UI.t_cb := UI.InitialCreate |}] /\
  UI.console s'
    = [UI.LogInitial;
       match queries with
       | [] => UI.LogNoQuestions
       | _ :: _ => UI.LogCreated (length queries)
       end] /\
  UI.executions s' = 1%nat /\
  UI.timers s' = [] /\
  UI.lastCreateTime s' = t + pageLoad config /\
  length (UI.panels (UI.document s'))
    = match queries with
      | [] => 0%nat
      | _ :: _ => 1%nat
      end.
Proof.
  intros Hp Hcool HT Hone queries s'. subst s'.
  unfold Session.run. cbn [fold_left Session.step].
  rewrite (init_fires config doc t T Hp HT).
  set (s0 := UI.log UI.LogInitial _).
  assert (Hc : 1000 <= UI.now s0 - UI.lastCreateTime s0) by (subst s0; cbn; lia).
  split; [reflexivity|].
  change (UI.console (UI.setNow ?v ?r)) with (UI.console r).
  change (UI.timers (UI.setNow ?v ?r)) with (UI.timers r).
  change (UI.lastCreateTime (UI.setNow ?v ?r)) with (UI.lastCreateTime r).
  change (UI.document (UI.setNow ?v ?r)) with (UI.document r).
  change (UI.executions (UI.setNow ?v ?r)) with (UI.executions r).
  destruct (createTOC_executed config s0 Hc) as (Hl & He & _).
  destruct (createTOC_frame config s0) as (Ht & _).
  rewrite (createTOC_console config s0 Hc), He, Ht, Hl.
  rewrite (createTOC_document config s0 Hc). cbv zeta.
  change (UI.document s0) with doc. fold queries.
  split; [reflexivity|]. split; [reflexivity|]. split; [reflexivity|]. split; [reflexivity|].
  clearbody queries.
  assert (H1 : DOM.countId CONSTANTS.TOC_CONTAINER (UI.removeExistingTOC doc) = 0%nat)
    by (apply removeExistingTOC_count; by rewrite <- length_panels).
  destruct queries as [|q qs] eqn:E.
  - by rewrite length_panels.
  - pose proof (populateFrom_count (map ItemQuery (q :: qs)) 0 (UI.removeExistingTOC doc))
      as Hle.
    rewrite length_panels, countId_app, panel_count. unfold UI.populateTOCList. lia.
Qed.

Lemma initial_create_witness :
  let page := [DOM.Elem "div" {[ "data-message-author-role" := "user" ]}
                 [DOM.Text "Explain recursion"]] in
  let s' := Session.run chatgptConfig [Session.Tick 1700000002000]
              (Session.init chatgptConfig page 1700000000000) in
  UI.console s' = [UI.LogInitial; UI.LogCreated 1] /\
  length (UI.panels (UI.document s')) = 1%nat.
Proof.
  intros page s'.
  destruct (initial_create chatgptConfig page 1700000000000 1700000002000)
    as (_ & Hc & _ & _ & _ & Hp).
  - vm_compute. discriminate.
  - vm_compute. discriminate.
  - vm_compute. discriminate.
  - vm_compute. lia.
  - split; [exact Hc | exact Hp].
Defined.
